(** * Sports betting platform: market analysis and value detection

    A shallow embedding of the ingestion, consensus, edge detection,
    stake sizing, backtesting, bet tracking and monitoring code of

      - services/odds_fetcher.py    (OddsFetcher.ingest_odds)
      - services/market_analyzer.py (MarketAnalyzer)
      - services/value_finder.py    (ValueFinder)
      - services/bet_tracker.py     (BetTracker)
      - scripts/backtester.py       (Backtester)
      - scripts/health_check.py     (HealthCheck)
      - models/database.py          (Game, OddsSnapshot, ValueBet, BetResult)
      - config/settings.py          (the betting constants)

    Numbers.  Python floats are modelled by exact rationals ([Q]); a
    division whose divisor is zero raises [ZeroDivisionError] as it does in
    Python.  Rounding, infinities and NaN are outside the model.

    Effects.  Functions that can raise return a [res]; the database is an
    explicit [Store] passed in and out, with the pending rows of the session
    kept apart from the committed ones. *)

From Stdlib Require Import QArith Qminmax ZArith List String Ascii Bool Lia Lqa.
From Stdlib Require Import Permutation Sorted.
Import ListNotations.
Open Scope Q_scope.

(* ================================================================== *)
(** ** Python values and exceptions *)

Inductive exn : Type :=
| ZeroDivisionError
| TypeError
| ValueError
| IntegrityError.

Inductive res (A : Type) : Type :=
| Ok (a : A)
| Raise (e : exn).

Arguments Ok {A} a.
Arguments Raise {A} e.

Definition bind {A B} (r : res A) (k : A -> res B) : res B :=
  match r with
  | Ok a => k a
  | Raise e => Raise e
  end.

Notation "x <- r ;; k" := (bind r (fun x => k))
  (at level 61, r at next level, right associativity).

(** [a / b] on floats. *)
Definition py_div (a b : Q) : res Q :=
  if Qeq_bool b 0 then Raise ZeroDivisionError else Ok (a / b).

(** [max(a, b)] and [min(a, b)]: the first argument is kept unless the
    second is strictly larger (resp. smaller). *)
Definition py_max (a b : Q) : Q := if Qlt_le_dec a b then b else a.
Definition py_min (a b : Q) : Q := if Qlt_le_dec b a then b else a.

(** [a <= b], [a >= b] and [a < b] as tests. *)
Definition Qleb (a b : Q) : bool := Qle_bool a b.
Definition Qgeb (a b : Q) : bool := Qle_bool b a.
Definition Qltb (a b : Q) : bool := negb (Qle_bool b a).

(** Truthiness of an optional float: [None] and [0.0] are falsy. *)
Definition truthy (x : option Q) : bool :=
  match x with
  | None => false
  | Some q => negb (Qeq_bool q 0)
  end.

(** Truthiness of an optional string: [None] and [''] are falsy. *)
Definition truthy_str (x : option string) : bool :=
  match x with
  | None => false
  | Some s => negb (String.eqb s EmptyString)
  end.

(** [x or 0] on an optional float. *)
Definition or_zero (x : option Q) : Q :=
  match x with
  | Some q => if Qeq_bool q 0 then 0 else q
  | None => 0
  end.

(** [sum(...)] over floats: starts from [0] and adds from the left. *)
Definition py_sum (l : list Q) : Q := fold_left Qplus l 0.

(** [sum(...)] over values that may be [None]: adding [None] is a
    [TypeError]. *)
Fixpoint py_sum_opt_from (acc : Q) (l : list (option Q)) : res Q :=
  match l with
  | [] => Ok acc
  | Some x :: l' => py_sum_opt_from (acc + x) l'
  | None :: _ => Raise TypeError
  end.

Definition py_sum_opt (l : list (option Q)) : res Q := py_sum_opt_from 0 l.

(** [len(l)] as a float divisor. *)
Definition len {A} (l : list A) : Q := inject_Z (Z.of_nat (List.length l)).

(* ================================================================== *)
(** ** config/settings.py *)

Definition SHARP_BOOKS : list string := ["pinnacle"; "betfair"]%string.
Definition SOFT_BOOKS : list string :=
  ["draftkings"; "fanduel"; "bet365"; "betmgm"]%string.
Definition ALL_BOOKS : list string := SHARP_BOOKS ++ SOFT_BOOKS.

Definition MIN_EDGE_PERCENT : Q := 5.
Definition MIN_PROBABILITY : Q := 35 # 100.
Definition KELLY_FRACTION : Q := 25 # 100.
Definition DEFAULT_BANKROLL : Q := 1000.
Definition MAX_BET_PERCENT : Q := 5 # 100.

(** [x in books] *)
Definition in_books (x : string) (books : list string) : bool :=
  existsb (String.eqb x) books.

(* ================================================================== *)
(** ** MarketAnalyzer: vig *)

Record VigData : Type := {
  total_probability : Q;
  vig : Q;
  vig_percent : Q
}.

Definition calculate_vig (home_prob away_prob : Q) (draw_prob : option Q)
  : res VigData :=
  let total_prob := home_prob + away_prob + or_zero draw_prob in
  let vig := total_prob - 1 in
  vig_percent <-
    (if Qltb 0 total_prob
     then (d <- py_div vig total_prob ;; Ok (d * 100))
     else Ok 0) ;;
  Ok {| total_probability := total_prob;
        vig := vig;
        vig_percent := vig_percent |}.

Record FairProbs : Type := {
  fair_home : Q;
  fair_away : Q;
  fair_draw : option Q;
  vig_removed : Q
}.

Definition remove_vig (home_prob away_prob : Q) (draw_prob : option Q)
  : res FairProbs :=
  vig_data <- calculate_vig home_prob away_prob draw_prob ;;
  if Qeq_bool (vig vig_data) 0 then
    Ok {| fair_home := home_prob;
          fair_away := away_prob;
          fair_draw := draw_prob;
          vig_removed := 0 |}
  else
    fh <- py_div home_prob (1 + vig vig_data) ;;
    fa <- py_div away_prob (1 + vig vig_data) ;;
    fd <- match draw_prob with
          | Some d =>
              if Qeq_bool d 0 then Ok None
              else (x <- py_div d (1 + vig vig_data) ;; Ok (Some x))
          | None => Ok None
          end ;;
    Ok {| fair_home := fh;
          fair_away := fa;
          fair_draw := fd;
          vig_removed := vig_percent vig_data |}.

(* ================================================================== *)
(** ** ValueFinder.calculate_kelly_bet *)

Definition calculate_kelly_bet (win_prob odds bankroll kelly_fraction : Q)
  : res Q :=
  let b := odds - 1 in
  let q := 1 - win_prob in
  if Qleb b 0 || Qleb odds 1 then Ok 0
  else
    full_kelly <- py_div (b * win_prob - q) b ;;
    let kelly_pct := py_max 0 (full_kelly * kelly_fraction) in
    let bet_size := bankroll * kelly_pct in
    Ok (py_max 0 (py_min bet_size (bankroll * MAX_BET_PERCENT))).

(** The full-Kelly fraction [(b*p - q) / b] with [b = odds - 1]. *)
Definition full_kelly (win_prob odds : Q) : Q :=
  ((odds - 1) * win_prob - (1 - win_prob)) / (odds - 1).

(* ================================================================== *)
(** ** models/database.py

    Each table is a list of rows in insertion order.  Columns that the
    ingestion, consensus and value-finding code neither writes nor reads
    (scores, created_at, updated_at, identified_at) are left out. *)

Module Game.
Record t : Type := mk {
  id : Z;
  odds_api_id : string;
  league : string;
  home_team : string;
  away_team : string;
  commence_time : Z;
  result : option string
}.
End Game.

Module OddsSnapshot.
Record t : Type := mk {
  id : Z;
  game_id : Z;
  bookmaker : string;
  home_odds : Q;
  away_odds : Q;
  draw_odds : option Q;
  home_implied_prob : Q;
  away_implied_prob : Q;
  draw_implied_prob : option Q;
  snapshot_time : Z
}.
End OddsSnapshot.

Module ValueBet.
Record t : Type := mk {
  game_id : Z;
  home_team : string;
  away_team : string;
  betting_selection : string;
  my_probability : Q;
  market_probability : Q;
  offered_odds : Q;
  fair_odds : Q;
  edge_percent : Q;
  bookmaker : string;
  kelly_fraction : Q;
  recommended_stake : Q;
  is_bet_placed : bool;
  result : option string
}.
End ValueBet.

Record Store : Type := {
  games : list Game.t;
  odds_snapshots : list OddsSnapshot.t;
  value_bets : list ValueBet.t
}.

(** Integer primary key of the next row: one more than the largest key in
    the table. *)
Definition next_id (ids : list Z) : Z := 1 + fold_right Z.max 0%Z ids.

(** [order_by(desc(snapshot_time))]: insertion sort, rows with equal times
    keep their table order. *)
Fixpoint insert_desc (x : OddsSnapshot.t) (l : list OddsSnapshot.t)
  : list OddsSnapshot.t :=
  match l with
  | [] => [x]
  | y :: l' =>
      if (OddsSnapshot.snapshot_time x <? OddsSnapshot.snapshot_time y)%Z
      then y :: insert_desc x l'
      else x :: y :: l'
  end.

Definition order_by_desc_time (l : list OddsSnapshot.t) : list OddsSnapshot.t :=
  fold_right insert_desc [] l.

(* ================================================================== *)
(** ** MarketAnalyzer: consensus and discrepancies *)

Definition get_latest_snapshot_for_game (st : Store) (game_id : Z)
  : list OddsSnapshot.t :=
  order_by_desc_time
    (filter (fun s => (OddsSnapshot.game_id s =? game_id)%Z)
            (odds_snapshots st)).

Record Consensus : Type := {
  home_probability : Q;
  away_probability : Q;
  draw_probability : option Q;
  source_count : nat;
  consensus_type : string
}.

Definition is_sharp (s : OddsSnapshot.t) : bool :=
  in_books (OddsSnapshot.bookmaker s) ["pinnacle"; "betfair"]%string.

Definition is_soft (s : OddsSnapshot.t) : bool :=
  in_books (OddsSnapshot.bookmaker s)
           ["draftkings"; "fanduel"; "bet365"; "betmgm"]%string.

(** The averaging part of [get_market_consensus], on the snapshots that
    survived the filter. *)
Definition average_snapshots (snapshots : list OddsSnapshot.t)
           (use_sharp_only : bool) : res (option Consensus) :=
  match snapshots with
  | [] => Ok None
  | s0 :: _ =>
      avg_home_prob <-
        py_div (py_sum (map OddsSnapshot.home_implied_prob snapshots))
               (len snapshots) ;;
      avg_away_prob <-
        py_div (py_sum (map OddsSnapshot.away_implied_prob snapshots))
               (len snapshots) ;;
      avg_draw_prob <-
        match OddsSnapshot.draw_implied_prob s0 with
        | None => Ok None
        | Some _ =>
            total <- py_sum_opt (map OddsSnapshot.draw_implied_prob snapshots) ;;
            d <- py_div total (len snapshots) ;;
            Ok (Some d)
        end ;;
      Ok (Some {| home_probability := avg_home_prob;
                  away_probability := avg_away_prob;
                  draw_probability := avg_draw_prob;
                  source_count := List.length snapshots;
                  consensus_type :=
                    if use_sharp_only then "sharp"%string else "all"%string |})
  end.

Definition get_market_consensus (st : Store) (game_id : Z)
           (use_sharp_only : bool) : res (option Consensus) :=
  let snapshots := get_latest_snapshot_for_game st game_id in
  match snapshots with
  | [] => Ok None
  | _ :: _ =>
      let snapshots :=
        if use_sharp_only then filter is_sharp snapshots else snapshots in
      average_snapshots snapshots use_sharp_only
  end.

Module Disc.
Record t : Type := mk {
  bookmaker : string;
  selection : string;
  offered_odds : Q;
  fair_odds : Q;
  edge_percent : Q;
  implied_prob_soft : Q;
  implied_prob_consensus : Q
}.
End Disc.

(** One iteration of the loop over the soft snapshots: the home side, then
    the away side; [discrepancies] is the list built so far. *)
Definition check_snapshot (consensus : Consensus) (min_edge_percent : Q)
           (discrepancies : list Disc.t) (snap : OddsSnapshot.t)
  : res (list Disc.t) :=
  home_fair_odds <- py_div 1 (home_probability consensus) ;;
  home_ratio <- py_div (OddsSnapshot.home_odds snap) home_fair_odds ;;
  let home_edge := (home_ratio - 1) * 100 in
  let discrepancies :=
    if Qgeb home_edge min_edge_percent
    then discrepancies ++
         [Disc.mk (OddsSnapshot.bookmaker snap) "Home"
                  (OddsSnapshot.home_odds snap) home_fair_odds home_edge
                  (OddsSnapshot.home_implied_prob snap)
                  (home_probability consensus)]
    else discrepancies in
  away_fair_odds <- py_div 1 (away_probability consensus) ;;
  away_ratio <- py_div (OddsSnapshot.away_odds snap) away_fair_odds ;;
  let away_edge := (away_ratio - 1) * 100 in
  if Qgeb away_edge min_edge_percent
  then Ok (discrepancies ++
           [Disc.mk (OddsSnapshot.bookmaker snap) "Away"
                    (OddsSnapshot.away_odds snap) away_fair_odds away_edge
                    (OddsSnapshot.away_implied_prob snap)
                    (away_probability consensus)])
  else Ok discrepancies.

Fixpoint check_snapshots (consensus : Consensus) (min_edge_percent : Q)
         (discrepancies : list Disc.t) (soft_snapshots : list OddsSnapshot.t)
  : res (list Disc.t) :=
  match soft_snapshots with
  | [] => Ok discrepancies
  | snap :: rest =>
      discrepancies <-
        check_snapshot consensus min_edge_percent discrepancies snap ;;
      check_snapshots consensus min_edge_percent discrepancies rest
  end.

Definition identify_soft_book_discrepancies (st : Store) (game_id : Z)
           (min_edge_percent : Q) : res (list Disc.t) :=
  let snapshots := get_latest_snapshot_for_game st game_id in
  consensus <- get_market_consensus st game_id true ;;
  match consensus with
  | None => Ok []
  | Some consensus =>
      let soft_snapshots := filter is_soft snapshots in
      check_snapshots consensus min_edge_percent [] soft_snapshots
  end.

(* ================================================================== *)
(** ** ValueFinder.find_value_bets *)

(** The loop over the discrepancies of one game; [value_bets] is the batch
    built so far (the rows added to the session and the returned list hold
    the same objects in the same order). *)
Fixpoint record_discrepancies (game : Game.t) (consensus : Consensus)
         (min_probability : Q) (value_bets : list ValueBet.t)
         (discrepancies : list Disc.t) : res (list ValueBet.t) :=
  match discrepancies with
  | [] => Ok value_bets
  | disc :: rest =>
      let my_prob :=
        if String.eqb (Disc.selection disc) "Home"
        then home_probability consensus
        else away_probability consensus in
      if Qltb my_prob min_probability
      then record_discrepancies game consensus min_probability value_bets rest
      else
        kelly_bet <-
          calculate_kelly_bet my_prob (Disc.offered_odds disc)
                              DEFAULT_BANKROLL KELLY_FRACTION ;;
        let value_bet :=
          ValueBet.mk (Game.id game) (Game.home_team game)
                      (Game.away_team game) (Disc.selection disc) my_prob
                      (Disc.implied_prob_consensus disc)
                      (Disc.offered_odds disc) (Disc.fair_odds disc)
                      (Disc.edge_percent disc) (Disc.bookmaker disc)
                      KELLY_FRACTION kelly_bet false None in
        record_discrepancies game consensus min_probability
                             (value_bets ++ [value_bet]) rest
  end.

Fixpoint scan_games (st : Store) (min_edge_percent min_probability : Q)
         (value_bets : list ValueBet.t) (games : list Game.t)
  : res (list ValueBet.t) :=
  match games with
  | [] => Ok value_bets
  | game :: rest =>
      consensus <- get_market_consensus st (Game.id game) true ;;
      match consensus with
      | None => scan_games st min_edge_percent min_probability value_bets rest
      | Some consensus =>
          discrepancies <-
            identify_soft_book_discrepancies st (Game.id game)
                                             min_edge_percent ;;
          value_bets <-
            record_discrepancies game consensus min_probability value_bets
                                 discrepancies ;;
          scan_games st min_edge_percent min_probability value_bets rest
      end
  end.

(** [utcnow] is the reading of the clock at the query.  The rows are
    committed once, after the loop; an exception leaves the store as it
    was. *)
Definition find_value_bets (st : Store) (utcnow : Z)
           (min_edge_percent min_probability : Q)
  : res (Store * list ValueBet.t) :=
  let upcoming :=
    filter (fun g =>
              match Game.result g with None => true | Some _ => false end
              && (utcnow <? Game.commence_time g)%Z)
           (games st) in
  found <- scan_games st min_edge_percent min_probability [] upcoming ;;
  Ok ({| games := games st;
         odds_snapshots := odds_snapshots st;
         value_bets := value_bets st ++ found |},
      found).

(* ================================================================== *)
(** ** OddsFetcher.ingest_odds *)

(** The feed: the list of event objects returned by [get_upcoming_odds]
    (the empty list when the request or its decoding fails).  A missing
    key or a JSON null is [None]; a missing list is the empty list.  The
    value under ['price'] is whatever the JSON holds: a number, or a
    non-empty string, array or object, which is truthy and on which
    [1.0 / price] raises [TypeError]. *)
Module Feed.
Inductive Price : Type :=
| Number (q : Q)
| NonNumber.

Record Outcome : Type := {
  name : string;
  price : option Price
}.

Record Market : Type := {
  outcomes : list Outcome
}.

Record Bookmaker : Type := {
  key : option string;
  markets : list Market
}.

Record Event : Type := {
  id : option string;
  home_team : option string;
  away_team : option string;
  commence_time : option string;
  bookmakers : list Bookmaker
}.
End Feed.

(** [{o.get('name'): o.get('price') for o in outcomes}.get(k)]: the price
    of the last outcome named [k]. *)
Definition outcome_map_get (outcomes : list Feed.Outcome) (k : string)
  : option Feed.Price :=
  fold_left
    (fun found o => if String.eqb (Feed.name o) k then Feed.price o else found)
    outcomes None.

(** Truthiness of a price: [None] and the number [0] are falsy. *)
Definition truthy_price (x : option Feed.Price) : bool :=
  match x with
  | None => false
  | Some (Feed.Number q) => negb (Qeq_bool q 0)
  | Some Feed.NonNumber => true
  end.

(** The number a price holds, if it holds one. *)
Definition price_number (x : option Feed.Price) : option Q :=
  match x with
  | Some (Feed.Number q) => Some q
  | _ => None
  end.

(** [a / price]: a [TypeError] unless the price is a number. *)
Definition py_div_price (a : Q) (x : option Feed.Price) : res Q :=
  match x with
  | Some (Feed.Number q) => py_div a q
  | _ => Raise TypeError
  end.

(** [str.upper] on ASCII letters. *)
Definition upper_ascii (c : ascii) : ascii :=
  let n := nat_of_ascii c in
  if (97 <=? n)%nat && (n <=? 122)%nat then ascii_of_nat (n - 32) else c.

Fixpoint upper (s : string) : string :=
  match s with
  | EmptyString => EmptyString
  | String c s' => String (upper_ascii c) (upper s')
  end.

(** A snapshot added to the session and not flushed yet: its primary key
    and [snapshot_time] are filled in when it is written. *)
Record PendingSnapshot : Type := {
  p_game_id : Z;
  p_bookmaker : string;
  p_home_odds : Q;
  p_away_odds : Q;
  p_draw_odds : option Q;
  p_home_implied_prob : Q;
  p_away_implied_prob : Q;
  p_draw_implied_prob : option Q
}.

(** The body of the loop over the bookmaker blocks of one event:
    [Ok None] is [continue], [Ok (Some p)] is a snapshot added to the
    session.  The two divisions [1.0 / home_odds] and [1.0 / away_odds]
    come first and raise [TypeError] on a price that is not a number; the
    division for the draw is made only for a truthy draw price. *)
Definition snapshot_of_block (game : Game.t) (home_team away_team : string)
           (bookmaker_data : Feed.Bookmaker) : res (option PendingSnapshot) :=
  match Feed.key bookmaker_data with
  | None => Ok None
  | Some bookmaker_key =>
      if String.eqb bookmaker_key EmptyString then Ok None
      else if negb (in_books bookmaker_key ALL_BOOKS) then Ok None
      else
        match Feed.markets bookmaker_data with
        | [] => Ok None
        | market :: _ =>
            let outcomes := Feed.outcomes market in
            match outcomes with
            | [] => Ok None
            | _ :: _ =>
                let home_odds := outcome_map_get outcomes home_team in
                let away_odds := outcome_map_get outcomes away_team in
                let draw_odds := outcome_map_get outcomes "Draw" in
                if negb (truthy_price home_odds)
                   || negb (truthy_price away_odds)
                then Ok None
                else
                  match home_odds, away_odds with
                  | Some (Feed.Number h), Some (Feed.Number a) =>
                      home_prob <- py_div 1 h ;;
                      away_prob <- py_div 1 a ;;
                      draw_prob <-
                        (if truthy_price draw_odds
                         then (x <- py_div_price 1 draw_odds ;; Ok (Some x))
                         else Ok None) ;;
                      Ok (Some {| p_game_id := Game.id game;
                                  p_bookmaker := bookmaker_key;
                                  p_home_odds := h;
                                  p_away_odds := a;
                                  p_draw_odds := price_number draw_odds;
                                  p_home_implied_prob := home_prob;
                                  p_away_implied_prob := away_prob;
                                  p_draw_implied_prob := draw_prob |})
                  | _, _ =>
                      (* a truthy price that is not a number *)
                      Raise TypeError
                  end
            end
        end
  end.

(** The loop over the bookmaker blocks.  [ingested_count] is bumped as soon
    as a snapshot is added to the session, so the count reached so far
    survives an exception, while the snapshots added to the session are
    dropped by the rollback of the handler. *)
Fixpoint ingest_bookmakers (game : Game.t) (home_team away_team : string)
         (pending : list PendingSnapshot) (ingested_count : nat)
         (bookmakers : list Feed.Bookmaker)
  : nat * res (list PendingSnapshot) :=
  match bookmakers with
  | [] => (ingested_count, Ok pending)
  | bookmaker_data :: rest =>
      match snapshot_of_block game home_team away_team bookmaker_data with
      | Raise e => (ingested_count, Raise e)
      | Ok None =>
          ingest_bookmakers game home_team away_team pending ingested_count
                            rest
      | Ok (Some snapshot) =>
          ingest_bookmakers game home_team away_team (pending ++ [snapshot])
                            (S ingested_count) rest
      end
  end.

Section Ingestion.

(** [datetime.fromisoformat(s.replace('Z', '+00:00'))]; [None] when it
    raises [ValueError]. *)
Variable parse_commence_time : string -> option Z.

(** The clock: [utcnow k] is the default [snapshot_time] given to the
    snapshot row whose primary key is [k] when it is flushed. *)
Variable utcnow : Z -> Z.

(** Whether the storage refuses a second snapshot with the same game,
    bookmaker and [snapshot_time].  models/database.py declares no such
    constraint; the [IntegrityError] handler of [ingest_odds] is written
    for it. *)
Variable unique_snapshots : bool.

Definition same_snapshot_key (a b : OddsSnapshot.t) : bool :=
  (OddsSnapshot.game_id a =? OddsSnapshot.game_id b)%Z
  && String.eqb (OddsSnapshot.bookmaker a) (OddsSnapshot.bookmaker b)
  && (OddsSnapshot.snapshot_time a =? OddsSnapshot.snapshot_time b)%Z.

(** Writing the pending snapshots, in the order they were added. *)
Fixpoint flush_snapshots (rows : list OddsSnapshot.t)
         (pending : list PendingSnapshot) : res (list OddsSnapshot.t) :=
  match pending with
  | [] => Ok rows
  | p :: rest =>
      let k := next_id (map OddsSnapshot.id rows) in
      let row :=
        OddsSnapshot.mk k (p_game_id p) (p_bookmaker p) (p_home_odds p)
                        (p_away_odds p) (p_draw_odds p)
                        (p_home_implied_prob p) (p_away_implied_prob p)
                        (p_draw_implied_prob p) (utcnow k) in
      if unique_snapshots && existsb (same_snapshot_key row) rows
      then Raise IntegrityError
      else flush_snapshots (rows ++ [row]) rest
  end.

(** [db.commit()] after the bookmaker loop: all pending snapshots are
    written, or none. *)
Definition commit_snapshots (st : Store) (pending : list PendingSnapshot)
  : res Store :=
  rows <- flush_snapshots (odds_snapshots st) pending ;;
  Ok {| games := games st;
        odds_snapshots := rows;
        value_bets := value_bets st |}.

(** [db.add(game); db.commit(); db.refresh(game)]; [odds_api_id] is
    declared unique. *)
Definition add_game (st : Store) (event_id league home_team away_team : string)
           (commence_time : Z) : res (Store * Game.t) :=
  let game :=
    Game.mk (next_id (map Game.id (games st))) event_id league home_team
            away_team commence_time None in
  if existsb (fun g => String.eqb (Game.odds_api_id g) event_id) (games st)
  then Raise IntegrityError
  else Ok ({| games := games st ++ [game];
              odds_snapshots := odds_snapshots st;
              value_bets := value_bets st |},
           game).

(** [db.query(Game).filter_by(odds_api_id=event_id).first()] *)
Definition game_by_odds_api_id (st : Store) (event_id : string)
  : option Game.t :=
  find (fun g => String.eqb (Game.odds_api_id g) event_id) (games st).

(** The body of the loop over the events, with both handlers: whatever is
    raised, the session is rolled back (committed rows stay) and the loop
    goes on with the count reached so far. *)
Definition ingest_event (sport : string) (acc : Store * nat)
           (event : Feed.Event) : Store * nat :=
  let (st, ingested_count) := acc in
  match Feed.id event, Feed.home_team event, Feed.away_team event,
        Feed.commence_time event with
  | Some event_id, Some home_team, Some away_team, Some commence_time_str =>
      if negb (truthy_str (Feed.id event)
               && truthy_str (Feed.home_team event)
               && truthy_str (Feed.away_team event)
               && truthy_str (Feed.commence_time event))
      then (st, ingested_count)
      else
        match parse_commence_time commence_time_str with
        | None => (st, ingested_count)
        | Some commence_time =>
            let upserted :=
              match game_by_odds_api_id st event_id with
              | None =>
                  add_game st event_id (upper sport) home_team away_team
                           commence_time
              | Some existing => Ok (st, existing)
              end in
            match upserted with
            | Raise _ => (st, ingested_count)
            | Ok (st1, game) =>
                match Feed.bookmakers event with
                | [] => (st1, ingested_count)
                | _ :: _ =>
                    let (ingested_count', added) :=
                      ingest_bookmakers game home_team away_team []
                                        ingested_count
                                        (Feed.bookmakers event) in
                    match added with
                    | Raise _ => (st1, ingested_count')
                    | Ok pending =>
                        match commit_snapshots st1 pending with
                        | Raise _ => (st1, ingested_count')
                        | Ok st2 => (st2, ingested_count')
                        end
                    end
                end
            end
        end
  | _, _, _, _ => (st, ingested_count)
  end.

(** [events] is what [get_upcoming_odds(sport)] returned. *)
Definition ingest_odds (sport : string) (events : list Feed.Event)
           (st : Store) : Store * nat :=
  match events with
  | [] => (st, 0%nat)
  | _ :: _ => fold_left (ingest_event sport) events (st, 0%nat)
  end.

End Ingestion.

(* ================================================================== *)
(** ** scripts/backtester.py

    The bankroll of the [Backtester] object is passed in and out; when a
    division raises, the bankroll reached so far is what the object is
    left with.  The data frame handed to the report is the list of result
    rows. *)

Module BetRow.
Record t : Type := mk {
  game : string;
  selection : string;
  odds : Q;
  stake : Q;
  result : string;
  pnl : Q;
  bankroll : Q;
  edge_percent : Q
}.
End BetRow.

(** [order_by(Game.commence_time.asc())]: insertion sort, games with
    equal times keep their table order. *)
Fixpoint insert_asc (x : Game.t) (l : list Game.t) : list Game.t :=
  match l with
  | [] => [x]
  | y :: l' =>
      if (Game.commence_time y <? Game.commence_time x)%Z
      then y :: insert_asc x l'
      else x :: y :: l'
  end.

Definition order_by_commence_time (l : list Game.t) : list Game.t :=
  fold_right insert_asc [] l.

(** [start_date] and [end_date] are [None] when not given. *)
Definition get_historical_games (st : Store) (sport : string)
           (start_date end_date : option Z) : list Game.t :=
  let query :=
    filter (fun g =>
              String.eqb (Game.league g) sport
              && match Game.result g with Some _ => true | None => false end)
           (games st) in
  let query :=
    match start_date with
    | Some d => filter (fun g => (d <=? Game.commence_time g)%Z) query
    | None => query
    end in
  let query :=
    match end_date with
    | Some d => filter (fun g => (Game.commence_time g <=? d)%Z) query
    | None => query
    end in
  order_by_commence_time query.

(** [Backtester.calculate_kelly_bet], on the bankroll of the object. *)
Definition backtest_kelly_bet (bankroll win_prob odds kelly_fraction : Q)
  : res Q :=
  let b := odds - 1 in
  let q := 1 - win_prob in
  if Qleb b 0 || Qleb odds 1 then Ok 0
  else
    full_kelly <- py_div (b * win_prob - q) b ;;
    let kelly_pct := py_max 0 (full_kelly * kelly_fraction) in
    let bet_size := bankroll * kelly_pct in
    Ok (py_max 0 (py_min bet_size (bankroll * (5 # 100)))).

(** [game.result == code] *)
Definition result_is (game : Game.t) (code : string) : bool :=
  match Game.result game with
  | Some r => String.eqb r code
  | None => false
  end.

(** The bet placed on one side of a soft snapshot once its edge clears the
    threshold: the stake is sized on the current bankroll, the bankroll
    moves by the profit or the loss, and a row is appended. *)
Definition place_backtest_bet (game : Game.t) (selection win_code : string)
           (odds edge sharp_prob kelly_fraction : Q)
           (bankroll : Q) (results : list BetRow.t)
  : Q * res (list BetRow.t) :=
  match backtest_kelly_bet bankroll sharp_prob odds kelly_fraction with
  | Raise e => (bankroll, Raise e)
  | Ok kelly_bet =>
      let win :=
        if result_is game win_code then kelly_bet * (odds - 1) else - kelly_bet in
      let result_str :=
        if result_is game win_code then "WIN"%string else "LOSS"%string in
      let bankroll := bankroll + win in
      (bankroll,
       Ok (results ++
           [BetRow.mk (Game.home_team game ++ " vs " ++ Game.away_team game)
                      selection odds kelly_bet result_str win bankroll edge]))
  end.

(** One iteration of the loop over the soft snapshots of a game. *)
Definition backtest_snapshot (game : Game.t)
           (sharp_home_prob sharp_home_odds sharp_away_prob sharp_away_odds : Q)
           (min_edge_percent kelly_fraction : Q) (soft : OddsSnapshot.t)
           (bankroll : Q) (results : list BetRow.t)
  : Q * res (list BetRow.t) :=
  match py_div (OddsSnapshot.home_odds soft) sharp_home_odds with
  | Raise e => (bankroll, Raise e)
  | Ok home_ratio =>
      let home_edge := (home_ratio - 1) * 100 in
      let after_home :=
        if Qgeb home_edge min_edge_percent
        then place_backtest_bet game "Home" "H" (OddsSnapshot.home_odds soft)
                                home_edge sharp_home_prob kelly_fraction
                                bankroll results
        else (bankroll, Ok results) in
      match after_home with
      | (bankroll, Raise e) => (bankroll, Raise e)
      | (bankroll, Ok results) =>
          match py_div (OddsSnapshot.away_odds soft) sharp_away_odds with
          | Raise e => (bankroll, Raise e)
          | Ok away_ratio =>
              let away_edge := (away_ratio - 1) * 100 in
              if Qgeb away_edge min_edge_percent
              then place_backtest_bet game "Away" "A"
                                      (OddsSnapshot.away_odds soft) away_edge
                                      sharp_away_prob kelly_fraction
                                      bankroll results
              else (bankroll, Ok results)
          end
      end
  end.

Fixpoint backtest_snapshots (game : Game.t)
         (sharp_home_prob sharp_home_odds sharp_away_prob sharp_away_odds : Q)
         (min_edge_percent kelly_fraction : Q)
         (soft_snapshots : list OddsSnapshot.t)
         (bankroll : Q) (results : list BetRow.t)
  : Q * res (list BetRow.t) :=
  match soft_snapshots with
  | [] => (bankroll, Ok results)
  | soft :: rest =>
      match backtest_snapshot game sharp_home_prob sharp_home_odds
                              sharp_away_prob sharp_away_odds
                              min_edge_percent kelly_fraction soft
                              bankroll results with
      | (bankroll, Raise e) => (bankroll, Raise e)
      | (bankroll, Ok results) =>
          backtest_snapshots game sharp_home_prob sharp_home_odds
                             sharp_away_prob sharp_away_odds
                             min_edge_percent kelly_fraction rest
                             bankroll results
      end
  end.

(** The body of the loop over the games. *)
Definition backtest_game (st : Store) (min_edge_percent kelly_fraction : Q)
           (game : Game.t) (bankroll : Q) (results : list BetRow.t)
  : Q * res (list BetRow.t) :=
  let sharp_snapshots :=
    filter (fun s =>
              (OddsSnapshot.game_id s =? Game.id game)%Z
              && in_books (OddsSnapshot.bookmaker s)
                          ["pinnacle"; "betfair"]%string)
           (odds_snapshots st) in
  let soft_snapshots :=
    filter (fun s =>
              (OddsSnapshot.game_id s =? Game.id game)%Z
              && in_books (OddsSnapshot.bookmaker s)
                          ["draftkings"; "fanduel"; "bet365"]%string)
           (odds_snapshots st) in
  match sharp_snapshots, soft_snapshots with
  | [], _ => (bankroll, Ok results)
  | _, [] => (bankroll, Ok results)
  | _ :: _, _ :: _ =>
      match
        (sharp_home_prob <-
           py_div (py_sum (map OddsSnapshot.home_implied_prob sharp_snapshots))
                  (len sharp_snapshots) ;;
         sharp_away_prob <-
           py_div (py_sum (map OddsSnapshot.away_implied_prob sharp_snapshots))
                  (len sharp_snapshots) ;;
         sharp_home_odds <- py_div 1 sharp_home_prob ;;
         sharp_away_odds <- py_div 1 sharp_away_prob ;;
         Ok (sharp_home_prob, sharp_home_odds, sharp_away_prob, sharp_away_odds))
      with
      | Raise e => (bankroll, Raise e)
      | Ok (sharp_home_prob, sharp_home_odds, sharp_away_prob, sharp_away_odds) =>
          backtest_snapshots game sharp_home_prob sharp_home_odds
                             sharp_away_prob sharp_away_odds
                             min_edge_percent kelly_fraction soft_snapshots
                             bankroll results
      end
  end.

Fixpoint backtest_games (st : Store) (min_edge_percent kelly_fraction : Q)
         (games : list Game.t) (bankroll : Q) (results : list BetRow.t)
  : Q * res (list BetRow.t) :=
  match games with
  | [] => (bankroll, Ok results)
  | game :: rest =>
      match backtest_game st min_edge_percent kelly_fraction game
                          bankroll results with
      | (bankroll, Raise e) => (bankroll, Raise e)
      | (bankroll, Ok results) =>
          backtest_games st min_edge_percent kelly_fraction rest
                         bankroll results
      end
  end.

(** Returns the bankroll the object ends with and the list of results. *)
Definition simulate_strategy_soft_vs_sharp (st : Store) (bankroll : Q)
           (games : list Game.t) (min_edge_percent kelly_fraction : Q)
  : Q * res (list BetRow.t) :=
  backtest_games st min_edge_percent kelly_fraction games bankroll [].

Record BacktestReport : Type := {
  total_bets : nat;
  win_rate : Q;
  roi : Q;
  total_pnl : Q;
  final_bankroll : Q
}.

(** [results_df] is the list of rows; [bankroll] is the bankroll of the
    object.  [None] when the frame is empty.  The sums are exact here; in
    floats [total_pnl] and the difference between the final and the
    initial bankroll agree up to rounding only. *)
Definition generate_backtest_report (bankroll : Q) (results_df : list BetRow.t)
  : res (option BacktestReport) :=
  match results_df with
  | [] => Ok None
  | _ :: _ =>
      let total_bets := List.length results_df in
      let wins :=
        List.length
          (filter (fun r => String.eqb (BetRow.result r) "WIN") results_df) in
      ratio <- py_div (inject_Z (Z.of_nat wins)) (len results_df) ;;
      let win_rate := ratio * 100 in
      let total_staked := py_sum (map BetRow.stake results_df) in
      let total_pnl := py_sum (map BetRow.pnl results_df) in
      roi <- (if Qltb 0 total_staked
              then (r <- py_div total_pnl total_staked ;; Ok (r * 100))
              else Ok 0) ;;
      Ok (Some {| total_bets := total_bets;
                  win_rate := win_rate;
                  roi := roi;
                  total_pnl := total_pnl;
                  final_bankroll := bankroll |})
  end.

(* ================================================================== *)
(** ** Reference notions used by the statements *)

(** The sharp snapshots of a game, in table order. *)
Definition matching_sharp (st : Store) (game_id : Z) : list OddsSnapshot.t :=
  filter (fun s => (OddsSnapshot.game_id s =? game_id)%Z && is_sharp s)
         (odds_snapshots st).

(** Arithmetic mean. *)
Definition mean (l : list Q) : Q := py_sum l / len l.

Definition draw_or_zero (s : OddsSnapshot.t) : Q :=
  match OddsSnapshot.draw_implied_prob s with
  | Some d => d
  | None => 0
  end.

(** The de-vigged estimate in the words of the design note: the vig is the
    sum of the averaged outcome probabilities minus 1, and the fair
    probability of an outcome is its averaged probability divided by
    [1 + vig], or the averaged probability itself when the vig is zero. *)
Definition spec_fair_probability (avg_home avg_away : Q) (avg_draw : option Q)
           (p : Q) : Q :=
  let vig :=
    avg_home + avg_away + match avg_draw with Some d => d | None => 0 end - 1 in
  if Qeq_bool vig 0 then p else p / (1 + vig).

(** The consensus probability of the side a selection names: ['Home'] is
    the home side, anything else the away side, as in [find_value_bets]. *)
Definition selected_probability (c : Consensus) (selection : string) : Q :=
  if String.eqb selection "Home"
  then home_probability c
  else away_probability c.

(** A discrepancy whose fair odds and edge are the ones its offered odds
    and the consensus [c] give. *)
Definition disc_consistent (c : Consensus) (d : Disc.t) : Prop :=
  ~ selected_probability c (Disc.selection d) == 0
  /\ Disc.fair_odds d = 1 / selected_probability c (Disc.selection d)
  /\ Disc.edge_percent d = (Disc.offered_odds d / Disc.fair_odds d - 1) * 100.

(** The same for a value bet, against the consensus of its game in [st]. *)
Definition value_bet_consistent (st : Store) (vb : ValueBet.t) : Prop :=
  exists c,
    get_market_consensus st (ValueBet.game_id vb) true = Ok (Some c)
    /\ ValueBet.my_probability vb =
       selected_probability c (ValueBet.betting_selection vb)
    /\ ~ ValueBet.my_probability vb == 0
    /\ ValueBet.fair_odds vb = 1 / ValueBet.my_probability vb
    /\ ValueBet.edge_percent vb =
       (ValueBet.offered_odds vb / ValueBet.fair_odds vb - 1) * 100.

(** [s'] is the snapshot [s] with the offered odds of a soft book raised:
    same game, bookmaker and time, home and away odds at least as large;
    snapshots of other books are the same row. *)
Definition odds_raised (s s' : OddsSnapshot.t) : Prop :=
  OddsSnapshot.game_id s' = OddsSnapshot.game_id s
  /\ OddsSnapshot.bookmaker s' = OddsSnapshot.bookmaker s
  /\ OddsSnapshot.snapshot_time s' = OddsSnapshot.snapshot_time s
  /\ (is_soft s = false -> s' = s)
  /\ OddsSnapshot.home_odds s <= OddsSnapshot.home_odds s'
  /\ OddsSnapshot.away_odds s <= OddsSnapshot.away_odds s'.

(** The flagged (bookmaker, outcome) pair [d] is still flagged as [d'],
    against the same fair odds, with an edge at least as large. *)
Definition still_flagged (d d' : Disc.t) : Prop :=
  Disc.bookmaker d' = Disc.bookmaker d
  /\ Disc.selection d' = Disc.selection d
  /\ Disc.fair_odds d' = Disc.fair_odds d
  /\ Disc.offered_odds d <= Disc.offered_odds d'
  /\ Disc.edge_percent d <= Disc.edge_percent d'.

Definition all_still_flagged (ds ds' : list Disc.t) : Prop :=
  forall d, In d ds -> exists d', In d' ds' /\ still_flagged d d'.

(* ================================================================== *)
(** ** Sample data *)

Definition sample_snapshot (id game_id : Z) (bookmaker : string)
           (home_odds away_odds : Q) (draw_odds : option Q) (time : Z)
  : OddsSnapshot.t :=
  OddsSnapshot.mk id game_id bookmaker home_odds away_odds draw_odds
                  (1 / home_odds) (1 / away_odds)
                  (match draw_odds with Some d => Some (1 / d) | None => None end)
                  time.

Definition sample_game : Game.t :=
  Game.mk 1 "evt-1" "BASKETBALL_NBA" "Lakers" "Celtics" 1000 None.

(** One pinnacle quote with a margin: 5/3 and 2 (implied 3/5 and 1/2). *)
Definition store_with_vig : Store :=
  {| games := [sample_game];
     odds_snapshots := [sample_snapshot 1 1 "pinnacle" (5 # 3) 2 None 10];
     value_bets := [] |}.

(** Two pinnacle quotes; only the later one carries a draw price. *)
Definition store_draw_latest_only : Store :=
  {| games := [sample_game];
     odds_snapshots :=
       [sample_snapshot 1 1 "pinnacle" 2 4 None 10;
        sample_snapshot 2 1 "pinnacle" 2 4 (Some 4) 20];
     value_bets := [] |}.

(** Two pinnacle quotes; only the earlier one carries a draw price. *)
Definition store_draw_earlier_only : Store :=
  {| games := [sample_game];
     odds_snapshots :=
       [sample_snapshot 1 1 "pinnacle" 2 4 (Some 4) 10;
        sample_snapshot 2 1 "pinnacle" 2 4 None 20];
     value_bets := [] |}.

(** A game quoted by a soft book only. *)
Definition store_soft_only : Store :=
  {| games := [sample_game];
     odds_snapshots := [sample_snapshot 1 1 "draftkings" (9 # 5) 2 None 10];
     value_bets := [] |}.

(** Sharp consensus 3/5 and 2/5; draftkings offers 9/5 on the home side. *)
Definition store_with_edge : Store :=
  {| games := [sample_game];
     odds_snapshots :=
       [sample_snapshot 1 1 "pinnacle" (5 # 3) (5 # 2) None 10;
        sample_snapshot 2 1 "draftkings" (9 # 5) 2 None 20];
     value_bets := [] |}.

(** What the scan of [store_with_edge] records: the home side at
    draftkings, an edge of 8 percent and a stake of 25. *)
Definition sample_value_bet : ValueBet.t :=
  ValueBet.mk 1 "Lakers" "Celtics" "Home" (3 # 5) (3 # 5) (9 # 5) (5 # 3)
              (200 # 25) "draftkings" KELLY_FRACTION (1250000 # 50000)
              false None.

(** [store_with_edge] after draftkings raises its home price to 2. *)
Definition store_with_edge_raised : Store :=
  {| games := [sample_game];
     odds_snapshots :=
       [sample_snapshot 1 1 "pinnacle" (5 # 3) (5 # 2) None 10;
        sample_snapshot 2 1 "draftkings" 2 2 None 20];
     value_bets := [] |}.

(** The consensus of game 1 in both stores. *)
Definition sample_consensus : Consensus :=
  {| home_probability := 3 # 5;
     away_probability := 2 # 5;
     draw_probability := None;
     source_count := 1;
     consensus_type := "sharp" |}.

(** The price a bookmaker block quotes for a team: the one found in the
    first market of the block. *)
Definition block_price (bookmaker_data : Feed.Bookmaker) (team : string)
  : option Feed.Price :=
  match Feed.markets bookmaker_data with
  | [] => None
  | market :: _ => outcome_map_get (Feed.outcomes market) team
  end.

(** What holds of a snapshot row written by the ingestion: non-zero home
    and away odds, implied probabilities that are their reciprocals, and
    in (0, 1) when the odds exceed 1. *)
Definition stored_valid (s : OddsSnapshot.t) : Prop :=
  ~ OddsSnapshot.home_odds s == 0
  /\ ~ OddsSnapshot.away_odds s == 0
  /\ OddsSnapshot.home_implied_prob s = 1 / OddsSnapshot.home_odds s
  /\ OddsSnapshot.away_implied_prob s = 1 / OddsSnapshot.away_odds s
  /\ (1 < OddsSnapshot.home_odds s ->
      0 < OddsSnapshot.home_implied_prob s < 1)
  /\ (1 < OddsSnapshot.away_odds s ->
      0 < OddsSnapshot.away_implied_prob s < 1).

(** The same before the row is written. *)
Definition pending_valid (p : PendingSnapshot) : Prop :=
  ~ p_home_odds p == 0
  /\ ~ p_away_odds p == 0
  /\ p_home_implied_prob p = 1 / p_home_odds p
  /\ p_away_implied_prob p = 1 / p_away_odds p.

(** Sample feed data. *)
Definition sample_parse (s : string) : option Z := Some 1000%Z.

Definition sample_clock (k : Z) : Z := 0%Z.

Definition h2h_block (key home away : string) (home_price away_price : option Q)
  : Feed.Bookmaker :=
  {| Feed.key := Some key;
     Feed.markets :=
       [{| Feed.outcomes :=
             [{| Feed.name := home;
                 Feed.price := option_map Feed.Number home_price |};
              {| Feed.name := away;
                 Feed.price := option_map Feed.Number away_price |}] |}] |}.

Definition sample_event (id : string) (blocks : list Feed.Bookmaker)
  : Feed.Event :=
  {| Feed.id := Some id;
     Feed.home_team := Some "Lakers"%string;
     Feed.away_team := Some "Celtics"%string;
     Feed.commence_time := Some "2026-01-01T00:00:00Z"%string;
     Feed.bookmakers := blocks |}.

Definition empty_store : Store :=
  {| games := []; odds_snapshots := []; value_bets := [] |}.

(** A pinnacle block quoting -2 on the home side. *)
Definition feed_negative_price : list Feed.Event :=
  [sample_event "evt-1"
     [h2h_block "pinnacle" "Lakers" "Celtics" (Some (-2)) (Some 2)]].

(** An ordinary feed: one event, a sharp and a soft block, and a block
    with a zero home price. *)
Definition feed_plain : list Feed.Event :=
  [sample_event "evt-1"
     [h2h_block "pinnacle" "Lakers" "Celtics" (Some (5 # 3)) (Some (5 # 2));
      h2h_block "betfair" "Lakers" "Celtics" (Some 0) (Some 2);
      h2h_block "draftkings" "Lakers" "Celtics" (Some (9 # 5)) (Some 2)]].

(** Game 1 with a pinnacle snapshot taken at time 0. *)
Definition store_with_snapshot : Store :=
  {| games := [sample_game];
     odds_snapshots := [sample_snapshot 1 1 "pinnacle" 2 2 None 0];
     value_bets := [] |}.

(** The known event quoted again by pinnacle, then a new event. *)
Definition feed_repeat_then_new : list Feed.Event :=
  [sample_event "evt-1"
     [h2h_block "pinnacle" "Lakers" "Celtics" (Some 2) (Some 2)];
   sample_event "evt-2"
     [h2h_block "pinnacle" "Lakers" "Celtics" (Some 2) (Some 2)]].

Definition sample_game_2 : Game.t :=
  Game.mk 2 "evt-2" "BASKETBALL_NBA" "Lakers" "Celtics" 1000 None.

(* ================================================================== *)
(** ** Further reference notions *)

(** An optional probability in a sum: [None] counts for 0. *)
Definition opt_value (d : option Q) : Q :=
  match d with
  | Some x => x
  | None => 0
  end.

(** All the snapshots of a game, in table order. *)
Definition game_snapshots (st : Store) (game_id : Z) : list OddsSnapshot.t :=
  filter (fun s => (OddsSnapshot.game_id s =? game_id)%Z) (odds_snapshots st).

(** [a] is not older than [b]. *)
Definition newer_first (a b : OddsSnapshot.t) : Prop :=
  (OddsSnapshot.snapshot_time b <= OddsSnapshot.snapshot_time a)%Z.

(** The discrepancy [d] is the home or the away side of the snapshot
    [snap] against the consensus [c], with an edge of at least
    [min_edge_percent]. *)
Definition disc_from (c : Consensus) (min_edge_percent : Q)
           (snap : OddsSnapshot.t) (d : Disc.t) : Prop :=
  min_edge_percent <= Disc.edge_percent d
  /\ Disc.bookmaker d = OddsSnapshot.bookmaker snap
  /\ ((Disc.selection d = "Home"%string
       /\ Disc.offered_odds d = OddsSnapshot.home_odds snap
       /\ Disc.implied_prob_soft d = OddsSnapshot.home_implied_prob snap
       /\ Disc.implied_prob_consensus d = home_probability c)
      \/ (Disc.selection d = "Away"%string
          /\ Disc.offered_odds d = OddsSnapshot.away_odds snap
          /\ Disc.implied_prob_soft d = OddsSnapshot.away_implied_prob snap
          /\ Disc.implied_prob_consensus d = away_probability c)).

(** Two pinnacle quotes whose home probabilities cancel (odds 2 and -2),
    and a draftkings quote. *)
Definition store_zero_consensus : Store :=
  {| games := [sample_game];
     odds_snapshots :=
       [sample_snapshot 1 1 "pinnacle" 2 2 None 10;
        sample_snapshot 2 1 "pinnacle" (-2) 2 None 20;
        sample_snapshot 3 1 "draftkings" 2 2 None 30];
     value_bets := [] |}.

(** What the scan guarantees of a value bet it records, for the
    thresholds and the clock reading it was run with. *)
Definition value_bet_selected (st : Store) (utcnow : Z)
           (min_edge_percent min_probability : Q) (vb : ValueBet.t) : Prop :=
  (exists game,
      In game (games st)
      /\ Game.result game = None
      /\ (utcnow < Game.commence_time game)%Z
      /\ ValueBet.game_id vb = Game.id game
      /\ ValueBet.home_team vb = Game.home_team game
      /\ ValueBet.away_team vb = Game.away_team game)
  /\ (ValueBet.betting_selection vb = "Home"%string
      \/ ValueBet.betting_selection vb = "Away"%string)
  /\ min_probability <= ValueBet.my_probability vb
  /\ min_edge_percent <= ValueBet.edge_percent vb
  /\ In (ValueBet.bookmaker vb) SOFT_BOOKS
  /\ ValueBet.market_probability vb = ValueBet.my_probability vb
  /\ ValueBet.kelly_fraction vb = KELLY_FRACTION
  /\ ValueBet.is_bet_placed vb = false
  /\ ValueBet.result vb = None.

(** The stake of a value bet is the Kelly stake of its probability and
    odds on the default bankroll, within the cap. *)
Definition value_bet_staked (vb : ValueBet.t) : Prop :=
  calculate_kelly_bet (ValueBet.my_probability vb) (ValueBet.offered_odds vb)
                      DEFAULT_BANKROLL KELLY_FRACTION
  = Ok (ValueBet.recommended_stake vb)
  /\ 0 <= ValueBet.recommended_stake vb <= 50.

(** An event the ingestion does not skip: the four fields are there and
    not empty, and the start time parses. *)
Definition event_usable (parse_commence_time : string -> option Z)
           (event : Feed.Event) : bool :=
  truthy_str (Feed.id event)
  && truthy_str (Feed.home_team event)
  && truthy_str (Feed.away_team event)
  && truthy_str (Feed.commence_time event)
  && match Feed.commence_time event with
     | Some s =>
         match parse_commence_time s with
         | Some _ => true
         | None => false
         end
     | None => false
     end.

(** What holds of a snapshot row written by the ingestion into a store
    whose games are [gs], with the clock [utcnow]: its bookmaker is on
    the allow-list, it references a stored game, its time is the clock
    reading of its key, and its draw probability is the reciprocal of a
    non-zero draw price and absent otherwise. *)
Definition row_ingested (utcnow : Z -> Z) (gs : list Game.t)
           (s : OddsSnapshot.t) : Prop :=
  In (OddsSnapshot.bookmaker s) ALL_BOOKS
  /\ (exists g, In g gs /\ Game.id g = OddsSnapshot.game_id s)
  /\ OddsSnapshot.snapshot_time s = utcnow (OddsSnapshot.id s)
  /\ match OddsSnapshot.draw_odds s with
     | Some d =>
         if Qeq_bool d 0
         then OddsSnapshot.draw_implied_prob s = None
         else OddsSnapshot.draw_implied_prob s = Some (1 / d)
     | None => OddsSnapshot.draw_implied_prob s = None
     end.

(** The same before the row is written, for the game [game]. *)
Definition pending_ingested (game : Game.t) (p : PendingSnapshot) : Prop :=
  In (p_bookmaker p) ALL_BOOKS
  /\ p_game_id p = Game.id game
  /\ match p_draw_odds p with
     | Some d =>
         if Qeq_bool d 0
         then p_draw_implied_prob p = None
         else p_draw_implied_prob p = Some (1 / d)
     | None => p_draw_implied_prob p = None
     end.

(** The game an event is attached to: the stored game with its
    identifier, or a new game appended to the table. *)
Definition upserted (parse_commence_time : string -> option Z)
           (sport : string) (st : Store) (event : Feed.Event)
           (home_team away_team : string) (game : Game.t) (st1 : Store)
  : Prop :=
  exists event_id cts t,
    event_usable parse_commence_time event = true
    /\ Feed.id event = Some event_id
    /\ Feed.home_team event = Some home_team
    /\ Feed.away_team event = Some away_team
    /\ Feed.commence_time event = Some cts
    /\ parse_commence_time cts = Some t
    /\ Game.odds_api_id game = event_id
    /\ ((game_by_odds_api_id st event_id = Some game /\ st1 = st)
        \/ (game_by_odds_api_id st event_id = None
            /\ game = Game.mk (next_id (map Game.id (games st))) event_id
                              (upper sport) home_team away_team t None
            /\ st1 = {| games := games st ++ [game];
                        odds_snapshots := odds_snapshots st;
                        value_bets := value_bets st |})).

(** The ways one iteration of the event loop can end, from the store
    [st] and the count [n]. *)
Inductive event_outcome (parse_commence_time : string -> option Z)
          (utcnow : Z -> Z) (unique_snapshots : bool) (sport : string)
          (st : Store) (n : nat) (event : Feed.Event)
  : Store * nat -> Prop :=
| event_skipped :
    event_usable parse_commence_time event = false ->
    event_outcome parse_commence_time utcnow unique_snapshots sport st n event
                  (st, n)
| event_without_quotes home_team away_team game st1 :
    upserted parse_commence_time sport st event home_team away_team game st1 ->
    Feed.bookmakers event = [] ->
    event_outcome parse_commence_time utcnow unique_snapshots sport st n event
                  (st1, n)
| event_block_raised home_team away_team game st1 k e :
    upserted parse_commence_time sport st event home_team away_team game st1 ->
    ingest_bookmakers game home_team away_team [] n (Feed.bookmakers event)
    = ((n + k)%nat, Raise e) ->
    event_outcome parse_commence_time utcnow unique_snapshots sport st n event
                  (st1, (n + k)%nat)
| event_rolled_back home_team away_team game st1 pending e :
    upserted parse_commence_time sport st event home_team away_team game st1 ->
    ingest_bookmakers game home_team away_team [] n (Feed.bookmakers event)
    = ((n + List.length pending)%nat, Ok pending) ->
    commit_snapshots utcnow unique_snapshots st1 pending = Raise e ->
    event_outcome parse_commence_time utcnow unique_snapshots sport st n event
                  (st1, (n + List.length pending)%nat)
| event_committed home_team away_team game st1 pending st2 :
    upserted parse_commence_time sport st event home_team away_team game st1 ->
    ingest_bookmakers game home_team away_team [] n (Feed.bookmakers event)
    = ((n + List.length pending)%nat, Ok pending) ->
    commit_snapshots utcnow unique_snapshots st1 pending = Ok st2 ->
    event_outcome parse_commence_time utcnow unique_snapshots sport st n event
                  (st2, (n + List.length pending)%nat).

(** A game row created from an event of the feed [events]. *)
Definition game_from_feed (parse_commence_time : string -> option Z)
           (sport : string) (events : list Feed.Event) (g : Game.t) : Prop :=
  Game.league g = upper sport
  /\ Game.result g = None
  /\ exists event cts,
       In event events
       /\ event_usable parse_commence_time event = true
       /\ Feed.id event = Some (Game.odds_api_id g)
       /\ Feed.home_team event = Some (Game.home_team g)
       /\ Feed.away_team event = Some (Game.away_team g)
       /\ Feed.commence_time event = Some cts
       /\ parse_commence_time cts = Some (Game.commence_time g).

(** A backtest row settled from the bankroll [b]: a home or away bet whose
    edge cleared the threshold, won or lost, with the bankroll moved by
    its profit or loss. *)
Definition row_settled (min_edge_percent b : Q) (r : BetRow.t) : Prop :=
  (BetRow.selection r = "Home"%string \/ BetRow.selection r = "Away"%string)
  /\ min_edge_percent <= BetRow.edge_percent r
  /\ ((BetRow.result r = "WIN"%string
       /\ BetRow.pnl r = BetRow.stake r * (BetRow.odds r - 1))
      \/ (BetRow.result r = "LOSS"%string
          /\ BetRow.pnl r = - BetRow.stake r))
  /\ BetRow.bankroll r = b + BetRow.pnl r.

(** Consecutive rows: each is settled from the bankroll the previous one
    left. *)
Fixpoint bets_chain (min_edge_percent b : Q) (rows : list BetRow.t) : Prop :=
  match rows with
  | [] => True
  | r :: rest =>
      row_settled min_edge_percent b r
      /\ bets_chain min_edge_percent (BetRow.bankroll r) rest
  end.

(** The bankroll after the rows, from [b]. *)
Definition bankroll_after (b : Q) (rows : list BetRow.t) : Q :=
  last (map BetRow.bankroll rows) b.

(** The stake of a row is between 0 and 5 percent of the bankroll it was
    sized on, and the bankroll it leaves is positive. *)
Definition row_staked (r : BetRow.t) : Prop :=
  0 <= BetRow.stake r
  /\ BetRow.stake r <= (BetRow.bankroll r - BetRow.pnl r) * (5 # 100)
  /\ 0 < BetRow.bankroll r.

(** What a property [I] of the simulation state (bankroll, rows so far)
    gives of a result of the loops: the bankroll returned and the rows
    built satisfy it, and the rows are the list returned when there is
    one. *)
Definition state_kept (I : Q -> list BetRow.t -> Prop)
           (out : Q * res (list BetRow.t)) : Prop :=
  exists rows, I (fst out) rows
               /\ forall l, snd out = Ok l -> l = rows.

(** A settled game (home win) with a sharp and a soft quote, and what the
    simulation makes of it from a bankroll of 1000. *)
Definition sample_settled_game : Game.t :=
  Game.mk 1 "evt-1" "BASKETBALL_NBA" "Lakers" "Celtics" 1000 (Some "H"%string).

Definition store_backtest : Store :=
  {| games := [sample_settled_game];
     odds_snapshots :=
       [sample_snapshot 1 1 "pinnacle" (5 # 3) (5 # 2) None 10;
        sample_snapshot 2 1 "draftkings" (9 # 5) 2 None 20];
     value_bets := [] |}.

Definition sample_backtest_final : Q :=
  Eval vm_compute in
    fst (simulate_strategy_soft_vs_sharp store_backtest 1000
           [sample_settled_game] 5 (25 # 100)).

Definition sample_backtest_rows : list BetRow.t :=
  Eval vm_compute in
    match snd (simulate_strategy_soft_vs_sharp store_backtest 1000
                 [sample_settled_game] 5 (25 # 100)) with
    | Ok rows => rows
    | Raise _ => []
    end.

(** [a] does not start after [b]. *)
Definition earlier_first (a b : Game.t) : Prop :=
  (Game.commence_time a <= Game.commence_time b)%Z.

(* ================================================================== *)
(** ** scripts/health_check.py

    A [DateTime] counts microseconds, the resolution of Python's
    [datetime].  Each check that reads the clock is given the value that
    [datetime.utcnow()] returns to it. *)

(** [timedelta.total_seconds()] of a difference of two [DateTime]s. *)
Definition total_seconds (delta : Z) : Q := inject_Z delta / 1000000.

Definition check_data_freshness (st : Store) (now : Z) : bool :=
  match order_by_desc_time (odds_snapshots st) with
  | [] => false
  | latest_snapshot :: _ =>
      let age_minutes :=
        total_seconds (now - OddsSnapshot.snapshot_time latest_snapshot) / 60 in
      if Qltb 120 age_minutes then false else true
  end.

Definition check_game_count (st : Store) (now : Z) : bool :=
  let future_games :=
    List.length
      (filter (fun g => (now <? Game.commence_time g)%Z) (games st)) in
  (0 <? future_games)%nat.

(** [query(OddsSnapshot.bookmaker).distinct()]. *)
Definition distinct (l : list string) : list string := nodup string_dec l.

Definition check_bookmaker_coverage (st : Store) : bool :=
  let bookmaker_names :=
    distinct (map OddsSnapshot.bookmaker (odds_snapshots st)) in
  (3 <=? List.length bookmaker_names)%nat.

(** The three checks are all evaluated before any is looked at;
    [now_freshness] and [now_games] are the two readings of the clock. *)
Definition run_all_checks (st : Store) (now_freshness now_games : Z) : bool :=
  let checks :=
    [ ("Data Freshness"%string, check_data_freshness st now_freshness);
      ("Game Count"%string, check_game_count st now_games);
      ("Bookmaker Coverage"%string, check_bookmaker_coverage st) ] in
  forallb snd checks.

(* ================================================================== *)
(** ** services/bet_tracker.py

    The [bet_results] table is a list of rows in insertion order, passed
    in and out; [now] is the value of [datetime.utcnow()]. *)

Module BetResult.
Record t : Type := mk {
  id : Z;
  value_bet_id : Z;
  bookmaker : string;
  selection : string;
  odds_at_bet : Q;
  stake : Q;
  result : option string;
  pnl : option Q;
  closing_line_value : option Q;
  placed_at : Z;
  settled_at : option Z
}.
End BetResult.

(** Returns the table after the commit and the row that was added. *)
Definition record_bet (bet_results : list BetResult.t) (now : Z)
           (value_bet_id : Z) (bookmaker selection : string) (odds stake : Q)
  : list BetResult.t * BetResult.t :=
  let bet :=
    BetResult.mk (next_id (map BetResult.id bet_results))
                 value_bet_id bookmaker selection odds stake
                 None None None now None in
  (bet_results ++ [bet], bet).

(** The four assignments of [settle_bet] on a row. *)
Definition write_settlement (result : string) (pnl : Q) (clv : option Q)
           (now : Z) (bet : BetResult.t) : BetResult.t :=
  BetResult.mk (BetResult.id bet) (BetResult.value_bet_id bet)
               (BetResult.bookmaker bet) (BetResult.selection bet)
               (BetResult.odds_at_bet bet) (BetResult.stake bet)
               (Some result) (Some pnl) clv
               (BetResult.placed_at bet) (Some now).

(** The commit updates the row whose primary key is [bet_id].  When the
    division raises nothing has been assigned yet and the table is as it
    was. *)
Definition settle_bet (bet_results : list BetResult.t) (now : Z)
           (bet_id : Z) (result : string) (closing_odds : option Q)
  : list BetResult.t * res (option BetResult.t) :=
  match find (fun b => (BetResult.id b =? bet_id)%Z) bet_results with
  | None => (bet_results, Ok None)
  | Some bet =>
      let pnl :=
        if String.eqb result "WIN"
        then BetResult.stake bet * (BetResult.odds_at_bet bet - 1)
        else if String.eqb result "LOSS"
             then - BetResult.stake bet
             else 0 in
      let clv :=
        match closing_odds with
        | Some c =>
            if truthy (Some c)
            then (r <- py_div c (BetResult.odds_at_bet bet) ;;
                  Ok (Some ((r - 1) * 100)))
            else Ok None
        | None => Ok None
        end in
      match clv with
      | Raise e => (bet_results, Raise e)
      | Ok clv =>
          (map (fun b => if (BetResult.id b =? bet_id)%Z
                         then write_settlement result pnl clv now b
                         else b)
               bet_results,
           Ok (Some (write_settlement result pnl clv now bet)))
      end
  end.

Module Performance.
Record t : Type := mk {
  total_bets : nat;
  wins : nat;
  losses : nat;
  win_rate : Q;
  total_staked : Q;
  total_pnl : Q;
  roi : Q;
  avg_clv : Q
}.
End Performance.

(** The values of a column that are not missing; [Series.sum()] and
    [Series.mean()] skip the missing ones. *)
Definition present (l : list (option Q)) : list Q :=
  flat_map (fun x => match x with Some q => [q] | None => [] end) l.

Definition isna (x : option Q) : bool :=
  match x with Some _ => false | None => true end.

Definition result_eq (r : string) (b : BetResult.t) : bool :=
  match BetResult.result b with
  | Some s => String.eqb s r
  | None => false
  end.

Definition get_performance_report (bet_results : list BetResult.t)
  : res (option Performance.t) :=
  match bet_results with
  | [] => Ok None
  | _ :: _ =>
      let df := filter (fun b => truthy_str (BetResult.result b)) bet_results in
      match df with
      | [] => Ok None
      | _ :: _ =>
          let wins := List.length (filter (result_eq "WIN") df) in
          let losses := List.length (filter (result_eq "LOSS") df) in
          win_rate <- (if (0 <? List.length df)%nat
                       then (r <- py_div (inject_Z (Z.of_nat wins)) (len df) ;;
                             Ok (r * 100))
                       else Ok 0) ;;
          let total_staked := py_sum (map BetResult.stake df) in
          let total_pnl := py_sum (present (map BetResult.pnl df)) in
          roi <- (if Qltb 0 total_staked
                  then (r <- py_div total_pnl total_staked ;; Ok (r * 100))
                  else Ok 0) ;;
          let clv := map BetResult.closing_line_value df in
          avg_clv <- (if negb (forallb isna clv)
                      then py_div (py_sum (present clv)) (len (present clv))
                      else Ok 0) ;;
          Ok (Some (Performance.mk (List.length df) wins losses win_rate
                                   total_staked total_pnl roi avg_clv))
      end
  end.

(* ================================================================== *)
(** ** Reference notions for the health checks and the bet tracker *)

(** Two hours, in microseconds. *)
Definition two_hours : Z := 7200000000.

(** The snapshot was taken at most two hours before [now]. *)
Definition fresh_at (now : Z) (s : OddsSnapshot.t) : Prop :=
  (now - OddsSnapshot.snapshot_time s <= two_hours)%Z.

Definition covers (st : Store) (b : string) : Prop :=
  In b (map OddsSnapshot.bookmaker (odds_snapshots st)).

(** The profit or loss that [settle_bet] books for a result. *)
Definition settled_pnl (result : string) (odds stake : Q) : Q :=
  if String.eqb result "WIN" then stake * (odds - 1)
  else if String.eqb result "LOSS" then - stake
  else 0.

(** The rows that enter the performance report. *)
Definition settled_rows (bet_results : list BetResult.t) : list BetResult.t :=
  filter (fun b => truthy_str (BetResult.result b)) bet_results.

(** Everything of a row but its settlement. *)
Definition same_bet (a b : BetResult.t) : Prop :=
  BetResult.id a = BetResult.id b
  /\ BetResult.value_bet_id a = BetResult.value_bet_id b
  /\ BetResult.bookmaker a = BetResult.bookmaker b
  /\ BetResult.selection a = BetResult.selection b
  /\ BetResult.odds_at_bet a = BetResult.odds_at_bet b
  /\ BetResult.stake a = BetResult.stake b
  /\ BetResult.placed_at a = BetResult.placed_at b.

Definition sample_bet_1 : BetResult.t :=
  BetResult.mk 1 10 "draftkings" "Home" 2 50 None None None 100 None.

Definition sample_bet_2 : BetResult.t :=
  BetResult.mk 2 11 "fanduel" "Away" (5 # 2) 20
               (Some "LOSS"%string) (Some (- (20))) None 100 (Some 200%Z).

Definition sample_bet_zero_odds : BetResult.t :=
  BetResult.mk 3 12 "fanduel" "Away" 0 20 None None None 100 None.

Definition sample_bets : list BetResult.t :=
  [sample_bet_1; sample_bet_2; sample_bet_zero_odds].

(** The closing line value that [settle_bet] books: none unless a
    non-zero closing price is given. *)
Definition closing_value (closing_odds : option Q) (odds : Q) : option Q :=
  match closing_odds with
  | Some c => if Qeq_bool c 0 then None else Some ((c / odds - 1) * 100)
  | None => None
  end.

(** Prices that are absent or numbers: no division on them is ill-typed. *)
Definition price_numeric (x : option Feed.Price) : bool :=
  match x with
  | Some Feed.NonNumber => false
  | _ => true
  end.

Definition block_numeric (bookmaker_data : Feed.Bookmaker) : bool :=
  forallb (fun market =>
             forallb (fun o => price_numeric (Feed.price o))
                     (Feed.outcomes market))
          (Feed.markets bookmaker_data).

Definition event_numeric (event : Feed.Event) : bool :=
  forallb block_numeric (Feed.bookmakers event).

(** The snapshot row [s] stores the quote [p]. *)
Definition row_stores (p : PendingSnapshot) (s : OddsSnapshot.t) : Prop :=
  OddsSnapshot.game_id s = p_game_id p
  /\ OddsSnapshot.bookmaker s = p_bookmaker p
  /\ OddsSnapshot.home_odds s = p_home_odds p
  /\ OddsSnapshot.away_odds s = p_away_odds p
  /\ OddsSnapshot.draw_odds s = p_draw_odds p
  /\ OddsSnapshot.home_implied_prob s = p_home_implied_prob p
  /\ OddsSnapshot.away_implied_prob s = p_away_implied_prob p
  /\ OddsSnapshot.draw_implied_prob s = p_draw_implied_prob p.

(** A draftkings block whose home price is a string. *)
Definition block_text_price : Feed.Bookmaker :=
  {| Feed.key := Some "draftkings"%string;
     Feed.markets :=
       [{| Feed.outcomes :=
             [{| Feed.name := "Lakers"; Feed.price := Some Feed.NonNumber |};
              {| Feed.name := "Celtics";
                 Feed.price := Some (Feed.Number 2) |}] |}] |}.

(** A first event quoted by pinnacle and then by the block with the
    string price, and a second event quoted by pinnacle. *)
Definition feed_text_price : list Feed.Event :=
  [sample_event "evt-1"
     [h2h_block "pinnacle" "Lakers" "Celtics" (Some 2) (Some 2);
      block_text_price];
   sample_event "evt-2"
     [h2h_block "pinnacle" "Lakers" "Celtics" (Some 2) (Some 2)]].

(** The empty store after [feed_text_price] is ingested at clock 0: both
    games are there, and the pinnacle snapshot of the second game only. *)
Definition store_after_text_price : Store :=
  {| games := [sample_game; sample_game_2];
     odds_snapshots := [sample_snapshot 1 2 "pinnacle" 2 2 None 0];
     value_bets := [] |}.

(** The known event quoted twice, by pinnacle and then by draftkings. *)
Definition feed_known : list Feed.Event :=
  [sample_event "evt-1"
     [h2h_block "pinnacle" "Lakers" "Celtics" (Some 2) (Some 2)];
   sample_event "evt-1"
     [h2h_block "draftkings" "Lakers" "Celtics" (Some (9 # 5)) (Some 2)]].

(** [store_with_snapshot] after [feed_known] is ingested at clock 0. *)
Definition store_after_known : Store :=
  {| games := [sample_game];
     odds_snapshots :=
       [sample_snapshot 1 1 "pinnacle" 2 2 None 0;
        sample_snapshot 2 1 "pinnacle" 2 2 None 0;
        sample_snapshot 3 1 "draftkings" (9 # 5) 2 None 0];
     value_bets := [] |}.

(** [store_with_snapshot] after [feed_repeat_then_new] is ingested at
    clock 0. *)
Definition store_after_requote : Store :=
  {| games := [sample_game; sample_game_2];
     odds_snapshots :=
       [sample_snapshot 1 1 "pinnacle" 2 2 None 0;
        sample_snapshot 2 1 "pinnacle" 2 2 None 0;
        sample_snapshot 3 2 "pinnacle" 2 2 None 0];
     value_bets := [] |}.

(** A pinnacle quote of -2 on the home side (the ingestion stores such a
    price), and a draftkings quote of -3 that is then raised to -2. *)
Definition store_negative_consensus : Store :=
  {| games := [sample_game];
     odds_snapshots :=
       [sample_snapshot 1 1 "pinnacle" (-2) 2 None 10;
        sample_snapshot 2 1 "draftkings" (-3) 2 None 20];
     value_bets := [] |}.

Definition store_negative_consensus_raised : Store :=
  {| games := [sample_game];
     odds_snapshots :=
       [sample_snapshot 1 1 "pinnacle" (-2) 2 None 10;
        sample_snapshot 2 1 "draftkings" (-2) 2 None 20];
     value_bets := [] |}.

(* ================================================================== *)
(** * Properties *)

(** ** Tests on rationals *)

Lemma Qleb_true (a b : Q) : Qleb a b = true <-> a <= b.
Proof. unfold Qleb. apply Qle_bool_iff. Qed.

Lemma Qleb_false (a b : Q) : Qleb a b = false <-> b < a.
Proof.
  unfold Qleb. split; intro H.
  - apply Qnot_le_lt. intro Hle. apply Qle_bool_iff in Hle. congruence.
  - destruct (Qle_bool a b) eqn:E; [|reflexivity].
    apply Qle_bool_iff in E. exfalso. apply (Qlt_not_le _ _ H E).
Qed.

Lemma Qgeb_true (a b : Q) : Qgeb a b = true <-> b <= a.
Proof. unfold Qgeb. apply Qle_bool_iff. Qed.

Lemma Qltb_true (a b : Q) : Qltb a b = true <-> a < b.
Proof.
  unfold Qltb. rewrite negb_true_iff. apply (Qleb_false b a).
Qed.

Lemma Qltb_false (a b : Q) : Qltb a b = false <-> b <= a.
Proof.
  unfold Qltb. rewrite negb_false_iff. apply Qle_bool_iff.
Qed.

Lemma Qeq_bool_false (a b : Q) : Qeq_bool a b = false <-> ~ a == b.
Proof.
  split; intro H.
  - intro E. apply Qeq_bool_iff in E. congruence.
  - destruct (Qeq_bool a b) eqn:E; [|reflexivity].
    apply Qeq_bool_iff in E. contradiction.
Qed.

Lemma py_div_ok (a b : Q) : ~ b == 0 -> py_div a b = Ok (a / b).
Proof.
  intro H. unfold py_div. apply Qeq_bool_false in H. now rewrite H.
Qed.

Lemma py_div_zero (a b : Q) : b == 0 -> py_div a b = Raise ZeroDivisionError.
Proof.
  intro H. unfold py_div. apply Qeq_bool_iff in H. now rewrite H.
Qed.

Lemma py_max_0_nonneg (x : Q) : 0 <= py_max 0 x.
Proof.
  unfold py_max. destruct (Qlt_le_dec 0 x); [apply Qlt_le_weak; assumption|].
  apply Qle_refl.
Qed.

Lemma py_max_0_nonpos (x : Q) : x <= 0 -> py_max 0 x = 0.
Proof.
  intro H. unfold py_max. destruct (Qlt_le_dec 0 x) as [Hlt|_]; [|reflexivity].
  exfalso. apply (Qlt_not_le _ _ Hlt H).
Qed.

Lemma py_max_0_le (x c : Q) : 0 <= c -> x <= c -> py_max 0 x <= c.
Proof.
  intros Hc Hx. unfold py_max. destruct (Qlt_le_dec 0 x); assumption.
Qed.

Lemma py_min_le_r (a b : Q) : py_min a b <= b.
Proof.
  unfold py_min. destruct (Qlt_le_dec b a); [apply Qle_refl | assumption].
Qed.

Lemma py_min_le_l (a b : Q) : py_min a b <= a.
Proof.
  unfold py_min. destruct (Qlt_le_dec b a);
    [apply Qlt_le_weak; assumption | apply Qle_refl].
Qed.

(** ** Stake sizing *)

Lemma kelly_no_gain (p odds bankroll kf : Q) :
  odds <= 1 -> calculate_kelly_bet p odds bankroll kf = Ok 0.
Proof.
  intro H. unfold calculate_kelly_bet.
  assert (E : Qleb odds 1 = true) by (apply Qleb_true; assumption).
  rewrite E, orb_true_r. reflexivity.
Qed.

Lemma kelly_gain (p odds bankroll kf : Q) :
  1 < odds ->
  calculate_kelly_bet p odds bankroll kf =
  Ok (py_max 0 (py_min (bankroll * py_max 0 (full_kelly p odds * kf))
                       (bankroll * MAX_BET_PERCENT))).
Proof.
  intro H. unfold calculate_kelly_bet.
  assert (E1 : Qleb (odds - 1) 0 = false) by (apply Qleb_false; lra).
  assert (E2 : Qleb odds 1 = false) by (apply Qleb_false; assumption).
  rewrite E1, E2. cbn [orb].
  rewrite py_div_ok by lra. reflexivity.
Qed.

(** C5: on probabilities in [0, 1], non-negative bankroll and non-negative
    Kelly fraction, [calculate_kelly_bet] returns (it does not raise) a
    stake between 0 and [bankroll * MAX_BET_PERCENT], and the stake is 0
    whenever the odds are at most 1 or the full-Kelly fraction is
    negative. *)
Theorem calculate_kelly_bet_bounded (win_prob odds bankroll kelly_fraction : Q) :
  0 <= win_prob <= 1 -> 0 <= bankroll -> 0 <= kelly_fraction ->
  exists stake,
    calculate_kelly_bet win_prob odds bankroll kelly_fraction = Ok stake
    /\ 0 <= stake <= bankroll * MAX_BET_PERCENT
    /\ (odds <= 1 \/ full_kelly win_prob odds < 0 -> stake = 0).
Proof.
  intros Hp Hb Hk.
  assert (Hcap : 0 <= bankroll * MAX_BET_PERCENT).
  { apply Qmult_le_0_compat; [assumption | unfold MAX_BET_PERCENT; lra]. }
  destruct (Qlt_le_dec 1 odds) as [Hgain | Hno].
  - rewrite (kelly_gain _ _ _ _ Hgain). eexists. split; [reflexivity|].
    split; [split|].
    + apply py_max_0_nonneg.
    + apply py_max_0_le; [assumption | apply py_min_le_r].
    + intros [Hle | Hneg]; [exfalso; lra|].
      assert (Hpct : py_max 0 (full_kelly win_prob odds * kelly_fraction) = 0).
      { apply py_max_0_nonpos.
        setoid_replace 0 with (0 * kelly_fraction) by ring.
        apply Qmult_le_compat_r; [apply Qlt_le_weak|]; assumption. }
      rewrite Hpct. apply py_max_0_nonpos.
      eapply Qle_trans; [apply py_min_le_l|]. lra.
  - rewrite (kelly_no_gain _ _ _ _ Hno). exists 0. split; [reflexivity|].
    split; [split; [lra | assumption] | reflexivity].
Qed.

Lemma calculate_kelly_bet_bounded_witness :
  exists stake,
    calculate_kelly_bet (6 # 10) (18 # 10) 1000 (25 # 100) = Ok stake
    /\ 0 <= stake <= 1000 * MAX_BET_PERCENT
    /\ (18 # 10 <= 1 \/ full_kelly (6 # 10) (18 # 10) < 0 -> stake = 0).
Proof.
  apply (calculate_kelly_bet_bounded (6 # 10) (18 # 10) 1000 (25 # 100)).
  - split; [vm_compute; discriminate | vm_compute; discriminate].
  - vm_compute; discriminate.
  - vm_compute; discriminate.
Defined.

(** ** Vig removal *)

Lemma or_zero_value (d : option Q) :
  or_zero d == match d with Some x => x | None => 0 end.
Proof.
  destruct d as [x|]; simpl; [|reflexivity].
  destruct (Qeq_bool x 0) eqn:E; [|reflexivity].
  apply Qeq_bool_iff in E. symmetry. exact E.
Qed.

(** C9: on a probability triple (home, away, optional draw) that sums to
    exactly 1, [remove_vig] returns the same probabilities and reports a
    removed vig of 0. *)
Theorem remove_vig_fair_identity (home_prob away_prob : Q) (draw_prob : option Q) :
  home_prob + away_prob + match draw_prob with Some x => x | None => 0 end == 1 ->
  remove_vig home_prob away_prob draw_prob =
  Ok {| fair_home := home_prob;
        fair_away := away_prob;
        fair_draw := draw_prob;
        vig_removed := 0 |}.
Proof.
  intro Hsum. rewrite <- or_zero_value in Hsum.
  unfold remove_vig, calculate_vig.
  assert (Hpos : Qltb 0 (home_prob + away_prob + or_zero draw_prob) = true).
  { apply Qltb_true. rewrite Hsum. reflexivity. }
  rewrite Hpos. rewrite py_div_ok by (rewrite Hsum; discriminate).
  cbn [bind vig].
  assert (Hvig : Qeq_bool (home_prob + away_prob + or_zero draw_prob - 1) 0 = true).
  { apply Qeq_bool_iff. rewrite Hsum. reflexivity. }
  rewrite Hvig. reflexivity.
Qed.

Lemma remove_vig_fair_identity_witness :
  remove_vig (1 # 2) (3 # 10) (Some (1 # 5)) =
  Ok {| fair_home := 1 # 2;
        fair_away := 3 # 10;
        fair_draw := Some (1 # 5);
        vig_removed := 0 |}.
Proof.
  apply (remove_vig_fair_identity (1 # 2) (3 # 10) (Some (1 # 5))).
  reflexivity.
Defined.

(** ** Sorting and filtering the snapshots *)

Lemma in_insert_desc (x y : OddsSnapshot.t) (l : list OddsSnapshot.t) :
  In y (insert_desc x l) <-> y = x \/ In y l.
Proof.
  induction l as [|z l IH]; simpl.
  - intuition.
  - destruct (OddsSnapshot.snapshot_time x <? OddsSnapshot.snapshot_time z)%Z;
      simpl; [rewrite IH|]; intuition.
Qed.

Lemma in_order_by_desc_time (y : OddsSnapshot.t) (l : list OddsSnapshot.t) :
  In y (order_by_desc_time l) <-> In y l.
Proof.
  induction l as [|x l IH]; simpl; [tauto|].
  rewrite in_insert_desc, IH. intuition.
Qed.

Lemma filter_nil_iff {A} (f : A -> bool) (l : list A) :
  filter f l = [] <-> forall x, In x l -> f x = false.
Proof.
  induction l as [|a l IH]; simpl.
  - split; [intros _ x [] | reflexivity].
  - destruct (f a) eqn:E; split.
    + discriminate.
    + intro H. specialize (H a (or_introl eq_refl)). congruence.
    + intros H x [<- | Hx]; [assumption | apply IH; assumption].
    + intro H. apply IH. intros x Hx. apply H. right. assumption.
Qed.

Lemma in_get_latest (st : Store) (game_id : Z) (s : OddsSnapshot.t) :
  In s (get_latest_snapshot_for_game st game_id) <->
  In s (odds_snapshots st) /\ OddsSnapshot.game_id s = game_id.
Proof.
  unfold get_latest_snapshot_for_game.
  rewrite in_order_by_desc_time, filter_In, Z.eqb_eq. tauto.
Qed.

(** ** Absent consensus *)

(** C6: for a game with no sharp-bookmaker snapshot in storage,
    [get_market_consensus] returns [None] (it neither raises nor returns a
    record of zero probabilities) and [identify_soft_book_discrepancies]
    returns the empty list. *)
Theorem no_sharp_snapshots_no_data (st : Store) (game_id : Z)
        (min_edge_percent : Q) :
  (forall s, In s (odds_snapshots st) ->
             OddsSnapshot.game_id s = game_id -> is_sharp s = false) ->
  get_market_consensus st game_id true = Ok None
  /\ identify_soft_book_discrepancies st game_id min_edge_percent = Ok [].
Proof.
  intro Hnone.
  assert (E : get_market_consensus st game_id true = Ok None).
  { unfold get_market_consensus.
    destruct (get_latest_snapshot_for_game st game_id) as [|s0 l] eqn:El;
      [reflexivity|].
    assert (F : filter is_sharp (s0 :: l) = []).
    { apply filter_nil_iff. intros x Hx. rewrite <- El in Hx.
      apply in_get_latest in Hx. destruct Hx as [Hin Hg].
      apply Hnone; assumption. }
    rewrite F. reflexivity. }
  split; [exact E|].
  unfold identify_soft_book_discrepancies. rewrite E. reflexivity.
Qed.

Lemma no_sharp_snapshots_no_data_witness :
  get_market_consensus store_soft_only 1 true = Ok None
  /\ identify_soft_book_discrepancies store_soft_only 1 5 = Ok [].
Proof.
  apply (no_sharp_snapshots_no_data store_soft_only 1 5).
  intros s [<- | []] _. reflexivity.
Defined.

(** ** Sums and means *)

Lemma fold_left_Qplus_from (l : list Q) (a : Q) :
  fold_left Qplus l a == a + fold_left Qplus l 0.
Proof.
  revert a. induction l as [|x l IH]; intro a; simpl.
  - ring.
  - rewrite (IH (a + x)), (IH (0 + x)). ring.
Qed.

Lemma py_sum_cons (x : Q) (l : list Q) : py_sum (x :: l) == x + py_sum l.
Proof.
  unfold py_sum. simpl. rewrite fold_left_Qplus_from. ring.
Qed.

Lemma py_sum_perm (l l' : list Q) : Permutation l l' -> py_sum l == py_sum l'.
Proof.
  induction 1 as [|x l l' _ IH|x y l|l l' l'' _ IH1 _ IH2].
  - reflexivity.
  - rewrite !py_sum_cons, IH. reflexivity.
  - rewrite !py_sum_cons. ring.
  - rewrite IH1. exact IH2.
Qed.

Lemma len_perm {A} (l l' : list A) : Permutation l l' -> len l = len l'.
Proof.
  intro H. unfold len. now rewrite (Permutation_length H).
Qed.

Lemma len_map {A B} (f : A -> B) (l : list A) : len (map f l) = len l.
Proof. unfold len. now rewrite length_map. Qed.

Lemma len_nonzero {A} (l : list A) : l <> [] -> ~ len l == 0.
Proof.
  intros Hne E. destruct l as [|a l]; [congruence|].
  unfold len, Qeq in E. simpl in E. lia.
Qed.

Lemma mean_perm (l l' : list Q) : Permutation l l' -> mean l == mean l'.
Proof.
  intro H. unfold mean. rewrite (py_sum_perm _ _ H), (len_perm _ _ H). reflexivity.
Qed.

Lemma py_sum_opt_from_some (l : list OddsSnapshot.t) (acc : Q) :
  Forall (fun s => OddsSnapshot.draw_implied_prob s <> None) l ->
  py_sum_opt_from acc (map OddsSnapshot.draw_implied_prob l) =
  Ok (fold_left Qplus (map draw_or_zero l) acc).
Proof.
  intro H. revert acc. induction H as [|s l Hs _ IH]; intro acc; simpl.
  - reflexivity.
  - replace (draw_or_zero s)
      with (match OddsSnapshot.draw_implied_prob s with
            | Some d => d | None => 0 end) by reflexivity.
    destruct (OddsSnapshot.draw_implied_prob s) as [d|]; [apply IH | congruence].
Qed.

(** ** Permutations of the snapshot lists *)

Lemma insert_desc_perm (x : OddsSnapshot.t) (l : list OddsSnapshot.t) :
  Permutation (insert_desc x l) (x :: l).
Proof.
  induction l as [|y l IH]; simpl; [reflexivity|].
  destruct (OddsSnapshot.snapshot_time x <? OddsSnapshot.snapshot_time y)%Z.
  - rewrite IH. apply perm_swap.
  - reflexivity.
Qed.

Lemma order_by_desc_time_perm (l : list OddsSnapshot.t) :
  Permutation (order_by_desc_time l) l.
Proof.
  induction l as [|x l IH]; simpl; [reflexivity|].
  rewrite insert_desc_perm. now constructor.
Qed.

Lemma filter_perm {A} (f : A -> bool) (l l' : list A) :
  Permutation l l' -> Permutation (filter f l) (filter f l').
Proof.
  induction 1 as [|x l l' _ IH|x y l|l l' l'' _ IH1 _ IH2]; simpl.
  - reflexivity.
  - destruct (f x); [constructor|]; assumption.
  - destruct (f x), (f y); try reflexivity. apply perm_swap.
  - now rewrite IH1.
Qed.

Lemma filter_filter {A} (f g : A -> bool) (l : list A) :
  filter g (filter f l) = filter (fun x => f x && g x) l.
Proof.
  induction l as [|x l IH]; simpl; [reflexivity|].
  destruct (f x); simpl; [destruct (g x)|]; now rewrite IH.
Qed.

Lemma sharp_latest_perm (st : Store) (game_id : Z) :
  Permutation (filter is_sharp (get_latest_snapshot_for_game st game_id))
              (matching_sharp st game_id).
Proof.
  unfold get_latest_snapshot_for_game, matching_sharp.
  rewrite <- filter_filter. apply filter_perm, order_by_desc_time_perm.
Qed.

(** ** Consensus *)

Lemma average_snapshots_uniform (l : list OddsSnapshot.t) :
  l <> [] ->
  Forall (fun s => OddsSnapshot.draw_implied_prob s = None) l
  \/ Forall (fun s => OddsSnapshot.draw_implied_prob s <> None) l ->
  exists c,
    average_snapshots l true = Ok (Some c)
    /\ home_probability c = mean (map OddsSnapshot.home_implied_prob l)
    /\ away_probability c = mean (map OddsSnapshot.away_implied_prob l)
    /\ match draw_probability c with
       | Some d =>
           Forall (fun s => OddsSnapshot.draw_implied_prob s <> None) l
           /\ d = mean (map draw_or_zero l)
       | None => Forall (fun s => OddsSnapshot.draw_implied_prob s = None) l
       end
    /\ source_count c = List.length l.
Proof.
  intros Hne Hdraw.
  assert (Hlen : ~ len l == 0) by (apply len_nonzero; assumption).
  destruct l as [|s0 l']; [congruence|].
  unfold average_snapshots.
  rewrite !py_div_ok by assumption. cbn [bind].
  destruct Hdraw as [Hnone | Hsome].
  - assert (E0 : OddsSnapshot.draw_implied_prob s0 = None)
      by (inversion Hnone; assumption).
    rewrite E0. cbn [bind]. eexists. split; [reflexivity|].
    cbn [home_probability away_probability draw_probability source_count].
    unfold mean. rewrite !len_map.
    split; [reflexivity|]. split; [reflexivity|]. split; [exact Hnone|].
    reflexivity.
  - assert (E0 : OddsSnapshot.draw_implied_prob s0 <> None)
      by (inversion Hsome; assumption).
    destruct (OddsSnapshot.draw_implied_prob s0) as [d0|] eqn:Ed; [|congruence].
    unfold py_sum_opt. rewrite (py_sum_opt_from_some _ 0 Hsome). cbn [bind].
    rewrite py_div_ok by assumption. cbn [bind].
    eexists. split; [reflexivity|].
    cbn [home_probability away_probability draw_probability source_count].
    unfold mean. rewrite !len_map.
    split; [reflexivity|]. split; [reflexivity|].
    split; [split; [exact Hsome | reflexivity]|]. reflexivity.
Qed.

(** C1 (amended): for a game with at least one sharp-bookmaker snapshot,
    all of them carrying a draw price or none of them, the probability
    [get_market_consensus] returns for an outcome is the arithmetic mean of
    that outcome's implied probability over the game's sharp snapshots;
    no vig is removed. *)
Theorem consensus_is_raw_mean (st : Store) (game_id : Z) :
  matching_sharp st game_id <> [] ->
  Forall (fun s => OddsSnapshot.draw_implied_prob s = None)
         (matching_sharp st game_id)
  \/ Forall (fun s => OddsSnapshot.draw_implied_prob s <> None)
            (matching_sharp st game_id) ->
  exists c,
    get_market_consensus st game_id true = Ok (Some c)
    /\ home_probability c ==
       mean (map OddsSnapshot.home_implied_prob (matching_sharp st game_id))
    /\ away_probability c ==
       mean (map OddsSnapshot.away_implied_prob (matching_sharp st game_id))
    /\ match draw_probability c with
       | Some d =>
           Forall (fun s => OddsSnapshot.draw_implied_prob s <> None)
                  (matching_sharp st game_id)
           /\ d == mean (map draw_or_zero (matching_sharp st game_id))
       | None =>
           Forall (fun s => OddsSnapshot.draw_implied_prob s = None)
                  (matching_sharp st game_id)
       end
    /\ source_count c = List.length (matching_sharp st game_id).
Proof.
  intros Hne Hdraw.
  pose proof (sharp_latest_perm st game_id) as Hperm.
  set (ms := matching_sharp st game_id) in *.
  set (sharp := filter is_sharp (get_latest_snapshot_for_game st game_id)) in *.
  assert (Hne' : sharp <> []).
  { intro E. rewrite E in Hperm. apply Permutation_nil in Hperm. congruence. }
  assert (Hdraw' :
            Forall (fun s => OddsSnapshot.draw_implied_prob s = None) sharp
            \/ Forall (fun s => OddsSnapshot.draw_implied_prob s <> None) sharp).
  { destruct Hdraw as [H | H]; [left | right];
      apply (Permutation_Forall (Permutation_sym Hperm) H). }
  destruct (average_snapshots_uniform sharp Hne' Hdraw')
    as (c & Hc & Hh & Ha & Hd & Hn).
  exists c. split.
  - unfold get_market_consensus.
    destruct (get_latest_snapshot_for_game st game_id) as [|s0 l] eqn:El.
    + exfalso. apply Hne'. reflexivity.
    + exact Hc.
  - split; [|split; [|split]].
    + rewrite Hh. apply mean_perm, Permutation_map, Hperm.
    + rewrite Ha. apply mean_perm, Permutation_map, Hperm.
    + destruct (draw_probability c) as [d|].
      * destruct Hd as [Hall Hd]. split.
        -- apply (Permutation_Forall Hperm Hall).
        -- rewrite Hd. apply mean_perm, Permutation_map, Hperm.
      * apply (Permutation_Forall Hperm Hd).
    + rewrite Hn. apply Permutation_length, Hperm.
Qed.

Lemma consensus_is_raw_mean_witness :
  exists c,
    get_market_consensus store_with_vig 1 true = Ok (Some c)
    /\ home_probability c ==
       mean (map OddsSnapshot.home_implied_prob (matching_sharp store_with_vig 1))
    /\ away_probability c ==
       mean (map OddsSnapshot.away_implied_prob (matching_sharp store_with_vig 1))
    /\ match draw_probability c with
       | Some d =>
           Forall (fun s => OddsSnapshot.draw_implied_prob s <> None)
                  (matching_sharp store_with_vig 1)
           /\ d == mean (map draw_or_zero (matching_sharp store_with_vig 1))
       | None =>
           Forall (fun s => OddsSnapshot.draw_implied_prob s = None)
                  (matching_sharp store_with_vig 1)
       end
    /\ source_count c = List.length (matching_sharp store_with_vig 1).
Proof.
  apply (consensus_is_raw_mean store_with_vig 1).
  - vm_compute. discriminate.
  - left. vm_compute. repeat constructor.
Defined.

(** C1 as stated fails: with a single pinnacle quote of 5/3 and 2 the
    averaged probabilities are 3/5 and 1/2, the vig is 1/10 and the
    de-vigged home probability would be 6/11; the consensus returned for
    the home side is 3/5. *)
Lemma consensus_not_devigged :
  exists c,
    get_market_consensus store_with_vig 1 true = Ok (Some c)
    /\ mean (map OddsSnapshot.home_implied_prob
                 (matching_sharp store_with_vig 1)) == 3 # 5
    /\ spec_fair_probability
         (mean (map OddsSnapshot.home_implied_prob
                    (matching_sharp store_with_vig 1)))
         (mean (map OddsSnapshot.away_implied_prob
                    (matching_sharp store_with_vig 1)))
         None
         (mean (map OddsSnapshot.home_implied_prob
                    (matching_sharp store_with_vig 1))) == 6 # 11
    /\ home_probability c == 3 # 5
    /\ ~ home_probability c ==
         spec_fair_probability
           (mean (map OddsSnapshot.home_implied_prob
                      (matching_sharp store_with_vig 1)))
           (mean (map OddsSnapshot.away_implied_prob
                      (matching_sharp store_with_vig 1)))
           None
           (mean (map OddsSnapshot.home_implied_prob
                      (matching_sharp store_with_vig 1))).
Proof.
  eexists. split; [vm_compute; reflexivity|].
  split; [vm_compute; reflexivity|].
  split; [vm_compute; reflexivity|].
  split; [vm_compute; reflexivity|].
  intro H. vm_compute in H. discriminate.
Qed.

(** C4 fails on a mixture.  When only the latest sharp snapshot carries a
    draw price, the sum over the draw probabilities meets [None] and
    [get_market_consensus] raises [TypeError]; when only an earlier one
    carries a draw price, the draw probability is absent although a sharp
    snapshot has one. *)
Theorem consensus_draw_mixture :
  get_market_consensus store_draw_latest_only 1 true = Raise TypeError
  /\ (exists c,
        get_market_consensus store_draw_earlier_only 1 true = Ok (Some c)
        /\ draw_probability c = None
        /\ Exists (fun s => OddsSnapshot.draw_implied_prob s <> None)
                  (matching_sharp store_draw_earlier_only 1)).
Proof.
  split; [vm_compute; reflexivity|].
  eexists. split; [vm_compute; reflexivity|].
  split; [reflexivity|].
  apply Exists_cons_hd. vm_compute. discriminate.
Qed.

(** ** Value bets *)

Lemma py_div_inv (a b x : Q) : py_div a b = Ok x -> x = a / b /\ ~ b == 0.
Proof.
  unfold py_div. destruct (Qeq_bool b 0) eqn:E; [discriminate|].
  intro H. injection H as <-. split; [reflexivity|].
  apply Qeq_bool_false. exact E.
Qed.

Lemma bind_inv {A B} (r : res A) (k : A -> res B) (b : B) :
  bind r k = Ok b -> exists a, r = Ok a /\ k a = Ok b.
Proof.
  destruct r as [a|e]; simpl; [|discriminate]. intro H. now exists a.
Qed.

Lemma check_snapshot_consistent (c : Consensus) (min_edge : Q)
      (acc ds : list Disc.t) (snap : OddsSnapshot.t) :
  check_snapshot c min_edge acc snap = Ok ds ->
  Forall (disc_consistent c) acc -> Forall (disc_consistent c) ds.
Proof.
  unfold check_snapshot. intros H Hacc.
  apply bind_inv in H. destruct H as (hf & Hhf & H).
  apply bind_inv in H. destruct H as (hr & Hhr & H).
  apply bind_inv in H. destruct H as (af & Haf & H).
  apply bind_inv in H. destruct H as (ar & Har & H).
  apply py_div_inv in Hhf, Hhr, Haf, Har.
  destruct Hhf as [-> Hh0], Hhr as [-> _], Haf as [-> Ha0], Har as [-> _].
  assert (Hhome : forall l, Forall (disc_consistent c) l ->
            Forall (disc_consistent c)
              (l ++ [Disc.mk (OddsSnapshot.bookmaker snap) "Home"
                       (OddsSnapshot.home_odds snap) (1 / home_probability c)
                       ((OddsSnapshot.home_odds snap / (1 / home_probability c) - 1) * 100)
                       (OddsSnapshot.home_implied_prob snap)
                       (home_probability c)])).
  { intros l Hl. apply Forall_app. split; [exact Hl|].
    constructor; [|constructor].
    unfold disc_consistent, selected_probability. simpl.
    split; [exact Hh0|]. split; reflexivity. }
  assert (Haway : forall l, Forall (disc_consistent c) l ->
            Forall (disc_consistent c)
              (l ++ [Disc.mk (OddsSnapshot.bookmaker snap) "Away"
                       (OddsSnapshot.away_odds snap) (1 / away_probability c)
                       ((OddsSnapshot.away_odds snap / (1 / away_probability c) - 1) * 100)
                       (OddsSnapshot.away_implied_prob snap)
                       (away_probability c)])).
  { intros l Hl. apply Forall_app. split; [exact Hl|].
    constructor; [|constructor].
    unfold disc_consistent, selected_probability. simpl.
    split; [exact Ha0|]. split; reflexivity. }
  destruct (Qgeb _ min_edge) in H;
    destruct (Qgeb _ min_edge) in H; injection H as <-; auto.
Qed.

Lemma check_snapshots_consistent (c : Consensus) (min_edge : Q)
      (soft : list OddsSnapshot.t) :
  forall acc ds,
    check_snapshots c min_edge acc soft = Ok ds ->
    Forall (disc_consistent c) acc -> Forall (disc_consistent c) ds.
Proof.
  induction soft as [|snap rest IH]; intros acc ds H Hacc; simpl in H.
  - injection H as <-. exact Hacc.
  - apply bind_inv in H. destruct H as (acc' & H1 & H2).
    apply (IH acc' ds H2).
    apply (check_snapshot_consistent c min_edge acc acc' snap H1 Hacc).
Qed.

Lemma identify_consistent (st : Store) (game_id : Z) (min_edge : Q)
      (c : Consensus) (ds : list Disc.t) :
  get_market_consensus st game_id true = Ok (Some c) ->
  identify_soft_book_discrepancies st game_id min_edge = Ok ds ->
  Forall (disc_consistent c) ds.
Proof.
  intros Hc H. unfold identify_soft_book_discrepancies in H.
  rewrite Hc in H. cbn [bind] in H.
  apply (check_snapshots_consistent c min_edge _ [] ds H). constructor.
Qed.

Lemma record_discrepancies_consistent (st : Store) (game : Game.t)
      (c : Consensus) (min_probability : Q) (discs : list Disc.t) :
  get_market_consensus st (Game.id game) true = Ok (Some c) ->
  Forall (disc_consistent c) discs ->
  forall acc vbs,
    record_discrepancies game c min_probability acc discs = Ok vbs ->
    Forall (value_bet_consistent st) acc ->
    Forall (value_bet_consistent st) vbs.
Proof.
  intros Hc Hds. induction Hds as [|d rest Hd _ IH]; intros acc vbs H Hacc.
  - simpl in H. injection H as <-. exact Hacc.
  - simpl in H.
    destruct (Qltb _ min_probability) in H; [apply (IH acc vbs H Hacc)|].
    apply bind_inv in H. destruct H as (kelly_bet & _ & H).
    apply (IH _ vbs H). apply Forall_app. split; [exact Hacc|].
    constructor; [|constructor].
    destruct Hd as (Hp & Hf & He).
    exists c. cbn. split; [exact Hc|]. split; [reflexivity|].
    split; [exact Hp|]. split; [exact Hf | exact He].
Qed.

Lemma scan_games_consistent (st : Store) (min_edge min_probability : Q)
      (gs : list Game.t) :
  forall acc vbs,
    scan_games st min_edge min_probability acc gs = Ok vbs ->
    Forall (value_bet_consistent st) acc ->
    Forall (value_bet_consistent st) vbs.
Proof.
  induction gs as [|game rest IH]; intros acc vbs H Hacc; simpl in H.
  - injection H as <-. exact Hacc.
  - apply bind_inv in H. destruct H as (oc & Hc & H).
    destruct oc as [c|]; [|apply (IH acc vbs H Hacc)].
    apply bind_inv in H. destruct H as (ds & Hds & H).
    apply bind_inv in H. destruct H as (acc' & Hrec & H).
    apply (IH acc' vbs H).
    apply (record_discrepancies_consistent st game c min_probability ds Hc
             (identify_consistent st (Game.id game) min_edge c ds Hc Hds)
             acc acc' Hrec Hacc).
Qed.

(** C7: every ValueBet row that [find_value_bets] creates has
    [my_probability] equal to the consensus probability of its selected
    side, [fair_odds] equal to [1 / my_probability] and [edge_percent]
    equal to [(offered_odds / fair_odds - 1) * 100]; the rows created are
    the ones returned. *)
Theorem find_value_bets_consistent (st : Store) (utcnow : Z)
        (min_edge_percent min_probability : Q)
        (st' : Store) (bets : list ValueBet.t) :
  find_value_bets st utcnow min_edge_percent min_probability = Ok (st', bets) ->
  value_bets st' = value_bets st ++ bets
  /\ forall vb, In vb bets ->
       exists c,
         get_market_consensus st (ValueBet.game_id vb) true = Ok (Some c)
         /\ ValueBet.my_probability vb =
            selected_probability c (ValueBet.betting_selection vb)
         /\ ~ ValueBet.my_probability vb == 0
         /\ ValueBet.fair_odds vb = 1 / ValueBet.my_probability vb
         /\ ValueBet.edge_percent vb =
            (ValueBet.offered_odds vb / ValueBet.fair_odds vb - 1) * 100.
Proof.
  unfold find_value_bets. intro H.
  apply bind_inv in H. destruct H as (found & Hscan & H).
  injection H as <- <-. split; [reflexivity|].
  intros vb Hin.
  pose proof (scan_games_consistent st min_edge_percent min_probability _
                [] found Hscan (Forall_nil _)) as Hall.
  rewrite Forall_forall in Hall. apply (Hall vb Hin).
Qed.

Lemma find_value_bets_consistent_witness :
  value_bets {| games := games store_with_edge;
                odds_snapshots := odds_snapshots store_with_edge;
                value_bets := [sample_value_bet] |} =
  value_bets store_with_edge ++ [sample_value_bet]
  /\ forall vb, In vb [sample_value_bet] ->
       exists c,
         get_market_consensus store_with_edge (ValueBet.game_id vb) true =
         Ok (Some c)
         /\ ValueBet.my_probability vb =
            selected_probability c (ValueBet.betting_selection vb)
         /\ ~ ValueBet.my_probability vb == 0
         /\ ValueBet.fair_odds vb = 1 / ValueBet.my_probability vb
         /\ ValueBet.edge_percent vb =
            (ValueBet.offered_odds vb / ValueBet.fair_odds vb - 1) * 100.
Proof.
  apply (find_value_bets_consistent store_with_edge 0 MIN_EDGE_PERCENT
           MIN_PROBABILITY).
  vm_compute. reflexivity.
Defined.

(** ** Monotonicity of the edge *)

Lemma edge_formula_monotone (p o1 o2 : Q) :
  0 < p -> o1 <= o2 ->
  (o1 / (1 / p) - 1) * 100 <= (o2 / (1 / p) - 1) * 100.
Proof.
  intros Hp Ho.
  assert (Hf : 0 <= / (1 / p)).
  { apply Qlt_le_weak, Qinv_lt_0_compat.
    unfold Qdiv. rewrite Qmult_1_l. apply Qinv_lt_0_compat. exact Hp. }
  assert (Hd : o1 / (1 / p) <= o2 / (1 / p)).
  { unfold Qdiv at 1 3. apply Qmult_le_compat_r; assumption. }
  lra.
Qed.

Lemma fair_odds_nonzero (p : Q) : 0 < p -> ~ 1 / p == 0.
Proof.
  intros Hp E.
  assert (H : 0 < 1 / p).
  { unfold Qdiv. rewrite Qmult_1_l. apply Qinv_lt_0_compat. exact Hp. }
  rewrite E in H. apply (Qlt_irrefl 0 H).
Qed.

Lemma Qgeb_trans (a b m : Q) : a <= b -> Qgeb a m = true -> Qgeb b m = true.
Proof.
  intros Hab H. apply Qgeb_true in H. apply Qgeb_true.
  apply (Qle_trans _ _ _ H Hab).
Qed.

Lemma all_still_flagged_app (ds ds' es es' : list Disc.t) :
  all_still_flagged ds ds' -> all_still_flagged es es' ->
  all_still_flagged (ds ++ es) (ds' ++ es').
Proof.
  intros H1 H2 d Hin. apply in_app_or in Hin. destruct Hin as [Hin | Hin].
  - destruct (H1 d Hin) as (d' & Hd' & Hs). exists d'. split; [|exact Hs].
    apply in_or_app. left. exact Hd'.
  - destruct (H2 d Hin) as (d' & Hd' & Hs). exists d'. split; [|exact Hs].
    apply in_or_app. right. exact Hd'.
Qed.

Lemma all_still_flagged_nil (ds' : list Disc.t) : all_still_flagged [] ds'.
Proof. intros d []. Qed.

Lemma all_still_flagged_one (d d' : Disc.t) :
  still_flagged d d' -> all_still_flagged [d] [d'].
Proof.
  intros H x [<- | []]. exists d'. split; [left; reflexivity | exact H].
Qed.

Lemma cond_app_flagged (b b' : bool) (acc acc' : list Disc.t) (x x' : Disc.t) :
  (b = true -> b' = true) ->
  all_still_flagged acc acc' ->
  all_still_flagged [x] [x'] ->
  all_still_flagged (if b then acc ++ [x] else acc)
                    (if b' then acc' ++ [x'] else acc').
Proof.
  intros Himp Hacc Hx. destruct b, b'.
  - apply all_still_flagged_app; assumption.
  - specialize (Himp eq_refl). discriminate.
  - rewrite <- (app_nil_r acc).
    apply all_still_flagged_app; [assumption | apply all_still_flagged_nil].
  - exact Hacc.
Qed.

Lemma if_Ok {A} (b : bool) (x y : A) :
  (if b then Ok x else Ok y) = Ok (if b then x else y).
Proof. destruct b; reflexivity. Qed.

(** One loop iteration on a snapshot and on the same snapshot with raised
    odds, against positive consensus probabilities. *)
Lemma check_snapshot_raised (c : Consensus) (min_edge : Q)
      (acc acc' : list Disc.t) (snap snap' : OddsSnapshot.t) :
  0 < home_probability c -> 0 < away_probability c ->
  odds_raised snap snap' ->
  all_still_flagged acc acc' ->
  exists ds ds',
    check_snapshot c min_edge acc snap = Ok ds
    /\ check_snapshot c min_edge acc' snap' = Ok ds'
    /\ all_still_flagged ds ds'.
Proof.
  intros Hh Ha (_ & Hb & _ & _ & Hho & Hao) Hacc.
  unfold check_snapshot.
  rewrite (py_div_ok 1 (home_probability c)) by lra.
  rewrite (py_div_ok 1 (away_probability c)) by lra.
  cbn [bind].
  rewrite !py_div_ok by (apply fair_odds_nonzero; assumption).
  cbn [bind].
  pose proof (edge_formula_monotone (home_probability c) _ _ Hh Hho) as Hhe.
  pose proof (edge_formula_monotone (away_probability c) _ _ Ha Hao) as Hae.
  assert (Hhome : all_still_flagged
            [Disc.mk (OddsSnapshot.bookmaker snap) "Home"
               (OddsSnapshot.home_odds snap) (1 / home_probability c)
               ((OddsSnapshot.home_odds snap / (1 / home_probability c) - 1) * 100)
               (OddsSnapshot.home_implied_prob snap) (home_probability c)]
            [Disc.mk (OddsSnapshot.bookmaker snap') "Home"
               (OddsSnapshot.home_odds snap') (1 / home_probability c)
               ((OddsSnapshot.home_odds snap' / (1 / home_probability c) - 1) * 100)
               (OddsSnapshot.home_implied_prob snap') (home_probability c)]).
  { apply all_still_flagged_one. unfold still_flagged. simpl. auto. }
  assert (Haway : all_still_flagged
            [Disc.mk (OddsSnapshot.bookmaker snap) "Away"
               (OddsSnapshot.away_odds snap) (1 / away_probability c)
               ((OddsSnapshot.away_odds snap / (1 / away_probability c) - 1) * 100)
               (OddsSnapshot.away_implied_prob snap) (away_probability c)]
            [Disc.mk (OddsSnapshot.bookmaker snap') "Away"
               (OddsSnapshot.away_odds snap') (1 / away_probability c)
               ((OddsSnapshot.away_odds snap' / (1 / away_probability c) - 1) * 100)
               (OddsSnapshot.away_implied_prob snap') (away_probability c)]).
  { apply all_still_flagged_one. unfold still_flagged. simpl. auto. }
  rewrite !if_Ok. eexists. eexists.
  split; [reflexivity|]. split; [reflexivity|].
  apply cond_app_flagged; [apply Qgeb_trans; exact Hae | | exact Haway].
  apply cond_app_flagged; [apply Qgeb_trans; exact Hhe | exact Hacc | exact Hhome].
Qed.

Lemma check_snapshots_raised (c : Consensus) (min_edge : Q)
      (soft soft' : list OddsSnapshot.t) :
  0 < home_probability c -> 0 < away_probability c ->
  Forall2 odds_raised soft soft' ->
  forall acc acc',
    all_still_flagged acc acc' ->
    exists ds ds',
      check_snapshots c min_edge acc soft = Ok ds
      /\ check_snapshots c min_edge acc' soft' = Ok ds'
      /\ all_still_flagged ds ds'.
Proof.
  intros Hh Ha HF.
  induction HF as [|snap snap' rest rest' Hs _ IH]; intros acc acc' Hacc.
  - exists acc, acc'. simpl. auto.
  - destruct (check_snapshot_raised c min_edge acc acc' snap snap' Hh Ha Hs Hacc)
      as (ds1 & ds1' & E1 & E1' & H1).
    destruct (IH ds1 ds1' H1) as (ds & ds' & E & E' & H).
    exists ds, ds'. simpl. rewrite E1, E1'. cbn [bind]. auto.
Qed.

(** Raised snapshot lists go through the query in step. *)

Lemma Forall2_filter {A} (R : A -> A -> Prop) (f : A -> bool) (l l' : list A) :
  (forall a b, R a b -> f b = f a) ->
  Forall2 R l l' -> Forall2 R (filter f l) (filter f l').
Proof.
  intros Hf HF. induction HF as [|a b l l' Hab _ IH]; simpl.
  - constructor.
  - rewrite (Hf a b Hab). destruct (f a); [constructor|]; assumption.
Qed.

Lemma insert_desc_raised (x x' : OddsSnapshot.t) (l l' : list OddsSnapshot.t) :
  odds_raised x x' -> Forall2 odds_raised l l' ->
  Forall2 odds_raised (insert_desc x l) (insert_desc x' l').
Proof.
  intros Hx HF. induction HF as [|y y' l l' Hy HF IH]; simpl.
  - constructor; [exact Hx | constructor].
  - destruct Hx as (Hg & Hb & Ht & Hrest). destruct Hy as (Hg' & Hb' & Ht' & Hrest').
    rewrite Ht, Ht'.
    destruct (OddsSnapshot.snapshot_time x <? OddsSnapshot.snapshot_time y)%Z.
    + constructor; [repeat split; tauto | exact IH].
    + constructor; [repeat split; tauto|].
      constructor; [repeat split; tauto | exact HF].
Qed.

Lemma order_by_desc_time_raised (l l' : list OddsSnapshot.t) :
  Forall2 odds_raised l l' ->
  Forall2 odds_raised (order_by_desc_time l) (order_by_desc_time l').
Proof.
  intro HF. induction HF as [|x x' l l' Hx _ IH]; simpl.
  - constructor.
  - apply insert_desc_raised; assumption.
Qed.

Lemma get_latest_raised (st st' : Store) (game_id : Z) :
  Forall2 odds_raised (odds_snapshots st) (odds_snapshots st') ->
  Forall2 odds_raised (get_latest_snapshot_for_game st game_id)
                      (get_latest_snapshot_for_game st' game_id).
Proof.
  intro HF. unfold get_latest_snapshot_for_game.
  apply order_by_desc_time_raised, Forall2_filter; [|exact HF].
  intros a b (Hg & _). now rewrite Hg.
Qed.

Lemma sharp_not_soft (s : OddsSnapshot.t) : is_sharp s = true -> is_soft s = false.
Proof.
  unfold is_sharp, is_soft, in_books. simpl. rewrite !orb_false_r.
  intro H. apply orb_true_iff in H.
  destruct H as [H | H]; apply String.eqb_eq in H; rewrite H; reflexivity.
Qed.

Lemma raised_same_book (f : string -> bool) (a b : OddsSnapshot.t) :
  odds_raised a b ->
  f (OddsSnapshot.bookmaker b) = f (OddsSnapshot.bookmaker a).
Proof. intros (_ & Hb & _). now rewrite Hb. Qed.

Lemma raised_sharp_equal (l l' : list OddsSnapshot.t) :
  Forall2 odds_raised l l' -> filter is_sharp l = filter is_sharp l'.
Proof.
  intro HF. induction HF as [|a b l l' Hab _ IH]; simpl; [reflexivity|].
  assert (E : is_sharp b = is_sharp a).
  { unfold is_sharp. apply (raised_same_book (fun k => in_books k _) a b Hab). }
  rewrite E. destruct (is_sharp a) eqn:Es; [|exact IH].
  destruct Hab as (_ & _ & _ & Hsame & _).
  rewrite (Hsame (sharp_not_soft a Es)), IH. reflexivity.
Qed.

Lemma consensus_raised (st st' : Store) (game_id : Z) :
  Forall2 odds_raised (odds_snapshots st) (odds_snapshots st') ->
  get_market_consensus st' game_id true = get_market_consensus st game_id true.
Proof.
  intro HF. pose proof (get_latest_raised st st' game_id HF) as HL.
  unfold get_market_consensus.
  pose proof (raised_sharp_equal _ _ HL) as Es.
  destruct HL as [|a b l l' _ _]; [reflexivity|].
  rewrite Es. reflexivity.
Qed.

(** C10 (amended): with the consensus of the game fixed and its
    probabilities positive, raising the odds a soft book offers leaves the
    consensus
    and the fair odds as they are, and every (bookmaker, outcome) pair
    flagged by [identify_soft_book_discrepancies] before is flagged after,
    at the same [min_edge_percent], with an [edge_percent] at least as
    large. *)
Theorem raising_soft_odds_keeps_flags (st st' : Store) (game_id : Z)
        (min_edge_percent : Q) (c : Consensus) :
  Forall2 odds_raised (odds_snapshots st) (odds_snapshots st') ->
  get_market_consensus st game_id true = Ok (Some c) ->
  0 < home_probability c -> 0 < away_probability c ->
  get_market_consensus st' game_id true = Ok (Some c)
  /\ exists ds ds',
       identify_soft_book_discrepancies st game_id min_edge_percent = Ok ds
       /\ identify_soft_book_discrepancies st' game_id min_edge_percent = Ok ds'
       /\ forall d, In d ds ->
            exists d', In d' ds'
              /\ Disc.bookmaker d' = Disc.bookmaker d
              /\ Disc.selection d' = Disc.selection d
              /\ Disc.fair_odds d' = Disc.fair_odds d
              /\ Disc.offered_odds d <= Disc.offered_odds d'
              /\ Disc.edge_percent d <= Disc.edge_percent d'.
Proof.
  intros HF Hc Hh Ha.
  assert (Hc' : get_market_consensus st' game_id true = Ok (Some c)).
  { rewrite (consensus_raised st st' game_id HF). exact Hc. }
  split; [exact Hc'|].
  unfold identify_soft_book_discrepancies. rewrite Hc, Hc'. cbn [bind].
  apply (check_snapshots_raised c min_edge_percent _ _ Hh Ha).
  - apply Forall2_filter; [|apply get_latest_raised; exact HF].
    intros a b Hab. unfold is_soft.
    apply (raised_same_book (fun k => in_books k _) a b Hab).
  - apply all_still_flagged_nil.
Qed.

Lemma raising_soft_odds_keeps_flags_witness :
  get_market_consensus store_with_edge_raised 1 true = Ok (Some sample_consensus)
  /\ exists ds ds',
       identify_soft_book_discrepancies store_with_edge 1 5 = Ok ds
       /\ identify_soft_book_discrepancies store_with_edge_raised 1 5 = Ok ds'
       /\ forall d, In d ds ->
            exists d', In d' ds'
              /\ Disc.bookmaker d' = Disc.bookmaker d
              /\ Disc.selection d' = Disc.selection d
              /\ Disc.fair_odds d' = Disc.fair_odds d
              /\ Disc.offered_odds d <= Disc.offered_odds d'
              /\ Disc.edge_percent d <= Disc.edge_percent d'.
Proof.
  apply (raising_soft_odds_keeps_flags store_with_edge store_with_edge_raised
           1 5 sample_consensus).
  - constructor; [|constructor; [|constructor]].
    + unfold odds_raised. simpl.
      repeat split; try reflexivity; apply Qle_refl.
    + unfold odds_raised. simpl.
      repeat split; try reflexivity; discriminate.
  - vm_compute. reflexivity.
  - reflexivity.
  - reflexivity.
Defined.

(** C10 as stated fails when the consensus probability is negative, which
    stored prices allow.  Pinnacle quotes -2 on the home side, so the
    consensus probability is -1/2 and the fair odds are -2; draftkings
    offering -3 is flagged on the home side with an edge of 50 percent.
    When draftkings raises its offer to -2 the consensus is the same, the
    edge falls to 0 and the pair is no longer flagged at the same
    threshold of 5 percent. *)
Lemma raising_soft_odds_loses_flag :
  Forall2 odds_raised (odds_snapshots store_negative_consensus)
          (odds_snapshots store_negative_consensus_raised)
  /\ get_market_consensus store_negative_consensus_raised 1 true
     = get_market_consensus store_negative_consensus 1 true
  /\ (exists c,
         get_market_consensus store_negative_consensus 1 true = Ok (Some c)
         /\ home_probability c == - (1 # 2))
  /\ (exists d,
         identify_soft_book_discrepancies store_negative_consensus 1 5
         = Ok [d]
         /\ Disc.bookmaker d = "draftkings"%string
         /\ Disc.selection d = "Home"%string
         /\ Disc.offered_odds d == - (3)
         /\ Disc.edge_percent d == 50)
  /\ identify_soft_book_discrepancies store_negative_consensus_raised 1 5
     = Ok [].
Proof.
  split; [|split; [|split; [|split]]].
  - constructor; [|constructor; [|constructor]].
    + unfold odds_raised. simpl.
      repeat split; try reflexivity; apply Qle_refl.
    + unfold odds_raised. simpl.
      repeat split; try reflexivity; discriminate.
  - vm_compute. reflexivity.
  - eexists. split; [vm_compute; reflexivity|]. reflexivity.
  - eexists. split; [vm_compute; reflexivity|].
    repeat split; reflexivity.
  - vm_compute. reflexivity.
Qed.

(** ** Ingestion: one bookmaker block *)

Lemma truthy_price_number (x : option Feed.Price) :
  truthy_price x = true ->
  (exists q, x = Some (Feed.Number q) /\ ~ q == 0) \/ x = Some Feed.NonNumber.
Proof.
  destruct x as [[q|]|]; simpl; [| right; reflexivity | discriminate].
  intro H. left. exists q. split; [reflexivity|].
  apply Qeq_bool_false. now apply negb_true_iff.
Qed.

Lemma snapshot_of_block_skips (game : Game.t) (home_team away_team : string)
      (bookmaker_data : Feed.Bookmaker) :
  truthy_price (block_price bookmaker_data home_team) = false
  \/ truthy_price (block_price bookmaker_data away_team) = false ->
  snapshot_of_block game home_team away_team bookmaker_data = Ok None.
Proof.
  unfold snapshot_of_block, block_price. intro H.
  destruct (Feed.key bookmaker_data) as [k|]; [|reflexivity].
  destruct (String.eqb k EmptyString); [reflexivity|].
  destruct (negb (in_books k ALL_BOOKS)); [reflexivity|].
  destruct (Feed.markets bookmaker_data) as [|market rest]; [reflexivity|].
  destruct (Feed.outcomes market) as [|o os] eqn:Eo; [reflexivity|].
  destruct H as [H | H]; rewrite H; cbn [negb orb]; [reflexivity|].
  rewrite orb_true_r. reflexivity.
Qed.

(** A block is skipped, gives a valid snapshot, or raises. *)
Lemma snapshot_of_block_cases (game : Game.t) (home_team away_team : string)
      (bookmaker_data : Feed.Bookmaker) :
  snapshot_of_block game home_team away_team bookmaker_data = Ok None
  \/ (exists p,
         snapshot_of_block game home_team away_team bookmaker_data = Ok (Some p)
         /\ pending_valid p
         /\ block_price bookmaker_data home_team
            = Some (Feed.Number (p_home_odds p))
         /\ block_price bookmaker_data away_team
            = Some (Feed.Number (p_away_odds p)))
  \/ exists e,
       snapshot_of_block game home_team away_team bookmaker_data = Raise e.
Proof.
  unfold snapshot_of_block, block_price.
  destruct (Feed.key bookmaker_data) as [k|]; [|left; reflexivity].
  destruct (String.eqb k EmptyString); [left; reflexivity|].
  destruct (negb (in_books k ALL_BOOKS)); [left; reflexivity|].
  destruct (Feed.markets bookmaker_data) as [|market rest]; [left; reflexivity|].
  destruct (Feed.outcomes market) as [|o os] eqn:Eo; [left; reflexivity|].
  rewrite <- Eo.
  destruct (truthy_price (outcome_map_get (Feed.outcomes market) home_team))
    eqn:Th; [|left; reflexivity].
  destruct (truthy_price (outcome_map_get (Feed.outcomes market) away_team))
    eqn:Ta; [|left; reflexivity].
  cbn [negb orb]. right.
  apply truthy_price_number in Th, Ta.
  destruct Th as [(h & Eh & Hh) | Eh]; rewrite Eh;
    [|right; eexists; reflexivity].
  destruct Ta as [(a & Ea & Ha) | Ea]; rewrite Ea;
    [|right; eexists; reflexivity].
  rewrite !py_div_ok by assumption. cbn [bind].
  destruct (truthy_price (outcome_map_get (Feed.outcomes market) "Draw"))
    eqn:Td.
  - apply truthy_price_number in Td. destruct Td as [(d & Ed & Hd) | Ed];
      rewrite Ed; cbn [py_div_price bind];
      [|right; eexists; reflexivity].
    rewrite py_div_ok by assumption. cbn [bind].
    left. eexists. split; [reflexivity|].
    unfold pending_valid. simpl. auto.
  - cbn [bind]. left. eexists. split; [reflexivity|].
    unfold pending_valid. simpl. auto.
Qed.

(** The loop over the blocks ends with the snapshots it added, all of them
    valid and all of them counted, or raises with the count it reached. *)
Lemma ingest_bookmakers_spec (game : Game.t) (home_team away_team : string)
      (bookmakers : list Feed.Bookmaker) :
  forall pending n,
    (exists added,
        ingest_bookmakers game home_team away_team pending n bookmakers =
        ((n + List.length added)%nat, Ok (pending ++ added))
        /\ Forall pending_valid added)
    \/ exists k e,
         ingest_bookmakers game home_team away_team pending n bookmakers =
         ((n + k)%nat, Raise e).
Proof.
  induction bookmakers as [|bd rest IH]; intros pending n; simpl.
  - left. exists []. split; [|constructor].
    now rewrite Nat.add_0_r, app_nil_r.
  - destruct (snapshot_of_block_cases game home_team away_team bd)
      as [E | [(p & E & Hp & _) | (e & E)]]; rewrite E.
    + apply IH.
    + destruct (IH (pending ++ [p]) (S n))
        as [(added & Eadd & Hadd) | (k & e & Eraise)].
      * left. exists (p :: added). split; [|constructor; assumption].
        rewrite Eadd, <- app_assoc. simpl.
        now rewrite Nat.add_succ_r.
      * right. exists (S k), e. rewrite Eraise.
        now rewrite Nat.add_succ_r.
    + right. exists 0%nat, e. now rewrite Nat.add_0_r.
Qed.

(** ** Ingestion: writing rows *)

Lemma reciprocal_in_unit (o : Q) : 1 < o -> 0 < 1 / o < 1.
Proof.
  intro H. assert (Ho : 0 < o) by lra.
  assert (Hi : 0 < / o) by (apply Qinv_lt_0_compat; exact Ho).
  unfold Qdiv. rewrite Qmult_1_l. split; [exact Hi|].
  assert (E : o * / o == 1) by (apply Qmult_inv_r; lra).
  assert (Hlt : 1 * / o < o * / o) by (apply Qmult_lt_compat_r; assumption).
  rewrite E, Qmult_1_l in Hlt. exact Hlt.
Qed.

Lemma find_none_existsb {A} (f : A -> bool) (l : list A) :
  find f l = None -> existsb f l = false.
Proof.
  induction l as [|a l IH]; simpl; [reflexivity|].
  destruct (f a); [discriminate | exact IH].
Qed.

Lemma find_none_not_in (gs : list Game.t) (i : string) :
  find (fun g => String.eqb (Game.odds_api_id g) i) gs = None ->
  ~ In i (map Game.odds_api_id gs).
Proof.
  intros Hf Hin. apply in_map_iff in Hin. destruct Hin as (g & Eg & Hg).
  pose proof (find_none _ _ Hf g Hg) as H. simpl in H.
  rewrite Eg, String.eqb_refl in H. discriminate.
Qed.

Section IngestionFacts.

Variable parse_commence_time : string -> option Z.
Variable utcnow : Z -> Z.
Variable unique_snapshots : bool.

Lemma flush_snapshots_spec (pending : list PendingSnapshot) :
  forall rows rows',
    flush_snapshots utcnow unique_snapshots rows pending = Ok rows' ->
    exists new,
      rows' = rows ++ new
      /\ List.length new = List.length pending
      /\ (Forall pending_valid pending -> Forall stored_valid new).
Proof.
  induction pending as [|p rest IH]; intros rows rows' H; simpl in H.
  - injection H as <-. exists []. rewrite app_nil_r. auto.
  - destruct (unique_snapshots && existsb _ rows) in H; [discriminate|].
    destruct (IH _ _ H) as (new & -> & Hlen & Hval).
    eexists (_ :: new). rewrite <- app_assoc. split; [reflexivity|].
    split; [simpl; now rewrite Hlen|].
    intro Hp. inversion Hp as [|p' rest' (Hh & Ha & Eh & Ea) Hrest]; subst.
    constructor; [|apply Hval; exact Hrest].
    unfold stored_valid. simpl.
    split; [exact Hh|]. split; [exact Ha|].
    split; [exact Eh|]. split; [exact Ea|].
    rewrite Eh, Ea. split; apply reciprocal_in_unit.
Qed.

(** What one iteration of the event loop does to the store and to the
    count: at most one game is added, and only for an identifier that was
    not there; snapshot rows are appended, all of them valid, never more
    of them than the count grew by. *)
Lemma ingest_event_spec (sport : string) (st : Store) (n : nat)
      (event : Feed.Event) :
  exists st' gs rows k,
    ingest_event parse_commence_time utcnow unique_snapshots sport (st, n) event
    = (st', (n + k)%nat)
    /\ games st' = games st ++ gs
    /\ odds_snapshots st' = odds_snapshots st ++ rows
    /\ value_bets st' = value_bets st
    /\ Forall stored_valid rows
    /\ (gs = []
        \/ exists g, gs = [g]
             /\ Feed.id event = Some (Game.odds_api_id g)
             /\ ~ In (Game.odds_api_id g) (map Game.odds_api_id (games st)))
    /\ (List.length rows <= k)%nat.
Proof.
  assert (Hskip : forall gs st1,
            games st1 = games st ++ gs ->
            odds_snapshots st1 = odds_snapshots st ->
            value_bets st1 = value_bets st ->
            (gs = []
             \/ exists g, gs = [g]
                  /\ Feed.id event = Some (Game.odds_api_id g)
                  /\ ~ In (Game.odds_api_id g) (map Game.odds_api_id (games st))) ->
            forall k r,
              (exists pending,
                  r = Ok pending
                  /\ k = List.length pending /\ Forall pending_valid pending)
              \/ (exists e, r = Raise e) ->
            exists st' gs rows k',
              match r with
              | Raise _ => (st1, (n + k)%nat)
              | Ok pending =>
                  match commit_snapshots utcnow unique_snapshots st1 pending with
                  | Raise _ => (st1, (n + k)%nat)
                  | Ok st2 => (st2, (n + k)%nat)
                  end
              end = (st', (n + k')%nat)
              /\ games st' = games st ++ gs
              /\ odds_snapshots st' = odds_snapshots st ++ rows
              /\ value_bets st' = value_bets st
              /\ Forall stored_valid rows
              /\ (gs = []
                  \/ exists g, gs = [g]
                       /\ Feed.id event = Some (Game.odds_api_id g)
                       /\ ~ In (Game.odds_api_id g)
                              (map Game.odds_api_id (games st)))
              /\ (List.length rows <= k')%nat).
  { intros gs st1 Hg Hs Hv Hgs k r [(pending & -> & -> & Hp) | (e & ->)].
    - unfold commit_snapshots.
      destruct (flush_snapshots utcnow unique_snapshots (odds_snapshots st1) pending)
        as [rows'|e] eqn:Ef; cbn [bind].
      + destruct (flush_snapshots_spec pending _ _ Ef) as (new & -> & Hlen & Hval).
        eexists. exists gs, new, (List.length pending).
        split; [reflexivity|]. simpl. rewrite Hs.
        repeat split; auto. lia.
      + exists st1, gs, [], (List.length pending).
        split; [reflexivity|]. rewrite Hs, app_nil_r.
        repeat split; auto. simpl; lia.
    - exists st1, gs, [], k.
      split; [reflexivity|]. rewrite Hs, app_nil_r.
      repeat split; auto. simpl; lia. }
  assert (Hnone : exists st' gs rows k,
            (st, n) = (st', (n + k)%nat)
            /\ games st' = games st ++ gs
            /\ odds_snapshots st' = odds_snapshots st ++ rows
            /\ value_bets st' = value_bets st
            /\ Forall stored_valid rows
            /\ (gs = []
                \/ exists g, gs = [g]
                     /\ Feed.id event = Some (Game.odds_api_id g)
                     /\ ~ In (Game.odds_api_id g)
                            (map Game.odds_api_id (games st)))
            /\ (List.length rows <= k)%nat).
  { exists st, [], [], 0%nat. rewrite Nat.add_0_r, !app_nil_r.
    repeat split; auto. }
  unfold ingest_event.
  destruct (Feed.id event) as [event_id|] eqn:Eid; [|exact Hnone].
  destruct (Feed.home_team event) as [home_team|]; [|exact Hnone].
  destruct (Feed.away_team event) as [away_team|]; [|exact Hnone].
  destruct (Feed.commence_time event) as [cts|]; [|exact Hnone].
  destruct (negb _); [exact Hnone|].
  destruct (parse_commence_time cts) as [commence_time|]; [|exact Hnone].
  assert (Hloop : forall game bd bds,
            exists k r,
              ingest_bookmakers game home_team away_team [] n (bd :: bds)
              = ((n + k)%nat, r)
              /\ ((exists pending,
                      r = Ok pending
                      /\ k = List.length pending
                      /\ Forall pending_valid pending)
                  \/ (exists e, r = Raise e))).
  { intros game bd bds.
    destruct (ingest_bookmakers_spec game home_team away_team (bd :: bds) [] n)
      as [(added & Eadd & Hadd) | (k & e & Eraise)].
    - exists (List.length added), (Ok added). split; [exact Eadd|].
      left. exists added. auto.
    - exists k, (Raise e). split; [exact Eraise|]. right. exists e. reflexivity. }
  destruct (game_by_odds_api_id st event_id) as [existing|] eqn:Eg.
  - destruct (Feed.bookmakers event) as [|bd bds] eqn:Eb; [exact Hnone|].
    destruct (Hloop existing bd bds) as (k & r & -> & Hr).
    apply (Hskip [] st (eq_sym (app_nil_r _)) eq_refl eq_refl (or_introl eq_refl)
                 k r Hr).
  - unfold game_by_odds_api_id in Eg. unfold add_game.
    rewrite (find_none_existsb _ _ Eg).
    set (game := Game.mk _ event_id _ _ _ _ _).
    set (st1 := {| games := games st ++ [game];
                   odds_snapshots := odds_snapshots st;
                   value_bets := value_bets st |}).
    assert (Hgs : [game] = []
                  \/ exists g, [game] = [g]
                       /\ Some event_id = Some (Game.odds_api_id g)
                       /\ ~ In (Game.odds_api_id g)
                              (map Game.odds_api_id (games st))).
    { right. exists game. split; [reflexivity|]. split; [reflexivity|].
      apply (find_none_not_in _ _ Eg). }
    destruct (Feed.bookmakers event) as [|bd bds] eqn:Eb.
    + pose proof (Hskip [game] st1 eq_refl eq_refl eq_refl Hgs 0%nat
                        (Raise IntegrityError)) as H.
      cbv iota in H. rewrite Nat.add_0_r in H. apply H.
      right. exists IntegrityError. reflexivity.
    + destruct (Hloop game bd bds) as (k & r & -> & Hr).
      apply (Hskip [game] st1 eq_refl eq_refl eq_refl Hgs k r Hr).
Qed.

End IngestionFacts.

(** ** Ingestion: the whole call *)

Lemma NoDup_snoc {A} (l : list A) (x : A) :
  NoDup l -> ~ In x l -> NoDup (l ++ [x]).
Proof.
  intros Hl Hx. apply (Permutation_NoDup (Permutation_cons_append l x)).
  constructor; assumption.
Qed.

Lemma event_usable_fields (parse_commence_time : string -> option Z)
      (event : Feed.Event) :
  event_usable parse_commence_time event = true ->
  exists i h a cts t,
    Feed.id event = Some i /\ Feed.home_team event = Some h
    /\ Feed.away_team event = Some a /\ Feed.commence_time event = Some cts
    /\ parse_commence_time cts = Some t
    /\ (truthy_str (Feed.id event) && truthy_str (Feed.home_team event)
        && truthy_str (Feed.away_team event)
        && truthy_str (Feed.commence_time event)) = true.
Proof.
  unfold event_usable. intro H.
  apply andb_true_iff in H. destruct H as [Hf Hp]. rewrite Hf.
  destruct (Feed.id event) as [i|]; [|discriminate].
  destruct (Feed.home_team event) as [h|];
    [|simpl in Hf; rewrite andb_false_r in Hf; discriminate].
  destruct (Feed.away_team event) as [a|];
    [|simpl in Hf; rewrite !andb_false_r in Hf; discriminate].
  destruct (Feed.commence_time event) as [cts|]; [|discriminate].
  destruct (parse_commence_time cts) as [t|] eqn:Ep; [|discriminate].
  exists i, h, a, cts, t. repeat split; reflexivity || assumption.
Qed.

(** The lookup by external identifier finds a stored game when the
    identifiers are unique. *)
Lemma find_by_odds_api_id (gs : list Game.t) (g : Game.t) :
  NoDup (map Game.odds_api_id gs) ->
  In g gs ->
  find (fun x => String.eqb (Game.odds_api_id x) (Game.odds_api_id g)) gs
  = Some g.
Proof.
  induction gs as [|x gs IH]; intros Hnd Hin; [destruct Hin|].
  cbn [map] in Hnd. inversion Hnd as [|? ? Hx Hnd']; subst.
  cbn [find].
  destruct (String.eqb_spec (Game.odds_api_id x) (Game.odds_api_id g))
    as [E | E].
  - destruct Hin as [-> | Hin]; [reflexivity|].
    exfalso. apply Hx. rewrite E. apply in_map. exact Hin.
  - destruct Hin as [-> | Hin]; [congruence|]. apply IH; assumption.
Qed.

(** ** Ingestion: blocks whose prices are numbers *)

Lemma outcome_map_get_numeric (outcomes : list Feed.Outcome) (k : string) :
  forallb (fun o => price_numeric (Feed.price o)) outcomes = true ->
  price_numeric (outcome_map_get outcomes k) = true.
Proof.
  unfold outcome_map_get.
  assert (H : forall acc,
             price_numeric acc = true ->
             forallb (fun o => price_numeric (Feed.price o)) outcomes = true ->
             price_numeric
               (fold_left
                  (fun found o =>
                     if String.eqb (Feed.name o) k then Feed.price o else found)
                  outcomes acc) = true).
  { induction outcomes as [|o os IH]; intros acc Hacc Hall; [exact Hacc|].
    cbn [forallb] in Hall. apply andb_true_iff in Hall.
    destruct Hall as [Ho Hos]. cbn [fold_left].
    apply IH; [|exact Hos].
    destruct (String.eqb (Feed.name o) k); assumption. }
  apply H. reflexivity.
Qed.

Lemma snapshot_of_block_numeric (game : Game.t) (home_team away_team : string)
      (bookmaker_data : Feed.Bookmaker) (e : exn) :
  block_numeric bookmaker_data = true ->
  snapshot_of_block game home_team away_team bookmaker_data <> Raise e.
Proof.
  unfold block_numeric, snapshot_of_block. intro Hnum.
  destruct (Feed.key bookmaker_data) as [k|]; [|discriminate].
  destruct (String.eqb k EmptyString); [discriminate|].
  destruct (negb (in_books k ALL_BOOKS)); [discriminate|].
  destruct (Feed.markets bookmaker_data) as [|market rest]; [discriminate|].
  cbn [forallb] in Hnum. apply andb_true_iff in Hnum. destruct Hnum as [Hm _].
  destruct (Feed.outcomes market) as [|o os] eqn:Eo; [discriminate|].
  rewrite <- Eo in *.
  pose proof (outcome_map_get_numeric _ home_team Hm) as Hh.
  pose proof (outcome_map_get_numeric _ away_team Hm) as Ha.
  pose proof (outcome_map_get_numeric _ "Draw" Hm) as Hd.
  destruct (outcome_map_get (Feed.outcomes market) home_team) as [[h|]|];
    cbn [truthy_price price_numeric] in *; try discriminate.
  destruct (Qeq_bool h 0) eqn:Eh; cbn [negb orb]; [discriminate|].
  destruct (outcome_map_get (Feed.outcomes market) away_team) as [[a|]|];
    cbn [truthy_price price_numeric] in *; try discriminate.
  destruct (Qeq_bool a 0) eqn:Ea; cbn [negb orb]; [discriminate|].
  apply Qeq_bool_false in Eh, Ea.
  rewrite !py_div_ok by assumption. cbn [bind].
  destruct (outcome_map_get (Feed.outcomes market) "Draw") as [[d|]|];
    cbn [truthy_price price_numeric py_div_price] in *; try discriminate.
  destruct (Qeq_bool d 0) eqn:Ed; cbn [negb bind]; [discriminate|].
  apply Qeq_bool_false in Ed. rewrite py_div_ok by assumption. discriminate.
Qed.

(** On such blocks the loop does not raise, and it adds to the session the
    snapshot of every block that gives one. *)
Lemma ingest_bookmakers_numeric (game : Game.t) (home_team away_team : string)
      (bookmakers : list Feed.Bookmaker) :
  forallb block_numeric bookmakers = true ->
  forall pending n,
  exists added,
    ingest_bookmakers game home_team away_team pending n bookmakers =
    ((n + List.length added)%nat, Ok (pending ++ added))
    /\ forall bookmaker_data p,
         In bookmaker_data bookmakers ->
         snapshot_of_block game home_team away_team bookmaker_data
         = Ok (Some p) ->
         In p added.
Proof.
  induction bookmakers as [|bd rest IH]; intros Hnum pending n; simpl.
  - exists []. split; [|intros b p []].
    now rewrite Nat.add_0_r, app_nil_r.
  - cbn [forallb] in Hnum. apply andb_true_iff in Hnum.
    destruct Hnum as [Hbd Hrest].
    destruct (snapshot_of_block game home_team away_team bd)
      as [[p|]|e] eqn:E.
    + destruct (IH Hrest (pending ++ [p]) (S n)) as (added & Eadd & Hall).
      exists (p :: added). split.
      * rewrite Eadd, <- app_assoc. simpl. now rewrite Nat.add_succ_r.
      * intros b q [<- | Hb] Hq.
        -- left. congruence.
        -- right. apply (Hall b q Hb Hq).
    + destruct (IH Hrest pending n) as (added & Eadd & Hall).
      exists added. split; [exact Eadd|].
      intros b q [<- | Hb] Hq; [congruence | apply (Hall b q Hb Hq)].
    + exfalso. apply (snapshot_of_block_numeric _ _ _ _ e Hbd E).
Qed.

Lemma Forall2_in_l {A B} (R : A -> B -> Prop) (l : list A) (l' : list B)
      (a : A) :
  Forall2 R l l' -> In a l -> exists b, In b l' /\ R a b.
Proof.
  intro HF. induction HF as [|x y l l' Hxy _ IH]; intros Hin; [destruct Hin|].
  destruct Hin as [<- | Hin].
  - exists y. split; [left; reflexivity | exact Hxy].
  - destruct (IH Hin) as (b & Hb & Hab). exists b. split; [right|]; assumption.
Qed.

Section IngestionCall.

Variable parse_commence_time : string -> option Z.
Variable utcnow : Z -> Z.
Variable unique_snapshots : bool.

Lemma ingest_odds_fold (sport : string) (events : list Feed.Event) (st : Store) :
  ingest_odds parse_commence_time utcnow unique_snapshots sport events st =
  fold_left (ingest_event parse_commence_time utcnow unique_snapshots sport)
            events (st, 0%nat).
Proof. destruct events; reflexivity. Qed.

Lemma ingest_loop_spec (sport : string) (events : list Feed.Event) :
  forall st n,
  exists st' gs rows k,
    fold_left (ingest_event parse_commence_time utcnow unique_snapshots sport)
              events (st, n) = (st', (n + k)%nat)
    /\ games st' = games st ++ gs
    /\ odds_snapshots st' = odds_snapshots st ++ rows
    /\ value_bets st' = value_bets st
    /\ Forall stored_valid rows
    /\ (NoDup (map Game.odds_api_id (games st)) ->
        NoDup (map Game.odds_api_id (games st')))
    /\ (forall g, In g gs ->
          exists event, In event events
            /\ Feed.id event = Some (Game.odds_api_id g)
            /\ ~ In (Game.odds_api_id g) (map Game.odds_api_id (games st)))
    /\ (List.length rows <= k)%nat.
Proof.
  induction events as [|event rest IH]; intros st n.
  - exists st, [], [], 0%nat. simpl. rewrite Nat.add_0_r, !app_nil_r.
    repeat split; auto. intros g [].
  - destruct (ingest_event_spec parse_commence_time utcnow unique_snapshots
                                sport st n event)
      as (st1 & gs1 & rows1 & k1 & E1 & Hg1 & Hs1 & Hv1 & Hval1 & Hone
          & Hle1).
    destruct (IH st1 (n + k1)%nat)
      as (st' & gs2 & rows2 & k2 & E2 & Hg2 & Hs2 & Hv2 & Hval2 & Hnd2
          & Hnew2 & Hle2).
    exists st', (gs1 ++ gs2), (rows1 ++ rows2), (k1 + k2)%nat.
    cbn [fold_left]. rewrite E1, E2, Nat.add_assoc.
    split; [reflexivity|].
    split; [rewrite Hg2, Hg1; apply eq_sym, app_assoc|].
    split; [rewrite Hs2, Hs1; apply eq_sym, app_assoc|].
    split; [congruence|].
    split; [apply Forall_app; split; assumption|].
    split; [|split].
    + intro Hnd. apply Hnd2. rewrite Hg1.
      destruct Hone as [-> | (g & -> & _ & Hfresh)].
      * rewrite app_nil_r. exact Hnd.
      * rewrite map_app. simpl. apply NoDup_snoc; assumption.
    + intros g Hin. apply in_app_or in Hin. destruct Hin as [Hin | Hin].
      * destruct Hone as [-> | (g1 & -> & Hid & Hfresh)]; [destruct Hin|].
        destruct Hin as [<- | []].
        exists event. split; [left; reflexivity|]. split; assumption.
      * destruct (Hnew2 g Hin) as (ev & Hev & Hid & Hfresh).
        exists ev. split; [right; exact Hev|]. split; [exact Hid|].
        intro Hold. apply Hfresh. rewrite Hg1, map_app.
        apply in_or_app. left. exact Hold.
    + rewrite length_app. lia.
Qed.

(** Without a duplicate constraint the commit writes one row for each
    snapshot of the session, with the values it was given. *)
Lemma flush_snapshots_stores (pending : list PendingSnapshot) :
  unique_snapshots = false ->
  forall rows, exists new,
    flush_snapshots utcnow unique_snapshots rows pending = Ok (rows ++ new)
    /\ Forall2 row_stores pending new.
Proof.
  intro Hu. induction pending as [|p rest IH]; intro rows; simpl.
  - exists []. rewrite app_nil_r. split; [reflexivity | constructor].
  - destruct (unique_snapshots && existsb _ rows) eqn:E;
      [rewrite Hu in E; discriminate|].
    destruct (IH (rows ++
                  [OddsSnapshot.mk (next_id (map OddsSnapshot.id rows))
                     (p_game_id p) (p_bookmaker p) (p_home_odds p)
                     (p_away_odds p) (p_draw_odds p) (p_home_implied_prob p)
                     (p_away_implied_prob p) (p_draw_implied_prob p)
                     (utcnow (next_id (map OddsSnapshot.id rows)))]))
      as (new & Enew & HF).
    eexists (_ :: new). rewrite Enew, <- app_assoc. split; [reflexivity|].
    constructor; [|exact HF].
    unfold row_stores. cbn. repeat split; reflexivity.
Qed.

(** One iteration on an event whose identifier is known: the stored game
    is the one the snapshots are attached to. *)
Lemma ingest_event_reuses (sport : string) (st : Store) (n : nat)
      (event : Feed.Event) (existing : Game.t) (home_team away_team : string) :
  unique_snapshots = false ->
  NoDup (map Game.odds_api_id (games st)) ->
  In existing (games st) ->
  event_usable parse_commence_time event = true ->
  event_numeric event = true ->
  Feed.id event = Some (Game.odds_api_id existing) ->
  Feed.home_team event = Some home_team ->
  Feed.away_team event = Some away_team ->
  exists st1 k rows,
    ingest_event parse_commence_time utcnow unique_snapshots sport (st, n) event
    = (st1, k)
    /\ games st1 = games st
    /\ odds_snapshots st1 = odds_snapshots st ++ rows
    /\ forall bookmaker_data p,
         In bookmaker_data (Feed.bookmakers event) ->
         snapshot_of_block existing home_team away_team bookmaker_data
         = Ok (Some p) ->
         exists row, In row rows /\ row_stores p row.
Proof.
  intros Hu Hnd Hin Heu Hnum Hid Hh Ha.
  destruct (event_usable_fields parse_commence_time event Heu)
    as (i & h & a & cts & t & Ei & Eh & Ea & Ec & Ep & Ef).
  rewrite Hid in Ei. injection Ei as <-.
  rewrite Hh in Eh. injection Eh as <-.
  rewrite Ha in Ea. injection Ea as <-.
  unfold ingest_event. rewrite Ef, Hid, Hh, Ha, Ec, Ep. cbn [negb].
  unfold game_by_odds_api_id. rewrite (find_by_odds_api_id _ _ Hnd Hin).
  unfold event_numeric in Hnum.
  destruct (Feed.bookmakers event) as [|bd bds] eqn:Eb.
  - exists st, n, []. rewrite app_nil_r.
    split; [reflexivity|]. split; [reflexivity|]. split; [reflexivity|].
    intros b p [].
  - destruct (ingest_bookmakers_numeric existing home_team away_team
                                        (bd :: bds) Hnum [] n)
      as (added & Eadd & Hall).
    cbn [app] in Eadd. rewrite Eadd.
    unfold commit_snapshots.
    destruct (flush_snapshots_stores added Hu (odds_snapshots st))
      as (new & Enew & HF).
    rewrite Enew. cbn [bind].
    eexists. exists (n + List.length added)%nat, new.
    split; [reflexivity|]. cbn [games odds_snapshots].
    split; [reflexivity|]. split; [reflexivity|].
    intros b p Hb Hp.
    apply (Forall2_in_l _ _ _ _ HF (Hall b p Hb Hp)).
Qed.

(** The same over the whole loop: the rows written for an event whose
    identifier was known are among the rows the call appended. *)
Lemma ingest_loop_reuses (sport : string) (events : list Feed.Event) :
  unique_snapshots = false ->
  forall st n,
    NoDup (map Game.odds_api_id (games st)) ->
    exists rows,
      odds_snapshots
        (fst (fold_left
                (ingest_event parse_commence_time utcnow unique_snapshots sport)
                events (st, n)))
      = odds_snapshots st ++ rows
      /\ forall event existing home_team away_team bookmaker_data p,
           In event events ->
           event_usable parse_commence_time event = true ->
           event_numeric event = true ->
           In existing (games st) ->
           Feed.id event = Some (Game.odds_api_id existing) ->
           Feed.home_team event = Some home_team ->
           Feed.away_team event = Some away_team ->
           In bookmaker_data (Feed.bookmakers event) ->
           snapshot_of_block existing home_team away_team bookmaker_data
           = Ok (Some p) ->
           exists row, In row rows /\ row_stores p row.
Proof.
  intro Hu. induction events as [|event rest IH]; intros st n Hnd.
  - exists []. rewrite app_nil_r. split; [reflexivity|].
    intros ev ex h a b p [].
  - cbn [fold_left].
    destruct (ingest_event_spec parse_commence_time utcnow unique_snapshots
                                sport st n event)
      as (st1 & gs1 & rows1 & k1 & E1 & Hg1 & Hs1 & _ & _ & Hone & _).
    rewrite E1.
    assert (Hnd1 : NoDup (map Game.odds_api_id (games st1))).
    { rewrite Hg1. destruct Hone as [-> | (g & -> & _ & Hfresh)].
      - rewrite app_nil_r. exact Hnd.
      - rewrite map_app. simpl. apply NoDup_snoc; assumption. }
    destruct (IH st1 (n + k1)%nat Hnd1) as (rows2 & Hs2 & Hall2).
    exists (rows1 ++ rows2). split; [rewrite Hs2, Hs1; apply eq_sym, app_assoc|].
    intros ev ex h a b p [<- | Hev] Heu Hnum Hex Hid Hh Ha Hb Hp.
    + destruct (ingest_event_reuses sport st n event ex h a Hu Hnd Hex Heu
                                    Hnum Hid Hh Ha)
        as (st1' & k' & rows' & E' & _ & Hs' & Hrow).
      rewrite E1 in E'. injection E' as <- _.
      rewrite Hs1 in Hs'. apply app_inv_head in Hs'. subst rows'.
      destruct (Hrow b p Hb Hp) as (row & Hin & Hst).
      exists row. split; [apply in_or_app; left; exact Hin | exact Hst].
    + assert (Hex1 : In ex (games st1))
        by (rewrite Hg1; apply in_or_app; left; exact Hex).
      destruct (Hall2 ev ex h a b p Hev Heu Hnum Hex1 Hid Hh Ha Hb Hp)
        as (row & Hin & Hst).
      exists row. split; [apply in_or_app; right; exact Hin | exact Hst].
Qed.

(** C8: from a store with at most one game per external identifier, a
    call of [ingest_odds] ends in such a store again; the games that were
    there stay as they were, and when the identifiers of the feed are all
    known no game is added.  The stored game is reused: the snapshot of
    every quoting block of an event whose identifier was known is written
    with the key of the game that was stored under this identifier (when
    nothing makes the event fail: the prices are numbers and the storage
    refuses no row). *)
Theorem ingest_keeps_games_unique (sport : string) (events : list Feed.Event)
        (st st' : Store) (count : nat) :
  NoDup (map Game.odds_api_id (games st)) ->
  ingest_odds parse_commence_time utcnow unique_snapshots sport events st
  = (st', count) ->
  NoDup (map Game.odds_api_id (games st'))
  /\ (exists added, games st' = games st ++ added)
  /\ ((forall event i, In event events -> Feed.id event = Some i ->
         In i (map Game.odds_api_id (games st))) ->
      games st' = games st)
  /\ exists rows,
       odds_snapshots st' = odds_snapshots st ++ rows
       /\ forall event existing home_team away_team bookmaker_data p,
            unique_snapshots = false ->
            In event events ->
            event_usable parse_commence_time event = true ->
            event_numeric event = true ->
            In existing (games st) ->
            Feed.id event = Some (Game.odds_api_id existing) ->
            Feed.home_team event = Some home_team ->
            Feed.away_team event = Some away_team ->
            In bookmaker_data (Feed.bookmakers event) ->
            snapshot_of_block existing home_team away_team bookmaker_data
            = Ok (Some p) ->
            exists row,
              In row rows
              /\ OddsSnapshot.game_id row = Game.id existing
              /\ row_stores p row.
Proof.
  intros Hnd E. rewrite ingest_odds_fold in E.
  destruct (ingest_loop_spec sport events st 0)
    as (st2 & gs & rows & k & E2 & Hg & Hs & _ & _ & Hnd2 & Hnew & _).
  rewrite E in E2. injection E2 as -> _.
  split; [apply Hnd2; exact Hnd|].
  split; [exists gs; exact Hg|].
  split.
  - intro Hknown. rewrite Hg.
    destruct gs as [|g gs']; [apply app_nil_r|].
    destruct (Hnew g (or_introl eq_refl)) as (ev & Hev & Hid & Hfresh).
    exfalso. apply Hfresh. apply (Hknown ev _ Hev Hid).
  - exists rows. split; [exact Hs|].
    intros ev ex h a b p Hu Hev Heu Hnum Hex Hid Hh Ha Hb Hp.
    destruct (ingest_loop_reuses sport events Hu st 0%nat Hnd)
      as (rows' & Hs' & Hall).
    rewrite E in Hs'. cbn [fst] in Hs'.
    rewrite Hs in Hs'. apply app_inv_head in Hs'. subst rows'.
    destruct (Hall ev ex h a b p Hev Heu Hnum Hex Hid Hh Ha Hb Hp)
      as (row & Hin & Hst).
    exists row. split; [exact Hin|]. split; [|exact Hst].
    destruct Hst as (Hgid & _). rewrite Hgid.
    clear - Hp. unfold snapshot_of_block in Hp.
    destruct (Feed.key b) as [key|]; [|discriminate].
    destruct (String.eqb key EmptyString); [discriminate|].
    destruct (negb (in_books key ALL_BOOKS)); [discriminate|].
    destruct (Feed.markets b) as [|market rest]; [discriminate|].
    destruct (Feed.outcomes market) as [|o os]; [discriminate|].
    destruct (negb _ || negb _); [discriminate|].
    destruct (outcome_map_get _ h) as [[hq|]|]; try discriminate.
    destruct (outcome_map_get _ a) as [[aq|]|]; try discriminate.
    apply bind_inv in Hp. destruct Hp as (hp & _ & Hp).
    apply bind_inv in Hp. destruct Hp as (ap & _ & Hp).
    apply bind_inv in Hp. destruct Hp as (dp & _ & Hp).
    injection Hp as <-. reflexivity.
Qed.

End IngestionCall.

Lemma ingest_keeps_games_unique_witness :
  NoDup (map Game.odds_api_id (games store_after_known))
  /\ games store_after_known = games store_with_snapshot
  /\ exists row,
       In row (odds_snapshots store_after_known)
       /\ ~ In row (odds_snapshots store_with_snapshot)
       /\ OddsSnapshot.game_id row = Game.id sample_game
       /\ OddsSnapshot.bookmaker row = "draftkings"%string.
Proof.
  assert (Hnd : NoDup (map Game.odds_api_id (games store_with_snapshot)))
    by (simpl; constructor; [intros [] | constructor]).
  assert (Hrun : ingest_odds sample_parse sample_clock false "basketball_nba"
                             feed_known store_with_snapshot
                 = (store_after_known, 2%nat))
    by (vm_compute; reflexivity).
  destruct (ingest_keeps_games_unique sample_parse sample_clock false
              "basketball_nba" feed_known store_with_snapshot
              store_after_known 2 Hnd Hrun)
    as (Hnd' & _ & Hsame & rows & Hrows & Hreuse).
  split; [exact Hnd'|]. split.
  - apply Hsame. intros event i [<- | [<- | []]] Hi;
      injection Hi as <-; left; reflexivity.
  - destruct (Hreuse
                (sample_event "evt-1"
                   [h2h_block "draftkings" "Lakers" "Celtics" (Some (9 # 5))
                      (Some 2)])
                sample_game "Lakers"%string "Celtics"%string
                (h2h_block "draftkings" "Lakers" "Celtics" (Some (9 # 5))
                   (Some 2))
                {| p_game_id := 1;
                   p_bookmaker := "draftkings";
                   p_home_odds := 9 # 5;
                   p_away_odds := 2;
                   p_draw_odds := None;
                   p_home_implied_prob := 1 / (9 # 5);
                   p_away_implied_prob := 1 / 2;
                   p_draw_implied_prob := None |})
      as (row & Hin & Hgid & Hst);
      try reflexivity.
    + right. left. reflexivity.
    + left. reflexivity.
    + left. reflexivity.
    + exists row. destruct Hst as (_ & Hbook & _).
      split; [rewrite Hrows; apply in_or_app; right; exact Hin|].
      split; [|split; [exact Hgid | exact Hbook]].
      intros [<- | []]. discriminate Hbook.
Defined.

(** C3 fails when a block raises.  The second block of the first event
    quotes a string for the home price: the pinnacle snapshot of that
    event has been added to the session and counted when [1.0 / home_odds]
    raises [TypeError]; the handler rolls the session back and the loop
    goes on.  The call writes one snapshot row, the one of the second
    event, and returns 2. *)
Theorem ingest_counts_rolled_back_snapshot :
  ingest_odds sample_parse sample_clock false "basketball_nba"
              feed_text_price empty_store
  = (store_after_text_price, 2%nat)
  /\ List.length (odds_snapshots store_after_text_price) =
     (List.length (odds_snapshots empty_store) + 1)%nat.
Proof.
  split; [vm_compute; reflexivity | reflexivity].
Qed.

(** C2 (amended): a bookmaker block whose home or away price is missing or
    zero gives no snapshot, and every snapshot row written by a call of
    [ingest_odds] has non-zero home and away odds and implied
    probabilities equal to [1 / odds], which lie in (0, 1) when the odds
    exceed 1. *)
Theorem ingest_stores_quoted_prices (parse_commence_time : string -> option Z)
        (utcnow : Z -> Z) (unique_snapshots : bool) (sport : string)
        (events : list Feed.Event) (st : Store) :
  (forall game home_team away_team bookmaker_data,
      truthy_price (block_price bookmaker_data home_team) = false
      \/ truthy_price (block_price bookmaker_data away_team) = false ->
      snapshot_of_block game home_team away_team bookmaker_data = Ok None)
  /\ exists rows,
       odds_snapshots
         (fst (ingest_odds parse_commence_time utcnow unique_snapshots sport
                           events st))
       = odds_snapshots st ++ rows
       /\ Forall stored_valid rows.
Proof.
  split; [exact snapshot_of_block_skips|].
  rewrite ingest_odds_fold.
  destruct (ingest_loop_spec parse_commence_time utcnow unique_snapshots
                             sport events st 0)
    as (st2 & gs & rows & k & E2 & _ & Hs & _ & Hval & _).
  rewrite E2. exists rows. simpl. auto.
Qed.

Lemma ingest_stores_quoted_prices_witness :
  (forall game home_team away_team bookmaker_data,
      truthy_price (block_price bookmaker_data home_team) = false
      \/ truthy_price (block_price bookmaker_data away_team) = false ->
      snapshot_of_block game home_team away_team bookmaker_data = Ok None)
  /\ exists rows,
       odds_snapshots
         (fst (ingest_odds sample_parse sample_clock false "basketball_nba"
                           feed_plain empty_store))
       = odds_snapshots empty_store ++ rows
       /\ Forall stored_valid rows.
Proof.
  apply (ingest_stores_quoted_prices sample_parse sample_clock false
           "basketball_nba" feed_plain empty_store).
Defined.

(** C2 as stated fails: a pinnacle block quoting -2 on the home side is
    not skipped; its snapshot is written with home odds -2 and a home
    implied probability of -1/2. *)
Lemma ingest_stores_negative_price :
  block_price (h2h_block "pinnacle" "Lakers" "Celtics" (Some (-2)) (Some 2))
              "Lakers" = Some (Feed.Number (-2))
  /\ exists s,
       odds_snapshots
         (fst (ingest_odds sample_parse sample_clock false "basketball_nba"
                           feed_negative_price empty_store)) = [s]
       /\ OddsSnapshot.home_odds s = -2
       /\ OddsSnapshot.home_implied_prob s = -1 # 2
       /\ ~ 0 < OddsSnapshot.home_odds s
       /\ ~ 0 < OddsSnapshot.home_implied_prob s < 1.
Proof.
  split; [reflexivity|].
  eexists. split; [vm_compute; reflexivity|]. simpl.
  split; [reflexivity|]. split; [reflexivity|].
  split; [intro H; vm_compute in H; discriminate|].
  intros [H _]. vm_compute in H. discriminate.
Qed.

(* ================================================================== *)
(** * Further properties *)

(** ** Vig *)

Lemma or_zero_opt_value (d : option Q) : or_zero d == opt_value d.
Proof. apply or_zero_value. Qed.

Lemma calculate_vig_ok (home_prob away_prob : Q) (draw_prob : option Q) :
  exists v,
    calculate_vig home_prob away_prob draw_prob = Ok v
    /\ total_probability v = home_prob + away_prob + or_zero draw_prob
    /\ vig v = home_prob + away_prob + or_zero draw_prob - 1
    /\ (0 < total_probability v ->
        vig_percent v = vig v / total_probability v * 100)
    /\ (total_probability v <= 0 -> vig_percent v = 0).
Proof.
  unfold calculate_vig.
  destruct (Qltb 0 (home_prob + away_prob + or_zero draw_prob)) eqn:E.
  - apply Qltb_true in E. rewrite py_div_ok by lra. cbn [bind].
    eexists. split; [reflexivity|]. simpl.
    repeat split; auto. intro H. exfalso. lra.
  - apply Qltb_false in E. cbn [bind].
    eexists. split; [reflexivity|]. simpl.
    repeat split; auto. intro H. exfalso. lra.
Qed.

(** X1: [calculate_vig] never raises.  The vig is the total implied
    probability minus 1; the reported percentage is 0 for a total that is
    not positive, is always below 100, and is non-negative as soon as the
    total is at least 1. *)
Theorem calculate_vig_percent_range (home_prob away_prob : Q)
        (draw_prob : option Q) :
  exists v,
    calculate_vig home_prob away_prob draw_prob = Ok v
    /\ total_probability v == home_prob + away_prob + opt_value draw_prob
    /\ vig v == total_probability v - 1
    /\ vig_percent v < 100
    /\ (1 <= total_probability v -> 0 <= vig_percent v)
    /\ (total_probability v <= 0 -> vig_percent v = 0).
Proof.
  destruct (calculate_vig_ok home_prob away_prob draw_prob)
    as (v & E & Ht & Hv & Hpos & Hnonpos).
  exists v. split; [exact E|].
  split; [rewrite Ht, or_zero_opt_value; reflexivity|].
  split; [rewrite Hv, Ht; reflexivity|].
  assert (Hv' : vig v == total_probability v - 1) by (rewrite Hv, Ht; reflexivity).
  destruct (Qlt_le_dec 0 (total_probability v)) as [Hp | Hn].
  - rewrite (Hpos Hp).
    assert (Hi : 0 < / total_probability v) by (apply Qinv_lt_0_compat; exact Hp).
    assert (Hone : total_probability v * / total_probability v == 1)
      by (apply Qmult_inv_r; lra).
    assert (Hq : vig v / total_probability v == 1 - / total_probability v).
    { unfold Qdiv. rewrite Hv'.
      setoid_replace ((total_probability v - 1) * / total_probability v)
        with (total_probability v * / total_probability v - / total_probability v)
        by ring.
      rewrite Hone. reflexivity. }
    split; [rewrite Hq; lra|].
    split; [|intro H; exfalso; lra].
    intro H1. rewrite Hq.
    assert (Hle : / total_probability v <= 1).
    { assert (Hm : 1 * / total_probability v
                    <= total_probability v * / total_probability v)
        by (apply Qmult_le_compat_r; lra).
      rewrite Hone, Qmult_1_l in Hm. exact Hm. }
    lra.
  - rewrite (Hnonpos Hn).
    split; [reflexivity|]. split; [intro H; exfalso; lra | reflexivity].
Qed.

Lemma shrink_by_divisor (x t : Q) : 0 <= x -> 1 <= t -> 0 <= x / t <= x.
Proof.
  intros Hx Ht. assert (Hpos : 0 < t) by lra. split.
  - apply Qle_shift_div_l; [exact Hpos | lra].
  - apply Qle_shift_div_r; [exact Hpos|].
    assert (H : 0 <= x * (t - 1)) by (apply Qmult_le_0_compat; lra).
    setoid_replace (x * t) with (x + x * (t - 1)) by ring. lra.
Qed.

Lemma div_monotone (x y t : Q) : x <= y -> 0 < t -> x / t <= y / t.
Proof.
  intros Hxy Ht. unfold Qdiv. apply Qmult_le_compat_r; [exact Hxy|].
  apply Qlt_le_weak, Qinv_lt_0_compat. exact Ht.
Qed.

(** X2: removing a positive vig shrinks.  When the probabilities are not
    negative and sum to more than 1, [remove_vig] returns (it does not
    raise) fair probabilities that are not negative and not larger than
    the ones given, in the same order; the draw comes back absent when it
    was absent or 0, and the vig reported as removed is a percentage
    strictly between 0 and 100. *)
Theorem remove_vig_shrinks (home_prob away_prob : Q) (draw_prob : option Q) :
  0 <= home_prob -> 0 <= away_prob -> 0 <= opt_value draw_prob ->
  1 < home_prob + away_prob + opt_value draw_prob ->
  exists f,
    remove_vig home_prob away_prob draw_prob = Ok f
    /\ 0 <= fair_home f <= home_prob
    /\ 0 <= fair_away f <= away_prob
    /\ (home_prob <= away_prob -> fair_home f <= fair_away f)
    /\ match draw_prob with
       | Some d =>
           if Qeq_bool d 0 then fair_draw f = None
           else exists d', fair_draw f = Some d' /\ 0 <= d' <= d
       | None => fair_draw f = None
       end
    /\ 0 < vig_removed f < 100.
Proof.
  intros Hh Ha Hd Hsum.
  destruct (calculate_vig_ok home_prob away_prob draw_prob)
    as (v & E & Ht & Hv & Hpct & _).
  pose proof (or_zero_opt_value draw_prob) as Hoz.
  set (t := home_prob + away_prob + opt_value draw_prob) in *.
  assert (Htt : total_probability v == t) by (rewrite Ht, Hoz; reflexivity).
  assert (Hvt : vig v == t - 1) by (rewrite Hv, Hoz; reflexivity).
  assert (Hdt : 1 + vig v == t) by (rewrite Hvt; ring).
  assert (Hnz : ~ 1 + vig v == 0) by (rewrite Hdt; lra).
  assert (Hpercent : 0 < vig_percent v < 100).
  { rewrite Hpct by (rewrite Htt; lra). rewrite Hvt, Htt.
    assert (H0 : 0 < (t - 1) / t)
      by (apply Qlt_shift_div_l; [lra | lra]).
    assert (H1 : (t - 1) / t < 1)
      by (apply Qlt_shift_div_r; [lra | lra]).
    lra. }
  unfold remove_vig. rewrite E. cbn [bind].
  assert (Ez : Qeq_bool (vig v) 0 = false)
    by (apply Qeq_bool_false; rewrite Hvt; lra).
  rewrite Ez, !py_div_ok by exact Hnz. cbn [bind].
  assert (Hshrink : forall x, 0 <= x -> 0 <= x / (1 + vig v) <= x).
  { intros x Hx. rewrite Hdt. apply shrink_by_divisor; lra. }
  assert (Hmono : home_prob <= away_prob ->
                  home_prob / (1 + vig v) <= away_prob / (1 + vig v)).
  { intro H. rewrite !Hdt. apply div_monotone; lra. }
  destruct draw_prob as [d|]; [destruct (Qeq_bool d 0) eqn:Ed|].
  - cbn [bind]. eexists. split; [reflexivity|]. simpl.
    repeat split; try apply Hshrink; try apply Hpercent; auto.
  - rewrite py_div_ok by exact Hnz. cbn [bind].
    eexists. split; [reflexivity|]. simpl.
    split; [apply Hshrink; exact Hh|]. split; [apply Hshrink; exact Ha|].
    split; [exact Hmono|]. split; [|exact Hpercent].
    eexists. split; [reflexivity|]. apply Hshrink. exact Hd.
  - cbn [bind]. eexists. split; [reflexivity|]. simpl.
    repeat split; try apply Hshrink; try apply Hpercent; auto.
Qed.

Lemma remove_vig_shrinks_witness :
  exists f,
    remove_vig (3 # 5) (1 # 2) (Some (1 # 10)) = Ok f
    /\ 0 <= fair_home f <= 3 # 5
    /\ 0 <= fair_away f <= 1 # 2
    /\ ((3 # 5) <= (1 # 2) -> fair_home f <= fair_away f)
    /\ (if Qeq_bool (1 # 10) 0 then fair_draw f = None
        else exists d', fair_draw f = Some d' /\ 0 <= d' <= 1 # 10)
    /\ 0 < vig_removed f < 100.
Proof.
  apply (remove_vig_shrinks (3 # 5) (1 # 2) (Some (1 # 10)));
    vm_compute; (reflexivity || discriminate).
Defined.

(** X3: when the probabilities sum to zero, [remove_vig] raises
    [ZeroDivisionError]: the vig is -1, which is not the zero-vig branch,
    and the divisor [1 + vig] is 0. *)
Theorem remove_vig_zero_total_raises (home_prob away_prob : Q)
        (draw_prob : option Q) :
  home_prob + away_prob + opt_value draw_prob == 0 ->
  remove_vig home_prob away_prob draw_prob = Raise ZeroDivisionError.
Proof.
  intro Hz.
  destruct (calculate_vig_ok home_prob away_prob draw_prob)
    as (v & E & Ht & Hv & _ & _).
  pose proof (or_zero_opt_value draw_prob) as Hoz.
  assert (Hvt : vig v == -1) by (rewrite Hv, Hoz, Hz; reflexivity).
  unfold remove_vig. rewrite E. cbn [bind].
  assert (Ez : Qeq_bool (vig v) 0 = false).
  { apply Qeq_bool_false. rewrite Hvt. discriminate. }
  rewrite Ez. rewrite py_div_zero by (rewrite Hvt; reflexivity).
  reflexivity.
Qed.

Lemma remove_vig_zero_total_raises_witness :
  remove_vig (1 # 2) (-1 # 2) None = Raise ZeroDivisionError.
Proof.
  apply (remove_vig_zero_total_raises (1 # 2) (-1 # 2) None). reflexivity.
Defined.

(** ** The snapshot query *)

Lemma insert_desc_sorted (x : OddsSnapshot.t) (l : list OddsSnapshot.t) :
  StronglySorted newer_first l -> StronglySorted newer_first (insert_desc x l).
Proof.
  intro Hs. induction Hs as [|y l Hl IH Hy]; simpl.
  - constructor; constructor.
  - destruct (OddsSnapshot.snapshot_time x <? OddsSnapshot.snapshot_time y)%Z
      eqn:E.
    + apply Z.ltb_lt in E. constructor; [exact IH|].
      rewrite Forall_forall. intros z Hz. apply in_insert_desc in Hz.
      destruct Hz as [-> | Hz].
      * unfold newer_first. lia.
      * rewrite Forall_forall in Hy. apply (Hy z Hz).
    + apply Z.ltb_ge in E. constructor; [constructor; assumption|].
      constructor; [exact E|].
      rewrite Forall_forall in Hy |- *. intros z Hz.
      specialize (Hy z Hz). unfold newer_first in *. lia.
Qed.

(** X4: [get_latest_snapshot_for_game] returns exactly the snapshots of
    the game (each of them once, none of another game), newest first. *)
Theorem get_latest_snapshot_sorted (st : Store) (game_id : Z) :
  StronglySorted newer_first (get_latest_snapshot_for_game st game_id)
  /\ Permutation (get_latest_snapshot_for_game st game_id)
                 (game_snapshots st game_id)
  /\ Forall (fun s => OddsSnapshot.game_id s = game_id)
            (get_latest_snapshot_for_game st game_id).
Proof.
  unfold get_latest_snapshot_for_game, game_snapshots.
  split; [|split].
  - induction (filter _ (odds_snapshots st)) as [|x l IH]; simpl.
    + constructor.
    + apply insert_desc_sorted. exact IH.
  - apply order_by_desc_time_perm.
  - rewrite Forall_forall. intros s Hs.
    apply in_order_by_desc_time, filter_In in Hs.
    destruct Hs as [_ Hs]. now apply Z.eqb_eq.
Qed.

(** ** Consensus in both modes *)

Lemma average_snapshots_any (l : list OddsSnapshot.t) (use_sharp_only : bool) :
  l <> [] ->
  Forall (fun s => OddsSnapshot.draw_implied_prob s = None) l
  \/ Forall (fun s => OddsSnapshot.draw_implied_prob s <> None) l ->
  exists c,
    average_snapshots l use_sharp_only = Ok (Some c)
    /\ home_probability c = mean (map OddsSnapshot.home_implied_prob l)
    /\ away_probability c = mean (map OddsSnapshot.away_implied_prob l)
    /\ match draw_probability c with
       | Some d =>
           Forall (fun s => OddsSnapshot.draw_implied_prob s <> None) l
           /\ d = mean (map draw_or_zero l)
       | None => Forall (fun s => OddsSnapshot.draw_implied_prob s = None) l
       end
    /\ source_count c = List.length l
    /\ consensus_type c =
       if use_sharp_only then "sharp"%string else "all"%string.
Proof.
  intros Hne Hdraw.
  assert (Hlen : ~ len l == 0) by (apply len_nonzero; assumption).
  destruct l as [|s0 l']; [congruence|].
  unfold average_snapshots.
  rewrite !py_div_ok by assumption. cbn [bind].
  destruct Hdraw as [Hnone | Hsome].
  - assert (E0 : OddsSnapshot.draw_implied_prob s0 = None)
      by (inversion Hnone; assumption).
    rewrite E0. cbn [bind]. eexists. split; [reflexivity|].
    cbn [home_probability away_probability draw_probability source_count
         consensus_type].
    unfold mean. rewrite !len_map.
    split; [reflexivity|]. split; [reflexivity|]. split; [exact Hnone|].
    split; reflexivity.
  - assert (E0 : OddsSnapshot.draw_implied_prob s0 <> None)
      by (inversion Hsome; assumption).
    destruct (OddsSnapshot.draw_implied_prob s0) as [d0|] eqn:Ed; [|congruence].
    unfold py_sum_opt. rewrite (py_sum_opt_from_some _ 0 Hsome). cbn [bind].
    rewrite py_div_ok by assumption. cbn [bind].
    eexists. split; [reflexivity|].
    cbn [home_probability away_probability draw_probability source_count
         consensus_type].
    unfold mean. rewrite !len_map.
    split; [reflexivity|]. split; [reflexivity|].
    split; [split; [exact Hsome | reflexivity]|]. split; reflexivity.
Qed.

Lemma mean_single (x : Q) : mean [x] == x.
Proof.
  unfold mean, py_sum, len. simpl. field.
Qed.

(** X5: the consensus of a game with a single sharp snapshot is that
    snapshot's own implied probabilities, the draw included. *)
Theorem consensus_of_single_snapshot (st : Store) (game_id : Z)
        (s : OddsSnapshot.t) :
  matching_sharp st game_id = [s] ->
  exists c,
    get_market_consensus st game_id true = Ok (Some c)
    /\ home_probability c == OddsSnapshot.home_implied_prob s
    /\ away_probability c == OddsSnapshot.away_implied_prob s
    /\ match draw_probability c, OddsSnapshot.draw_implied_prob s with
       | Some d, Some d' => d == d'
       | None, None => True
       | _, _ => False
       end
    /\ source_count c = 1%nat.
Proof.
  intro Hs.
  pose proof (sharp_latest_perm st game_id) as Hperm. rewrite Hs in Hperm.
  apply Permutation_sym, Permutation_length_1_inv in Hperm.
  assert (Hdraw :
            Forall (fun s => OddsSnapshot.draw_implied_prob s = None) [s]
            \/ Forall (fun s => OddsSnapshot.draw_implied_prob s <> None) [s]).
  { destruct (OddsSnapshot.draw_implied_prob s) eqn:E;
      [right | left]; constructor; try constructor; congruence. }
  destruct (average_snapshots_any [s] true ltac:(discriminate) Hdraw)
    as (c & Hc & Hh & Ha & Hd & Hn & _).
  exists c. split.
  - unfold get_market_consensus.
    destruct (get_latest_snapshot_for_game st game_id) as [|s0 l] eqn:El;
      [discriminate|].
    rewrite Hperm. exact Hc.
  - split; [rewrite Hh; apply mean_single|].
    split; [rewrite Ha; apply mean_single|].
    split; [|exact Hn].
    destruct (draw_probability c) as [d|].
    + destruct Hd as [Hall ->]. inversion Hall as [|? ? Hsome _]; subst.
      unfold draw_or_zero. simpl.
      destruct (OddsSnapshot.draw_implied_prob s) as [d'|]; [|congruence].
      apply mean_single.
    + inversion Hd as [|? ? Hnone _]; subst. rewrite Hnone. exact I.
Qed.

Lemma consensus_of_single_snapshot_witness :
  exists c,
    get_market_consensus store_with_vig 1 true = Ok (Some c)
    /\ home_probability c ==
       OddsSnapshot.home_implied_prob
         (sample_snapshot 1 1 "pinnacle" (5 # 3) 2 None 10)
    /\ away_probability c ==
       OddsSnapshot.away_implied_prob
         (sample_snapshot 1 1 "pinnacle" (5 # 3) 2 None 10)
    /\ match draw_probability c,
             OddsSnapshot.draw_implied_prob
               (sample_snapshot 1 1 "pinnacle" (5 # 3) 2 None 10) with
       | Some d, Some d' => d == d'
       | None, None => True
       | _, _ => False
       end
    /\ source_count c = 1%nat.
Proof.
  apply (consensus_of_single_snapshot store_with_vig 1
           (sample_snapshot 1 1 "pinnacle" (5 # 3) 2 None 10)).
  reflexivity.
Defined.

(** X6: with [use_sharp_only=False] the consensus of a game that has
    snapshots (all with a draw price, or all without) averages the implied
    probabilities of all its snapshots, whatever the bookmaker, counts
    them all as sources and is tagged ['all']. *)
Theorem consensus_all_books (st : Store) (game_id : Z) :
  game_snapshots st game_id <> [] ->
  Forall (fun s => OddsSnapshot.draw_implied_prob s = None)
         (game_snapshots st game_id)
  \/ Forall (fun s => OddsSnapshot.draw_implied_prob s <> None)
            (game_snapshots st game_id) ->
  exists c,
    get_market_consensus st game_id false = Ok (Some c)
    /\ home_probability c ==
       mean (map OddsSnapshot.home_implied_prob (game_snapshots st game_id))
    /\ away_probability c ==
       mean (map OddsSnapshot.away_implied_prob (game_snapshots st game_id))
    /\ source_count c = List.length (game_snapshots st game_id)
    /\ consensus_type c = "all"%string.
Proof.
  intros Hne Hdraw.
  assert (Hperm : Permutation (get_latest_snapshot_for_game st game_id)
                              (game_snapshots st game_id))
    by apply order_by_desc_time_perm.
  set (gs := game_snapshots st game_id) in *.
  set (latest := get_latest_snapshot_for_game st game_id) in *.
  assert (Hne' : latest <> []).
  { intro E. rewrite E in Hperm. apply Permutation_nil in Hperm. congruence. }
  assert (Hdraw' :
            Forall (fun s => OddsSnapshot.draw_implied_prob s = None) latest
            \/ Forall (fun s => OddsSnapshot.draw_implied_prob s <> None) latest).
  { destruct Hdraw as [H | H]; [left | right];
      apply (Permutation_Forall (Permutation_sym Hperm) H). }
  destruct (average_snapshots_any latest false Hne' Hdraw')
    as (c & Hc & Hh & Ha & _ & Hn & Ht).
  exists c. split.
  - unfold get_market_consensus. fold latest.
    destruct latest as [|s0 l]; [congruence | exact Hc].
  - split; [rewrite Hh; apply mean_perm, Permutation_map, Hperm|].
    split; [rewrite Ha; apply mean_perm, Permutation_map, Hperm|].
    split; [rewrite Hn; apply Permutation_length, Hperm | exact Ht].
Qed.

Lemma consensus_all_books_witness :
  exists c,
    get_market_consensus store_with_edge 1 false = Ok (Some c)
    /\ home_probability c ==
       mean (map OddsSnapshot.home_implied_prob (game_snapshots store_with_edge 1))
    /\ away_probability c ==
       mean (map OddsSnapshot.away_implied_prob (game_snapshots store_with_edge 1))
    /\ source_count c = List.length (game_snapshots store_with_edge 1)
    /\ consensus_type c = "all"%string.
Proof.
  apply (consensus_all_books store_with_edge 1).
  - vm_compute. discriminate.
  - left. vm_compute. repeat constructor.
Defined.

(** ** Discrepancies *)

Lemma check_snapshot_sound (c : Consensus) (min_edge : Q)
      (P : Disc.t -> Prop) (acc ds : list Disc.t) (snap : OddsSnapshot.t) :
  (forall d, disc_from c min_edge snap d -> P d) ->
  check_snapshot c min_edge acc snap = Ok ds ->
  Forall P acc -> Forall P ds.
Proof.
  unfold check_snapshot. intros HP H Hacc.
  apply bind_inv in H. destruct H as (hf & _ & H).
  apply bind_inv in H. destruct H as (hr & _ & H).
  apply bind_inv in H. destruct H as (af & _ & H).
  apply bind_inv in H. destruct H as (ar & _ & H).
  assert (Hhome : Forall P
            (if Qgeb ((hr - 1) * 100) min_edge
             then acc ++ [Disc.mk (OddsSnapshot.bookmaker snap) "Home"
                            (OddsSnapshot.home_odds snap) hf ((hr - 1) * 100)
                            (OddsSnapshot.home_implied_prob snap)
                            (home_probability c)]
             else acc)).
  { destruct (Qgeb ((hr - 1) * 100) min_edge) eqn:E; [|exact Hacc].
    apply Forall_app. split; [exact Hacc|]. constructor; [|constructor].
    apply HP. unfold disc_from. simpl.
    split; [apply Qgeb_true; exact E|]. split; [reflexivity|]. left. auto. }
  destruct (Qgeb ((ar - 1) * 100) min_edge) eqn:E;
    injection H as <-; [|exact Hhome].
  apply Forall_app. split; [exact Hhome|]. constructor; [|constructor].
  apply HP. unfold disc_from. simpl.
  split; [apply Qgeb_true; exact E|]. split; [reflexivity|]. right. auto.
Qed.

Lemma check_snapshots_sound (c : Consensus) (min_edge : Q)
      (P : Disc.t -> Prop) (soft : list OddsSnapshot.t) :
  (forall snap d, In snap soft -> disc_from c min_edge snap d -> P d) ->
  forall acc ds,
    check_snapshots c min_edge acc soft = Ok ds ->
    Forall P acc -> Forall P ds.
Proof.
  induction soft as [|snap rest IH]; intros HP acc ds H Hacc; simpl in H.
  - injection H as <-. exact Hacc.
  - apply bind_inv in H. destruct H as (acc' & H1 & H2).
    apply (IH (fun s d Hs => HP s d (or_intror Hs)) acc' ds H2).
    apply (check_snapshot_sound c min_edge P acc acc' snap
             (fun d => HP snap d (or_introl eq_refl)) H1 Hacc).
Qed.

Lemma identify_discs_from (st : Store) (game_id : Z)
      (min_edge_percent : Q) (ds : list Disc.t) :
  identify_soft_book_discrepancies st game_id min_edge_percent = Ok ds ->
  forall d, In d ds ->
    exists c snap,
      get_market_consensus st game_id true = Ok (Some c)
      /\ In snap (odds_snapshots st)
      /\ OddsSnapshot.game_id snap = game_id
      /\ In (OddsSnapshot.bookmaker snap) SOFT_BOOKS
      /\ disc_from c min_edge_percent snap d.
Proof.
  unfold identify_soft_book_discrepancies. intro H.
  apply bind_inv in H. destruct H as (oc & Hc & H).
  destruct oc as [c|]; [|injection H as <-; intros d []].
  pose proof (check_snapshots_sound c min_edge_percent
    (fun d => exists c' snap,
       Ok (Some c) = Ok (Some c')
       /\ In snap (odds_snapshots st)
       /\ OddsSnapshot.game_id snap = game_id
       /\ In (OddsSnapshot.bookmaker snap) SOFT_BOOKS
       /\ disc_from c' min_edge_percent snap d)
    (filter is_soft (get_latest_snapshot_for_game st game_id))) as Hall.
  intros d Hd.
  assert (HF : Forall
    (fun d => exists c' snap,
       Ok (Some c) = Ok (Some c')
       /\ In snap (odds_snapshots st)
       /\ OddsSnapshot.game_id snap = game_id
       /\ In (OddsSnapshot.bookmaker snap) SOFT_BOOKS
       /\ disc_from c' min_edge_percent snap d) ds).
  { apply (Hall) with (acc := []); [|exact H|constructor].
    intros snap d' Hsnap Hfrom. exists c, snap.
    apply filter_In in Hsnap. destruct Hsnap as [Hin Hsoft].
    apply in_get_latest in Hin. destruct Hin as [Hin Hg].
    split; [reflexivity|]. split; [exact Hin|]. split; [exact Hg|].
    split; [|exact Hfrom].
    unfold is_soft, in_books in Hsoft. apply existsb_exists in Hsoft.
    destruct Hsoft as (b & Hb & Heq). apply String.eqb_eq in Heq.
    rewrite Heq. exact Hb. }
  rewrite Forall_forall in HF. destruct (HF d Hd) as (c' & snap & E & Hrest).
  exists c', snap. split; [rewrite Hc; exact E | exact Hrest].
Qed.

(** X7: every discrepancy returned by [identify_soft_book_discrepancies]
    has an edge of at least [min_edge_percent] and is the home or the away
    side of a stored snapshot of that game from one of the four soft
    books: it carries that snapshot's bookmaker, odds and implied
    probability, and the consensus probability of its side. *)
Theorem discrepancies_are_sound (st : Store) (game_id : Z)
        (min_edge_percent : Q) (ds : list Disc.t) :
  identify_soft_book_discrepancies st game_id min_edge_percent = Ok ds ->
  forall d, In d ds ->
    exists c snap,
      get_market_consensus st game_id true = Ok (Some c)
      /\ In snap (odds_snapshots st)
      /\ OddsSnapshot.game_id snap = game_id
      /\ In (OddsSnapshot.bookmaker snap) SOFT_BOOKS
      /\ disc_from c min_edge_percent snap d.
Proof.
  exact (identify_discs_from st game_id min_edge_percent ds).
Qed.

Lemma discrepancies_are_sound_witness :
  exists c snap,
    get_market_consensus store_with_edge 1 true = Ok (Some c)
    /\ In snap (odds_snapshots store_with_edge)
    /\ OddsSnapshot.game_id snap = 1%Z
    /\ In (OddsSnapshot.bookmaker snap) SOFT_BOOKS
    /\ disc_from c 5 snap
         (Disc.mk "draftkings" "Home" (9 # 5) (5 # 3) (200 # 25) (5 # 9) (3 # 5)).
Proof.
  apply (discrepancies_are_sound store_with_edge 1 5
           [Disc.mk "draftkings" "Home" (9 # 5) (5 # 3) (200 # 25) (5 # 9) (3 # 5)]).
  - vm_compute. reflexivity.
  - left. reflexivity.
Defined.

(** X8: there is no guard on the consensus probabilities: when the home
    or the away consensus probability of a game is zero and the game has
    a snapshot from a soft book, [identify_soft_book_discrepancies] raises
    [ZeroDivisionError]. *)
Theorem discrepancies_zero_consensus_raises (st : Store) (game_id : Z)
        (min_edge_percent : Q) (c : Consensus) (snap : OddsSnapshot.t) :
  get_market_consensus st game_id true = Ok (Some c) ->
  home_probability c == 0 \/ away_probability c == 0 ->
  In snap (odds_snapshots st) ->
  OddsSnapshot.game_id snap = game_id ->
  is_soft snap = true ->
  identify_soft_book_discrepancies st game_id min_edge_percent
  = Raise ZeroDivisionError.
Proof.
  intros Hc Hzero Hin Hg Hsoft.
  unfold identify_soft_book_discrepancies. rewrite Hc. cbn [bind].
  assert (Hne : In snap (filter is_soft (get_latest_snapshot_for_game st game_id))).
  { apply filter_In. split; [|exact Hsoft]. apply in_get_latest. auto. }
  destruct (filter is_soft (get_latest_snapshot_for_game st game_id))
    as [|s0 rest]; [destruct Hne|].
  cbn [check_snapshots].
  assert (E : check_snapshot c min_edge_percent [] s0 = Raise ZeroDivisionError).
  { unfold check_snapshot.
    destruct (Qeq_bool (home_probability c) 0) eqn:Eh.
    - apply Qeq_bool_iff in Eh. rewrite (py_div_zero 1 _ Eh). reflexivity.
    - apply Qeq_bool_false in Eh.
      destruct Hzero as [Hz | Hz]; [contradiction|].
      rewrite (py_div_ok 1 _ Eh). cbn [bind].
      assert (Hf : ~ 1 / home_probability c == 0).
      { intro H. apply Eh.
        assert (H1 : 1 / home_probability c * home_probability c == 1)
          by (field; exact Eh).
        rewrite H in H1. rewrite Qmult_0_l in H1. discriminate. }
      rewrite (py_div_ok _ _ Hf). cbn [bind].
      rewrite (py_div_zero 1 _ Hz). reflexivity. }
  rewrite E. reflexivity.
Qed.

Lemma discrepancies_zero_consensus_raises_witness :
  identify_soft_book_discrepancies store_zero_consensus 1 5
  = Raise ZeroDivisionError.
Proof.
  apply (discrepancies_zero_consensus_raises store_zero_consensus 1 5
           {| home_probability := 0 # 8;
              away_probability := 4 # 8;
              draw_probability := None;
              source_count := 2;
              consensus_type := "sharp" |}
           (sample_snapshot 3 1 "draftkings" 2 2 None 30)).
  - vm_compute. reflexivity.
  - left. reflexivity.
  - right. right. left. reflexivity.
  - reflexivity.
  - reflexivity.
Defined.

(** ** What the scan records *)

Lemma kelly_in_range (p o bankroll kf s : Q) :
  0 <= bankroll ->
  calculate_kelly_bet p o bankroll kf = Ok s ->
  0 <= s <= bankroll * MAX_BET_PERCENT.
Proof.
  intros Hb H.
  assert (Hcap : 0 <= bankroll * MAX_BET_PERCENT).
  { apply Qmult_le_0_compat; [assumption | unfold MAX_BET_PERCENT; lra]. }
  destruct (Qlt_le_dec 1 o) as [Hgain | Hno].
  - rewrite (kelly_gain _ _ _ _ Hgain) in H. injection H as <-.
    split; [apply py_max_0_nonneg|].
    apply py_max_0_le; [assumption | apply py_min_le_r].
  - rewrite (kelly_no_gain _ _ _ _ Hno) in H. injection H as <-.
    split; [apply Qle_refl | assumption].
Qed.

Lemma record_discrepancies_selected (st : Store) (utcnow : Z)
      (min_edge min_probability : Q) (game : Game.t) (c : Consensus)
      (discs : list Disc.t) :
  In game (games st) ->
  Game.result game = None ->
  (utcnow < Game.commence_time game)%Z ->
  (forall d, In d discs ->
     exists snap, In (OddsSnapshot.bookmaker snap) SOFT_BOOKS
                  /\ disc_from c min_edge snap d) ->
  forall acc vbs,
    record_discrepancies game c min_probability acc discs = Ok vbs ->
    Forall (fun vb => value_bet_selected st utcnow min_edge min_probability vb
                      /\ value_bet_staked vb) acc ->
    Forall (fun vb => value_bet_selected st utcnow min_edge min_probability vb
                      /\ value_bet_staked vb) vbs.
Proof.
  intros Hin Hres Hfut. induction discs as [|d rest IH]; intros Hds acc vbs H Hacc.
  - simpl in H. injection H as <-. exact Hacc.
  - simpl in H.
    assert (Hrest : forall d', In d' rest ->
              exists snap, In (OddsSnapshot.bookmaker snap) SOFT_BOOKS
                           /\ disc_from c min_edge snap d')
      by (intros d' Hd'; apply Hds; right; exact Hd').
    destruct (Qltb _ min_probability) eqn:Ep in H;
      [apply (IH Hrest acc vbs H Hacc)|].
    apply Qltb_false in Ep.
    apply bind_inv in H. destruct H as (kelly_bet & Hk & H).
    apply (IH Hrest _ vbs H). apply Forall_app. split; [exact Hacc|].
    constructor; [|constructor].
    destruct (Hds d (or_introl eq_refl)) as (snap & Hsoft & Hedge & Hbook & Hside).
    split.
    + unfold value_bet_selected. cbn.
      split; [exists game; repeat split; assumption || reflexivity|].
      split; [destruct Hside as [(Hs & _) | (Hs & _)]; [left | right]; exact Hs|].
      split; [exact Ep|]. split; [exact Hedge|].
      split; [rewrite Hbook; exact Hsoft|].
      split; [|repeat split; reflexivity].
      destruct Hside as [(Hs & _ & _ & Hc) | (Hs & _ & _ & Hc)];
        rewrite Hc, Hs; reflexivity.
    + unfold value_bet_staked. cbn. split; [exact Hk|].
      apply kelly_in_range in Hk; [|unfold DEFAULT_BANKROLL; lra].
      unfold DEFAULT_BANKROLL, MAX_BET_PERCENT in Hk. lra.
Qed.

Lemma scan_games_selected (st : Store) (utcnow : Z)
      (min_edge min_probability : Q) (gs : list Game.t) :
  (forall g, In g gs ->
     In g (games st) /\ Game.result g = None
     /\ (utcnow < Game.commence_time g)%Z) ->
  forall acc vbs,
    scan_games st min_edge min_probability acc gs = Ok vbs ->
    Forall (fun vb => value_bet_selected st utcnow min_edge min_probability vb
                      /\ value_bet_staked vb) acc ->
    Forall (fun vb => value_bet_selected st utcnow min_edge min_probability vb
                      /\ value_bet_staked vb) vbs.
Proof.
  induction gs as [|game rest IH]; intros Hgs acc vbs H Hacc; simpl in H.
  - injection H as <-. exact Hacc.
  - assert (Hrest : forall g, In g rest ->
              In g (games st) /\ Game.result g = None
              /\ (utcnow < Game.commence_time g)%Z)
      by (intros g Hg; apply Hgs; right; exact Hg).
    destruct (Hgs game (or_introl eq_refl)) as (Hin & Hres & Hfut).
    apply bind_inv in H. destruct H as (oc & Hc & H).
    destruct oc as [c|]; [|apply (IH Hrest acc vbs H Hacc)].
    apply bind_inv in H. destruct H as (ds & Hds & H).
    apply bind_inv in H. destruct H as (acc' & Hrec & H).
    apply (IH Hrest acc' vbs H).
    apply (record_discrepancies_selected st utcnow min_edge min_probability
             game c ds Hin Hres Hfut) with (acc := acc);
      [|exact Hrec|exact Hacc].
    intros d Hd.
    destruct (identify_discs_from st (Game.id game) min_edge ds Hds d Hd)
      as (c' & snap & Hc' & _ & _ & Hsoft & Hfrom).
    rewrite Hc in Hc'. injection Hc' as <-. exists snap. auto.
Qed.

Lemma find_value_bets_all (st : Store) (utcnow : Z)
      (min_edge min_probability : Q) (st' : Store) (bets : list ValueBet.t) :
  find_value_bets st utcnow min_edge min_probability = Ok (st', bets) ->
  Forall (fun vb => value_bet_selected st utcnow min_edge min_probability vb
                    /\ value_bet_staked vb) bets.
Proof.
  unfold find_value_bets. intro H.
  apply bind_inv in H. destruct H as (found & Hscan & H).
  injection H as _ <-.
  eapply scan_games_selected with (acc := []); [|exact Hscan|constructor].
  intros g Hg. apply filter_In in Hg. destruct Hg as [Hin Hf].
  apply andb_true_iff in Hf. destruct Hf as [Hres Hfut].
  split; [exact Hin|]. split; [|apply Z.ltb_lt; exact Hfut].
  destruct (Game.result g); [discriminate | reflexivity].
Qed.

(** X9: every value bet recorded by [find_value_bets] belongs to a stored
    game with no result and a start time after the clock reading, copies
    that game's team names, selects the home or the away side at a soft
    book, has a probability of at least [min_probability] and an edge of
    at least [min_edge_percent], stores the consensus probability both as
    [my_probability] and as [market_probability], and is created unplaced
    and unsettled with the configured Kelly fraction. *)
Theorem value_bets_meet_thresholds (st : Store) (utcnow : Z)
        (min_edge_percent min_probability : Q)
        (st' : Store) (bets : list ValueBet.t) :
  find_value_bets st utcnow min_edge_percent min_probability = Ok (st', bets) ->
  forall vb, In vb bets ->
    value_bet_selected st utcnow min_edge_percent min_probability vb.
Proof.
  intros H vb Hvb.
  pose proof (find_value_bets_all st utcnow min_edge_percent min_probability
                st' bets H) as Hall.
  rewrite Forall_forall in Hall. apply (Hall vb Hvb).
Qed.

Lemma value_bets_meet_thresholds_witness :
  value_bet_selected store_with_edge 0 MIN_EDGE_PERCENT MIN_PROBABILITY
                     sample_value_bet.
Proof.
  apply (value_bets_meet_thresholds store_with_edge 0 MIN_EDGE_PERCENT
           MIN_PROBABILITY
           {| games := games store_with_edge;
              odds_snapshots := odds_snapshots store_with_edge;
              value_bets := [sample_value_bet] |}
           [sample_value_bet]).
  - vm_compute. reflexivity.
  - left. reflexivity.
Defined.

(** X10: the recommended stake of every value bet recorded by
    [find_value_bets] is the Kelly stake of its probability and offered
    odds on the default bankroll of 1000 with the configured fraction,
    and lies between 0 and 50 (5 percent of that bankroll). *)
Theorem value_bets_stake_capped (st : Store) (utcnow : Z)
        (min_edge_percent min_probability : Q)
        (st' : Store) (bets : list ValueBet.t) :
  find_value_bets st utcnow min_edge_percent min_probability = Ok (st', bets) ->
  forall vb, In vb bets ->
    calculate_kelly_bet (ValueBet.my_probability vb) (ValueBet.offered_odds vb)
                        DEFAULT_BANKROLL KELLY_FRACTION
    = Ok (ValueBet.recommended_stake vb)
    /\ 0 <= ValueBet.recommended_stake vb <= 50.
Proof.
  intros H vb Hvb.
  pose proof (find_value_bets_all st utcnow min_edge_percent min_probability
                st' bets H) as Hall.
  rewrite Forall_forall in Hall. apply (Hall vb Hvb).
Qed.

Lemma value_bets_stake_capped_witness :
  calculate_kelly_bet (ValueBet.my_probability sample_value_bet)
                      (ValueBet.offered_odds sample_value_bet)
                      DEFAULT_BANKROLL KELLY_FRACTION
  = Ok (ValueBet.recommended_stake sample_value_bet)
  /\ 0 <= ValueBet.recommended_stake sample_value_bet <= 50.
Proof.
  apply (value_bets_stake_capped store_with_edge 0 MIN_EDGE_PERCENT
           MIN_PROBABILITY
           {| games := games store_with_edge;
              odds_snapshots := odds_snapshots store_with_edge;
              value_bets := [sample_value_bet] |}
           [sample_value_bet]).
  - vm_compute. reflexivity.
  - left. reflexivity.
Defined.

(** The analysis reads the snapshot table only. *)

Lemma get_latest_ext (st1 st2 : Store) (game_id : Z) :
  odds_snapshots st1 = odds_snapshots st2 ->
  get_latest_snapshot_for_game st1 game_id =
  get_latest_snapshot_for_game st2 game_id.
Proof. intro E. unfold get_latest_snapshot_for_game. now rewrite E. Qed.

Lemma consensus_ext (st1 st2 : Store) (game_id : Z) (b : bool) :
  odds_snapshots st1 = odds_snapshots st2 ->
  get_market_consensus st1 game_id b = get_market_consensus st2 game_id b.
Proof.
  intro E. unfold get_market_consensus.
  now rewrite (get_latest_ext st1 st2 game_id E).
Qed.

Lemma identify_ext (st1 st2 : Store) (game_id : Z) (m : Q) :
  odds_snapshots st1 = odds_snapshots st2 ->
  identify_soft_book_discrepancies st1 game_id m =
  identify_soft_book_discrepancies st2 game_id m.
Proof.
  intro E. unfold identify_soft_book_discrepancies.
  now rewrite (get_latest_ext st1 st2 game_id E),
              (consensus_ext st1 st2 game_id true E).
Qed.

Lemma scan_games_ext (st1 st2 : Store) (m p : Q) (gs : list Game.t) :
  odds_snapshots st1 = odds_snapshots st2 ->
  forall acc, scan_games st1 m p acc gs = scan_games st2 m p acc gs.
Proof.
  intro E. induction gs as [|g rest IH]; intro acc; simpl; [reflexivity|].
  rewrite (consensus_ext st1 st2 (Game.id g) true E),
          (identify_ext st1 st2 (Game.id g) m E).
  destruct (get_market_consensus st2 (Game.id g) true) as [[c|]|e];
    cbn [bind]; [|apply IH|reflexivity].
  destruct (identify_soft_book_discrepancies st2 (Game.id g) m) as [ds|e];
    cbn [bind]; [|reflexivity].
  destruct (record_discrepancies g c p acc ds) as [acc'|e];
    cbn [bind]; [apply IH | reflexivity].
Qed.

(** X11: [find_value_bets] changes neither games nor snapshots and keeps
    no memory of what it recorded: run again on the store it returned,
    with the same clock reading and thresholds, it finds the same value
    bets and records them a second time. *)
Theorem find_value_bets_rerun_duplicates (st : Store) (utcnow : Z)
        (min_edge_percent min_probability : Q)
        (st' : Store) (bets : list ValueBet.t) :
  find_value_bets st utcnow min_edge_percent min_probability = Ok (st', bets) ->
  games st' = games st
  /\ odds_snapshots st' = odds_snapshots st
  /\ exists st'',
       find_value_bets st' utcnow min_edge_percent min_probability
       = Ok (st'', bets)
       /\ value_bets st'' = value_bets st ++ bets ++ bets.
Proof.
  unfold find_value_bets. intro H.
  apply bind_inv in H. destruct H as (found & Hscan & H).
  injection H as <- <-. cbn [games odds_snapshots value_bets].
  split; [reflexivity|]. split; [reflexivity|].
  rewrite (scan_games_ext
             {| games := games st;
                odds_snapshots := odds_snapshots st;
                value_bets := value_bets st ++ found |}
             st min_edge_percent min_probability _ eq_refl).
  rewrite Hscan. cbn [bind]. eexists. split; [reflexivity|].
  cbn [value_bets]. now rewrite <- app_assoc.
Qed.

Lemma find_value_bets_rerun_duplicates_witness :
  games {| games := games store_with_edge;
           odds_snapshots := odds_snapshots store_with_edge;
           value_bets := [sample_value_bet] |} = games store_with_edge
  /\ odds_snapshots {| games := games store_with_edge;
                       odds_snapshots := odds_snapshots store_with_edge;
                       value_bets := [sample_value_bet] |}
     = odds_snapshots store_with_edge
  /\ exists st'',
       find_value_bets {| games := games store_with_edge;
                          odds_snapshots := odds_snapshots store_with_edge;
                          value_bets := [sample_value_bet] |}
                       0 MIN_EDGE_PERCENT MIN_PROBABILITY
       = Ok (st'', [sample_value_bet])
       /\ value_bets st'' =
          value_bets store_with_edge ++ [sample_value_bet] ++ [sample_value_bet].
Proof.
  apply (find_value_bets_rerun_duplicates store_with_edge 0 MIN_EDGE_PERCENT
           MIN_PROBABILITY).
  vm_compute. reflexivity.
Defined.

(** ** Ingestion, event by event *)

Lemma snapshot_of_block_ingested (game : Game.t) (home_team away_team : string)
      (bookmaker_data : Feed.Bookmaker) (p : PendingSnapshot) :
  snapshot_of_block game home_team away_team bookmaker_data = Ok (Some p) ->
  pending_ingested game p.
Proof.
  unfold snapshot_of_block.
  destruct (Feed.key bookmaker_data) as [k|]; [|discriminate].
  destruct (String.eqb k EmptyString); [discriminate|].
  destruct (in_books k ALL_BOOKS) eqn:Ek; cbn [negb]; [|discriminate].
  destruct (Feed.markets bookmaker_data) as [|market rest]; [discriminate|].
  destruct (Feed.outcomes market) as [|o os] eqn:Eo; [discriminate|].
  rewrite <- Eo.
  destruct (negb _ || negb _); [discriminate|].
  destruct (outcome_map_get (Feed.outcomes market) home_team) as [[h|]|];
    try discriminate.
  destruct (outcome_map_get (Feed.outcomes market) away_team) as [[a|]|];
    try discriminate.
  intro H.
  apply bind_inv in H. destruct H as (hp & _ & H).
  apply bind_inv in H. destruct H as (ap & _ & H).
  apply bind_inv in H. destruct H as (dp & Hd & H).
  injection H as <-. unfold pending_ingested. cbn.
  split; [|split; [reflexivity|]].
  - unfold in_books in Ek. apply existsb_exists in Ek.
    destruct Ek as (b & Hb & Heq). apply String.eqb_eq in Heq.
    rewrite Heq. exact Hb.
  - destruct (outcome_map_get (Feed.outcomes market) "Draw") as [[d|]|];
      cbn [truthy_price price_number py_div_price bind] in *;
      try discriminate.
    + destruct (Qeq_bool d 0) eqn:Ed; cbn [negb] in Hd.
      * injection Hd as <-. reflexivity.
      * apply bind_inv in Hd. destruct Hd as (x & Hx & Hd).
        injection Hd as <-.
        apply py_div_inv in Hx. destruct Hx as [-> _]. reflexivity.
    + injection Hd as <-. reflexivity.
Qed.

Lemma ingest_bookmakers_ingested (game : Game.t) (home_team away_team : string)
      (bookmakers : list Feed.Bookmaker) :
  forall pending n n' pending',
    ingest_bookmakers game home_team away_team pending n bookmakers
    = (n', Ok pending') ->
    Forall (pending_ingested game) pending ->
    Forall (pending_ingested game) pending'.
Proof.
  induction bookmakers as [|bd rest IH]; intros pending n n' pending' H Hp;
    simpl in H.
  - injection H as _ <-. exact Hp.
  - destruct (snapshot_of_block game home_team away_team bd) as [[p|]|e] eqn:E.
    + apply (IH _ _ _ _ H). apply Forall_app. split; [exact Hp|].
      constructor; [|constructor].
      apply (snapshot_of_block_ingested _ _ _ _ _ E).
    + apply (IH _ _ _ _ H Hp).
    + discriminate.
Qed.

Lemma next_id_above (ids : list Z) (k : Z) : In k ids -> (k < next_id ids)%Z.
Proof.
  unfold next_id. induction ids as [|a ids IH]; cbn [fold_right In];
    [intros []|].
  pose proof (Z.le_max_l a (fold_right Z.max 0%Z ids)).
  pose proof (Z.le_max_r a (fold_right Z.max 0%Z ids)).
  intros [<- | Hk]; [lia|]. specialize (IH Hk). lia.
Qed.

Lemma next_id_fresh (ids : list Z) : ~ In (next_id ids) ids.
Proof.
  intro H. apply next_id_above in H. lia.
Qed.

Section IngestionSteps.

Variable parse_commence_time : string -> option Z.
Variable utcnow : Z -> Z.
Variable unique_snapshots : bool.

Lemma ingest_event_outcome (sport : string) (st : Store) (n : nat)
      (event : Feed.Event) :
  event_outcome parse_commence_time utcnow unique_snapshots sport st n event
    (ingest_event parse_commence_time utcnow unique_snapshots sport (st, n)
                  event).
Proof.
  destruct (event_usable parse_commence_time event) eqn:Eu.
  - destruct (event_usable_fields parse_commence_time event Eu)
      as (i & h & a & cts & t & Ei & Eh & Ea & Ec & Ep & Ef).
    unfold ingest_event. rewrite Ef. rewrite Ei, Eh, Ea, Ec, Ep. cbn [negb].
    assert (Hup : forall game st1,
              Game.odds_api_id game = i ->
              (game_by_odds_api_id st i = Some game /\ st1 = st)
              \/ (game_by_odds_api_id st i = None
                  /\ game = Game.mk (next_id (map Game.id (games st))) i
                                    (upper sport) h a t None
                  /\ st1 = {| games := games st ++ [game];
                              odds_snapshots := odds_snapshots st;
                              value_bets := value_bets st |}) ->
              upserted parse_commence_time sport st event h a game st1).
    { intros game st1 Hid Hcase. exists i, cts, t.
      repeat (split; [assumption|]). exact Hcase. }
    assert (Hrest : forall game st1,
              upserted parse_commence_time sport st event h a game st1 ->
              event_outcome parse_commence_time utcnow unique_snapshots sport
                st n event
                match Feed.bookmakers event with
                | [] => (st1, n)
                | _ :: _ =>
                    let (ingested_count', added) :=
                      ingest_bookmakers game h a [] n (Feed.bookmakers event) in
                    match added with
                    | Ok pending =>
                        match commit_snapshots utcnow unique_snapshots st1
                                               pending with
                        | Ok st2 => (st2, ingested_count')
                        | Raise _ => (st1, ingested_count')
                        end
                    | Raise _ => (st1, ingested_count')
                    end
                end).
    { intros game st1 Hu.
      destruct (Feed.bookmakers event) as [|bd bds] eqn:Eb.
      - apply (event_without_quotes _ _ _ _ _ _ _ h a game st1 Hu Eb).
      - destruct (ingest_bookmakers_spec game h a (bd :: bds) [] n)
          as [(added & Eadd & _) | (k & e & Eraise)].
        + cbn [app] in Eadd. rewrite Eadd. rewrite <- Eb in Eadd.
          destruct (commit_snapshots utcnow unique_snapshots st1 added)
            as [st2|e] eqn:Ecm.
          * apply (event_committed _ _ _ _ _ _ _ h a game st1 added st2 Hu
                                   Eadd Ecm).
          * apply (event_rolled_back _ _ _ _ _ _ _ h a game st1 added e Hu
                                     Eadd Ecm).
        + rewrite Eraise. rewrite <- Eb in Eraise.
          apply (event_block_raised _ _ _ _ _ _ _ h a game st1 k e Hu
                                    Eraise). }
    destruct (game_by_odds_api_id st i) as [existing|] eqn:Eg.
    + apply (Hrest existing st). apply Hup; [|left; auto].
      unfold game_by_odds_api_id in Eg. apply find_some in Eg.
      destruct Eg as [_ Eg]. now apply String.eqb_eq in Eg.
    + unfold add_game. unfold game_by_odds_api_id in Eg.
      rewrite (find_none_existsb _ _ Eg).
      apply Hrest. apply Hup; [reflexivity|]. right. auto.
  - assert (E : ingest_event parse_commence_time utcnow unique_snapshots sport
                             (st, n) event = (st, n)).
    { unfold ingest_event, event_usable in *.
      destruct (Feed.id event) as [i|]; [|reflexivity].
      destruct (Feed.home_team event) as [h|]; [|reflexivity].
      destruct (Feed.away_team event) as [a|]; [|reflexivity].
      destruct (Feed.commence_time event) as [cts|]; [|reflexivity].
      destruct (truthy_str (Some i) && truthy_str (Some h)
                && truthy_str (Some a) && truthy_str (Some cts));
        cbn [negb andb] in *; [|reflexivity].
      destruct (parse_commence_time cts); [discriminate | reflexivity]. }
    rewrite E. apply event_skipped. exact Eu.
Qed.

End IngestionSteps.

Section IngestionInvariants.

Variable parse_commence_time : string -> option Z.
Variable utcnow : Z -> Z.
Variable unique_snapshots : bool.

Lemma ingest_event_unusable (sport : string) (acc : Store * nat)
      (event : Feed.Event) :
  event_usable parse_commence_time event = false ->
  ingest_event parse_commence_time utcnow unique_snapshots sport acc event
  = acc.
Proof.
  destruct acc as [st n]. intro Eu.
  unfold ingest_event, event_usable in *.
  destruct (Feed.id event) as [i|]; [|reflexivity].
  destruct (Feed.home_team event) as [h|]; [|reflexivity].
  destruct (Feed.away_team event) as [a|]; [|reflexivity].
  destruct (Feed.commence_time event) as [cts|]; [|reflexivity].
  destruct (truthy_str (Some i) && truthy_str (Some h)
            && truthy_str (Some a) && truthy_str (Some cts));
    cbn [negb andb] in *; [|reflexivity].
  destruct (parse_commence_time cts); [discriminate | reflexivity].
Qed.

(** A property of the store kept by every way an iteration can end is
    kept by the whole loop. *)
Lemma ingest_loop_invariant (sport : string) (I : Store -> Prop) :
  (forall st n event out,
      I st ->
      event_outcome parse_commence_time utcnow unique_snapshots sport st n
                    event out ->
      I (fst out)) ->
  forall events st n,
    I st ->
    I (fst (fold_left
              (ingest_event parse_commence_time utcnow unique_snapshots sport)
              events (st, n))).
Proof.
  intros Hstep events. induction events as [|event rest IH]; intros st n HI.
  - exact HI.
  - cbn [fold_left].
    pose proof (ingest_event_outcome parse_commence_time utcnow
                  unique_snapshots sport st n event) as Hout.
    pose proof (Hstep st n event _ HI Hout) as HI'.
    destruct (ingest_event parse_commence_time utcnow unique_snapshots sport
                           (st, n) event) as [st1 n1].
    apply IH. exact HI'.
Qed.

(** X12: an event with a missing or empty identifier, team name or start
    time, or with a start time that does not parse, is skipped without
    any effect on the rest of the call: ingesting a feed gives the same
    store and the same count as ingesting its usable events. *)
Theorem ingest_skips_unusable_events (sport : string)
        (events : list Feed.Event) (st : Store) :
  ingest_odds parse_commence_time utcnow unique_snapshots sport events st =
  ingest_odds parse_commence_time utcnow unique_snapshots sport
              (filter (event_usable parse_commence_time) events) st.
Proof.
  rewrite !ingest_odds_fold. generalize (st, 0%nat).
  induction events as [|event rest IH]; intro acc; [reflexivity|].
  cbn [fold_left filter].
  destruct (event_usable parse_commence_time event) eqn:Eu.
  - cbn [fold_left]. apply IH.
  - rewrite (ingest_event_unusable sport acc event Eu). apply IH.
Qed.

(** X13: a call of [ingest_odds] only appends: the games and snapshots
    that were stored are still there, unchanged and in place, the value
    bets are untouched, and the count returned is at least the number of
    snapshot rows written (it is larger when snapshots that were counted
    are rolled back). *)
Theorem ingest_appends_only (sport : string) (events : list Feed.Event)
        (st st' : Store) (count : nat) :
  ingest_odds parse_commence_time utcnow unique_snapshots sport events st
  = (st', count) ->
  exists new_games new_rows,
    games st' = games st ++ new_games
    /\ odds_snapshots st' = odds_snapshots st ++ new_rows
    /\ value_bets st' = value_bets st
    /\ (List.length new_rows <= count)%nat.
Proof.
  intro E. rewrite ingest_odds_fold in E.
  destruct (ingest_loop_spec parse_commence_time utcnow unique_snapshots
                             sport events st 0)
    as (st2 & gs & rows & k & E2 & Hg & Hs & Hv & _ & _ & _ & Hle).
  rewrite E in E2. injection E2 as -> ->.
  exists gs, rows. auto.
Qed.

End IngestionInvariants.

Lemma ingest_appends_only_witness :
  exists new_games new_rows,
    games store_after_requote = games store_with_snapshot ++ new_games
    /\ odds_snapshots store_after_requote =
       odds_snapshots store_with_snapshot ++ new_rows
    /\ value_bets store_after_requote = value_bets store_with_snapshot
    /\ (List.length new_rows <= 2)%nat.
Proof.
  apply (ingest_appends_only sample_parse sample_clock false "basketball_nba"
           feed_repeat_then_new store_with_snapshot store_after_requote 2).
  vm_compute. reflexivity.
Defined.

(** ** Ingestion: keys and provenance of the rows written *)

Lemma upserted_store (parse_commence_time : string -> option Z)
      (sport : string) (st : Store) (event : Feed.Event)
      (home_team away_team : string) (game : Game.t) (st1 : Store) :
  upserted parse_commence_time sport st event home_team away_team game st1 ->
  odds_snapshots st1 = odds_snapshots st
  /\ value_bets st1 = value_bets st
  /\ In game (games st1)
  /\ (games st1 = games st
      \/ (games st1 = games st ++ [game]
          /\ Game.id game = next_id (map Game.id (games st))
          /\ ~ In (Game.odds_api_id game) (map Game.odds_api_id (games st)))).
Proof.
  intros (i & cts & t & _ & _ & _ & _ & _ & _ & Hid & Hcase).
  destruct Hcase as [(Hfind & ->) | (Hfind & Hg & ->)].
  - split; [reflexivity|]. split; [reflexivity|].
    split; [|left; reflexivity].
    unfold game_by_odds_api_id in Hfind. apply find_some in Hfind. tauto.
  - cbn. split; [reflexivity|]. split; [reflexivity|].
    split; [apply in_or_app; right; left; reflexivity|].
    right. split; [reflexivity|]. split; [rewrite Hg; reflexivity|].
    rewrite Hid. apply find_none_not_in. exact Hfind.
Qed.

Section RowsWritten.

Variable utcnow : Z -> Z.
Variable unique_snapshots : bool.

Lemma flush_snapshots_rows (game : Game.t) (gs : list Game.t)
      (pending : list PendingSnapshot) :
  In game gs ->
  Forall (pending_ingested game) pending ->
  forall rows rows',
    flush_snapshots utcnow unique_snapshots rows pending = Ok rows' ->
    exists new,
      rows' = rows ++ new /\ Forall (row_ingested utcnow gs) new.
Proof.
  intros Hg Hp. induction Hp as [|p rest Hp _ IH]; intros rows rows' H;
    simpl in H.
  - injection H as <-. exists []. now rewrite app_nil_r.
  - destruct (unique_snapshots && existsb _ rows) in H; [discriminate|].
    destruct (IH _ _ H) as (new & -> & Hnew).
    eexists (_ :: new). rewrite <- app_assoc. split; [reflexivity|].
    constructor; [|exact Hnew].
    destruct Hp as (Hbook & Hgid & Hdraw).
    unfold row_ingested. cbn.
    split; [exact Hbook|].
    split; [exists game; auto|].
    split; [reflexivity | exact Hdraw].
Qed.

End RowsWritten.

Section IngestionProvenance.

Variable parse_commence_time : string -> option Z.
Variable utcnow : Z -> Z.
Variable unique_snapshots : bool.

Lemma ingest_loop_invariant_in (sport : string) (I : Store -> Prop)
      (all_events : list Feed.Event) :
  (forall st n event out,
      In event all_events ->
      I st ->
      event_outcome parse_commence_time utcnow unique_snapshots sport st n
                    event out ->
      I (fst out)) ->
  forall events st n,
    incl events all_events ->
    I st ->
    I (fst (fold_left
              (ingest_event parse_commence_time utcnow unique_snapshots sport)
              events (st, n))).
Proof.
  intros Hstep events. induction events as [|event rest IH];
    intros st n Hincl HI.
  - exact HI.
  - cbn [fold_left].
    pose proof (ingest_event_outcome parse_commence_time utcnow
                  unique_snapshots sport st n event) as Hout.
    pose proof (Hstep st n event _ (Hincl event (or_introl eq_refl)) HI Hout)
      as HI'.
    destruct (ingest_event parse_commence_time utcnow unique_snapshots sport
                           (st, n) event) as [st1 n1].
    apply IH; [|exact HI'].
    intros e He. apply Hincl. right. exact He.
Qed.

Lemma commit_snapshots_inv (st1 st2 : Store) (pending : list PendingSnapshot) :
  commit_snapshots utcnow unique_snapshots st1 pending = Ok st2 ->
  games st2 = games st1
  /\ value_bets st2 = value_bets st1
  /\ flush_snapshots utcnow unique_snapshots (odds_snapshots st1) pending
     = Ok (odds_snapshots st2).
Proof.
  unfold commit_snapshots. intro H.
  apply bind_inv in H. destruct H as (rows & Hf & H).
  injection H as <-. cbn. auto.
Qed.

Lemma row_ingested_mono (gs gs' : list Game.t) (s : OddsSnapshot.t) :
  incl gs gs' -> row_ingested utcnow gs s -> row_ingested utcnow gs' s.
Proof.
  intros Hincl (Hb & (g & Hg & Hid) & Ht & Hd).
  split; [exact Hb|]. split; [exists g; auto|]. auto.
Qed.

Lemma ingest_rows_written (sport : string) (events : list Feed.Event)
      (st : Store) :
  exists rows,
    odds_snapshots
      (fst (ingest_odds parse_commence_time utcnow unique_snapshots sport
                        events st))
    = odds_snapshots st ++ rows
    /\ Forall (row_ingested utcnow
                 (games (fst (ingest_odds parse_commence_time utcnow
                                          unique_snapshots sport events st))))
              rows.
Proof.
  rewrite ingest_odds_fold.
  apply (ingest_loop_invariant parse_commence_time utcnow unique_snapshots sport
           (fun x => exists rows,
                odds_snapshots x = odds_snapshots st ++ rows
                /\ Forall (row_ingested utcnow (games x)) rows)).
  - clear. intros st0 n event out (rows & Er & Hr) Hout.
    assert (Hup : forall h a game st1,
              upserted parse_commence_time sport st0 event h a game st1 ->
              odds_snapshots st1 = odds_snapshots st ++ rows
              /\ Forall (row_ingested utcnow (games st1)) rows
              /\ In game (games st1)).
    { intros h a game st1 Hu.
      destruct (upserted_store _ _ _ _ _ _ _ _ Hu)
        as (Es & _ & Hin & Hg).
      split; [rewrite Es; exact Er|]. split; [|exact Hin].
      apply (Forall_impl _ (fun s => row_ingested_mono (games st0) (games st1) s
                                       ltac:(destruct Hg as [-> | (-> & _)];
                                             [apply incl_refl
                                             |apply incl_appl, incl_refl]))).
      exact Hr. }
    inversion Hout as [Hu | h a game st1 Hu Hb | h a game st1 k e Hu Hb
                       | h a game st1 pending e Hu Hb Hc
                       | h a game st1 pending st2 Hu Hb Hc]; subst; cbn [fst].
    + exists rows. auto.
    + destruct (Hup h a game st1 Hu) as (E1 & H1 & _). exists rows. auto.
    + destruct (Hup h a game st1 Hu) as (E1 & H1 & _). exists rows. auto.
    + destruct (Hup h a game st1 Hu) as (E1 & H1 & _). exists rows. auto.
    + destruct (Hup h a game st1 Hu) as (E1 & H1 & Hin).
      destruct (commit_snapshots_inv _ _ _ Hc) as (Eg & _ & Hf).
      pose proof (ingest_bookmakers_ingested game h a _ _ _ _ _ Hb
                    (Forall_nil _)) as Hp.
      destruct (flush_snapshots_rows utcnow unique_snapshots game (games st1)
                                     pending Hin Hp _ _ Hf)
        as (new & Enew & Hnew).
      exists (rows ++ new). rewrite Enew, E1, Eg, <- app_assoc.
      split; [reflexivity|]. apply Forall_app. split; assumption.
  - exists []. rewrite app_nil_r. split; [reflexivity | constructor].
Qed.

(** X15: every snapshot row written by a call of [ingest_odds] has a
    bookmaker on the allow-list, references a game of the resulting
    store, carries the clock reading taken when it was written, and has a
    draw probability equal to the reciprocal of its draw price when that
    price is non-zero and absent otherwise. *)
Theorem ingest_rows_provenance (sport : string) (events : list Feed.Event)
        (st : Store) :
  exists rows,
    odds_snapshots
      (fst (ingest_odds parse_commence_time utcnow unique_snapshots sport
                        events st))
    = odds_snapshots st ++ rows
    /\ Forall (row_ingested utcnow
                 (games (fst (ingest_odds parse_commence_time utcnow
                                          unique_snapshots sport events st))))
              rows.
Proof.
  exact (ingest_rows_written sport events st).
Qed.

End IngestionProvenance.

Section Reingestion.

Variable parse_commence_time : string -> option Z.

Lemma in_ids_find (gs : list Game.t) (i : string) :
  In i (map Game.odds_api_id gs) ->
  exists g, find (fun g => String.eqb (Game.odds_api_id g) i) gs = Some g.
Proof.
  intro H.
  destruct (find (fun g => String.eqb (Game.odds_api_id g) i) gs) as [g|] eqn:E.
  - now exists g.
  - exfalso. apply (find_none_not_in _ _ E H).
Qed.

(** When the identifiers of the usable events are all stored, the loop
    adds no game. *)
Lemma ingest_known_events_no_game (utcnow : Z -> Z) (unique_snapshots : bool)
      (sport : string) (events : list Feed.Event) (st : Store) (n : nat) :
  (forall event i,
      In event events ->
      event_usable parse_commence_time event = true ->
      Feed.id event = Some i ->
      In i (map Game.odds_api_id (games st))) ->
  games (fst (fold_left
                (ingest_event parse_commence_time utcnow unique_snapshots sport)
                events (st, n)))
  = games st.
Proof.
  intro Hknown.
  apply (ingest_loop_invariant_in parse_commence_time utcnow unique_snapshots
           sport (fun x => games x = games st) events);
    [|apply incl_refl|reflexivity].
  intros st0 n0 event out Hin Hg Hout.
  assert (Hup : forall h a game st1,
            upserted parse_commence_time sport st0 event h a game st1 ->
            games st1 = games st).
  { intros h a game st1 (i & cts & t & Hu & Hi & _ & _ & _ & _ & _ & Hcase).
    destruct Hcase as [(_ & ->) | (Hnone & _)]; [exact Hg|].
    exfalso. pose proof (Hknown event i Hin Hu Hi) as Hk.
    rewrite <- Hg in Hk. apply in_ids_find in Hk. destruct Hk as (g & Hk).
    unfold game_by_odds_api_id in Hnone. congruence. }
  inversion Hout as [Hu | h a game st1 Hu Hb | h a game st1 k e Hu Hb
                     | h a game st1 pending e Hu Hb Hc
                     | h a game st1 pending st2 Hu Hb Hc]; subst; cbn [fst].
  - exact Hg.
  - apply (Hup h a game st1 Hu).
  - apply (Hup h a game st1 Hu).
  - apply (Hup h a game st1 Hu).
  - destruct (commit_snapshots_inv _ _ _ _ _ Hc) as (Eg & _).
    rewrite Eg. apply (Hup h a game st1 Hu).
Qed.

(** After the loop, the identifier of every usable event is stored. *)
Lemma ingest_stores_usable_ids (utcnow : Z -> Z) (unique_snapshots : bool)
      (sport : string) (events : list Feed.Event) :
  forall st n event i,
    In event events ->
    event_usable parse_commence_time event = true ->
    Feed.id event = Some i ->
    In i (map Game.odds_api_id
              (games (fst (fold_left
                             (ingest_event parse_commence_time utcnow
                                           unique_snapshots sport)
                             events (st, n))))).
Proof.
  induction events as [|ev rest IH]; intros st n event i Hin Hu Hi;
    [destruct Hin|].
  cbn [fold_left].
  pose proof (ingest_event_outcome parse_commence_time utcnow unique_snapshots
                sport st n ev) as Hout.
  destruct (ingest_event parse_commence_time utcnow unique_snapshots sport
                         (st, n) ev) as [st1 n1] eqn:E1.
  destruct Hin as [<- | Hin]; [|apply (IH st1 n1 event i Hin Hu Hi)].
  destruct (ingest_loop_spec parse_commence_time utcnow unique_snapshots sport
                             rest st1 n1)
    as (st' & gs & rows & k & E2 & Hg & _).
  rewrite E2. cbn [fst]. rewrite Hg, map_app. apply in_or_app. left.
  assert (Hup : forall h a game st0,
            upserted parse_commence_time sport st ev h a game st0 ->
            In i (map Game.odds_api_id (games st0))).
  { intros h a game st0 Hup.
    destruct (upserted_store _ _ _ _ _ _ _ _ Hup) as (_ & _ & Hgame & _).
    destruct Hup as (i' & _ & _ & _ & Hi' & _ & _ & _ & _ & Hid & _).
    rewrite Hi in Hi'. injection Hi' as <-.
    rewrite <- Hid. apply in_map. exact Hgame. }
  inversion Hout as [Hsk | h a game st0 Hup' Hb | h a game st0 k0 e Hup' Hb
                     | h a game st0 pending e Hup' Hb Hc
                     | h a game st0 pending st2 Hup' Hb Hc]; subst.
  - congruence.
  - apply (Hup h a game st1 Hup').
  - apply (Hup h a game st1 Hup').
  - apply (Hup h a game st1 Hup').
  - destruct (commit_snapshots_inv _ _ _ _ _ Hc) as (Eg & _).
    rewrite Eg. apply (Hup h a game st0 Hup').
Qed.

(** X16: ingesting the same feed a second time creates no game, whatever
    the clock and the duplicate constraint of the second call: the games
    after the second call are the games after the first. *)
Theorem reingest_adds_no_game (utcnow utcnow' : Z -> Z)
        (unique_snapshots unique_snapshots' : bool) (sport : string)
        (events : list Feed.Event) (st : Store) :
  games
    (fst (ingest_odds parse_commence_time utcnow' unique_snapshots' sport events
            (fst (ingest_odds parse_commence_time utcnow unique_snapshots sport
                              events st))))
  = games (fst (ingest_odds parse_commence_time utcnow unique_snapshots sport
                            events st)).
Proof.
  rewrite (ingest_odds_fold parse_commence_time utcnow' unique_snapshots').
  apply ingest_known_events_no_game.
  intros event i Hin Hu Hi. rewrite ingest_odds_fold.
  apply (ingest_stores_usable_ids utcnow unique_snapshots sport events
           st 0%nat event i Hin Hu Hi).
Qed.

End Reingestion.

(** X17: every game row created by a call of [ingest_odds] comes from a
    usable event of the feed: it carries that event's identifier and team
    names, its parsed start time, the upper-cased sport as league, and no
    result. *)
Theorem ingest_games_from_events (parse_commence_time : string -> option Z)
        (utcnow : Z -> Z) (unique_snapshots : bool) (sport : string)
        (events : list Feed.Event) (st : Store) :
  exists new_games,
    games (fst (ingest_odds parse_commence_time utcnow unique_snapshots sport
                            events st))
    = games st ++ new_games
    /\ Forall (game_from_feed parse_commence_time sport events) new_games.
Proof.
  rewrite ingest_odds_fold.
  apply (ingest_loop_invariant_in parse_commence_time utcnow unique_snapshots
           sport
           (fun x => exists new_games,
                games x = games st ++ new_games
                /\ Forall (game_from_feed parse_commence_time sport events)
                          new_games)
           events);
    [|apply incl_refl|exists []; rewrite app_nil_r; auto].
  intros st0 n event out Hin (gs & Eg & Hgs) Hout.
  assert (Hup : forall h a game st1,
            upserted parse_commence_time sport st0 event h a game st1 ->
            exists new_games,
              games st1 = games st ++ new_games
              /\ Forall (game_from_feed parse_commence_time sport events)
                        new_games).
  { intros h a game st1 (i & cts & t & Hu & Hi & Hh & Ha & Hc & Hp & Hid & Hcase).
    destruct Hcase as [(_ & ->) | (_ & Hgame & ->)]; [exists gs; auto|].
    exists (gs ++ [game]). cbn [games]. rewrite Eg, <- app_assoc.
    split; [reflexivity|]. apply Forall_app. split; [exact Hgs|].
    constructor; [|constructor].
    unfold game_from_feed. rewrite Hgame. cbn.
    split; [reflexivity|]. split; [reflexivity|].
    exists event, cts. auto 10. }
  inversion Hout as [Hu | h a game st1 Hu Hb | h a game st1 k e Hu Hb
                     | h a game st1 pending e Hu Hb Hc
                     | h a game st1 pending st2 Hu Hb Hc]; subst; cbn [fst].
  - exists gs. auto.
  - apply (Hup h a game st1 Hu).
  - apply (Hup h a game st1 Hu).
  - apply (Hup h a game st1 Hu).
  - destruct (commit_snapshots_inv _ _ _ _ _ Hc) as (Eg2 & _).
    rewrite Eg2. apply (Hup h a game st1 Hu).
Qed.

(** ** The outcome map *)

Lemma outcome_fold_absent (outcomes : list Feed.Outcome) (k : string) :
  existsb (fun o => String.eqb (Feed.name o) k) outcomes = false ->
  forall found,
    fold_left
      (fun found o => if String.eqb (Feed.name o) k then Feed.price o else found)
      outcomes found
    = found.
Proof.
  induction outcomes as [|o rest IH]; intros H found; [reflexivity|].
  cbn [fold_left existsb] in *. apply orb_false_iff in H.
  destruct H as [E Hrest]. rewrite E. apply (IH Hrest).
Qed.

(** X18: the outcome map behaves as a dictionary built from the list:
    a label that no outcome carries is absent, the last outcome carrying
    a label gives its price (a later duplicate overrides an earlier one),
    and an outcome with another label does not change the lookup. *)
Theorem outcome_map_lookup (outcomes : list Feed.Outcome) (k : string)
        (o : Feed.Outcome) :
  (existsb (fun o' => String.eqb (Feed.name o') k) outcomes = false ->
   outcome_map_get outcomes k = None)
  /\ (Feed.name o = k ->
      outcome_map_get (outcomes ++ [o]) k = Feed.price o)
  /\ (Feed.name o <> k ->
      outcome_map_get (outcomes ++ [o]) k = outcome_map_get outcomes k).
Proof.
  unfold outcome_map_get. split; [|split].
  - intro H. apply (outcome_fold_absent outcomes k H).
  - intro H. rewrite fold_left_app. cbn [fold_left].
    apply String.eqb_eq in H. now rewrite H.
  - intro H. rewrite fold_left_app. cbn [fold_left].
    apply String.eqb_neq in H. now rewrite H.
Qed.

(* ================================================================== *)
(** * The backtester *)

Lemma backtest_kelly_bet_agrees (bankroll win_prob odds kelly_fraction : Q) :
  backtest_kelly_bet bankroll win_prob odds kelly_fraction =
  calculate_kelly_bet win_prob odds bankroll kelly_fraction.
Proof. reflexivity. Qed.

Lemma backtest_kelly_bet_returns (bankroll win_prob odds kelly_fraction : Q) :
  exists stake,
    backtest_kelly_bet bankroll win_prob odds kelly_fraction = Ok stake.
Proof.
  rewrite backtest_kelly_bet_agrees.
  destruct (Qlt_le_dec 1 odds) as [Hgain | Hno].
  - rewrite (kelly_gain _ _ _ _ Hgain). eexists. reflexivity.
  - rewrite (kelly_no_gain _ _ _ _ Hno). eexists. reflexivity.
Qed.

Section BacktestInvariant.

Variable st : Store.
Variable min_edge_percent kelly_fraction : Q.

(** The state of the simulation: the bankroll and the rows so far. *)
Variable I : Q -> list BetRow.t -> Prop.

Hypothesis I_bet :
  forall game selection win_code odds edge prob b rows stake,
    I b rows ->
    selection = "Home"%string \/ selection = "Away"%string ->
    min_edge_percent <= edge ->
    backtest_kelly_bet b prob odds kelly_fraction = Ok stake ->
    I (b + (if result_is game win_code then stake * (odds - 1) else - stake))
      (rows ++
       [BetRow.mk (Game.home_team game ++ " vs " ++ Game.away_team game)
                  selection odds stake
                  (if result_is game win_code then "WIN" else "LOSS")%string
                  (if result_is game win_code then stake * (odds - 1)
                   else - stake)
                  (b + (if result_is game win_code then stake * (odds - 1)
                        else - stake))
                  edge]).

Local Abbreviation kept := (state_kept I).

Lemma place_backtest_bet_kept game selection win_code odds edge prob b rows :
  I b rows ->
  selection = "Home"%string \/ selection = "Away"%string ->
  min_edge_percent <= edge ->
  kept (place_backtest_bet game selection win_code odds edge prob
                           kelly_fraction b rows).
Proof.
  intros HI Hsel Hedge. unfold place_backtest_bet.
  destruct (backtest_kelly_bet_returns b prob odds kelly_fraction)
    as (stake & Ek).
  rewrite Ek. eexists. split.
  - apply (I_bet game selection win_code odds edge prob b rows stake
                 HI Hsel Hedge Ek).
  - cbn. intros l Hl. injection Hl as <-. reflexivity.
Qed.

Lemma kept_here (b : Q) (rows : list BetRow.t) :
  I b rows -> kept (b, Ok rows).
Proof.
  intro HI. exists rows. split; [exact HI|].
  cbn. intros l Hl. now injection Hl as <-.
Qed.

Lemma kept_raise (b : Q) (rows : list BetRow.t) (e : exn) :
  I b rows -> kept (b, Raise e).
Proof.
  intro HI. exists rows. split; [exact HI|]. cbn. discriminate.
Qed.

Lemma backtest_snapshot_kept game hp ho ap ao soft b rows :
  I b rows ->
  kept (backtest_snapshot game hp ho ap ao min_edge_percent kelly_fraction
                          soft b rows).
Proof.
  intro HI. unfold backtest_snapshot.
  destruct (py_div (OddsSnapshot.home_odds soft) ho) as [hr|e];
    [|apply (kept_raise _ _ _ HI)].
  assert (Hhome : kept
            (if Qgeb ((hr - 1) * 100) min_edge_percent
             then place_backtest_bet game "Home" "H"
                    (OddsSnapshot.home_odds soft) ((hr - 1) * 100) hp
                    kelly_fraction b rows
             else (b, Ok rows))).
  { destruct (Qgeb ((hr - 1) * 100) min_edge_percent) eqn:E;
      [|apply (kept_here _ _ HI)].
    apply place_backtest_bet_kept;
      [exact HI | left; reflexivity | apply Qgeb_true; exact E]. }
  destruct (if Qgeb ((hr - 1) * 100) min_edge_percent then _ else _)
    as [b1 [rows1|e]].
  - destruct Hhome as (rows' & HI1 & Hl). cbn in HI1, Hl.
    rewrite <- (Hl rows1 eq_refl) in HI1.
    destruct (py_div (OddsSnapshot.away_odds soft) ao) as [ar|e];
      [|apply (kept_raise _ _ _ HI1)].
    destruct (Qgeb ((ar - 1) * 100) min_edge_percent) eqn:E;
      [|apply (kept_here _ _ HI1)].
    apply place_backtest_bet_kept;
      [exact HI1 | right; reflexivity | apply Qgeb_true; exact E].
  - destruct Hhome as (rows' & HI1 & _). apply (kept_raise _ rows' _ HI1).
Qed.

Lemma backtest_snapshots_kept game hp ho ap ao softs :
  forall b rows,
    I b rows ->
    kept (backtest_snapshots game hp ho ap ao min_edge_percent kelly_fraction
                             softs b rows).
Proof.
  induction softs as [|soft rest IH]; intros b rows HI; cbn [backtest_snapshots].
  - apply (kept_here _ _ HI).
  - pose proof (backtest_snapshot_kept game hp ho ap ao soft b rows HI) as Hk.
    destruct (backtest_snapshot game hp ho ap ao min_edge_percent
                                kelly_fraction soft b rows)
      as [b1 [rows1|e]].
    + destruct Hk as (rows' & HI1 & Hl). cbn in HI1, Hl.
      rewrite <- (Hl rows1 eq_refl) in HI1. apply (IH _ _ HI1).
    + destruct Hk as (rows' & HI1 & _). apply (kept_raise _ rows' _ HI1).
Qed.

Lemma backtest_game_kept game b rows :
  I b rows ->
  kept (backtest_game st min_edge_percent kelly_fraction game b rows).
Proof.
  intro HI. unfold backtest_game.
  destruct (filter _ (odds_snapshots st)) as [|s0 sharp];
    [apply (kept_here _ _ HI)|].
  destruct (filter _ (odds_snapshots st)) as [|t0 soft];
    [apply (kept_here _ _ HI)|].
  match goal with
  | |- kept (match ?c with _ => _ end) => destruct c as [[[[hp ho] ap] ao]|e]
  end; [|apply (kept_raise _ _ _ HI)].
  apply (backtest_snapshots_kept _ _ _ _ _ _ _ _ HI).
Qed.

Lemma backtest_games_kept gs :
  forall b rows,
    I b rows ->
    kept (backtest_games st min_edge_percent kelly_fraction gs b rows).
Proof.
  induction gs as [|game rest IH]; intros b rows HI; cbn [backtest_games].
  - apply (kept_here _ _ HI).
  - pose proof (backtest_game_kept game b rows HI) as Hk.
    destruct (backtest_game st min_edge_percent kelly_fraction game b rows)
      as [b1 [rows1|e]].
    + destruct Hk as (rows' & HI1 & Hl). cbn in HI1, Hl.
      rewrite <- (Hl rows1 eq_refl) in HI1. apply (IH _ _ HI1).
    + destruct Hk as (rows' & HI1 & _). apply (kept_raise _ rows' _ HI1).
Qed.

End BacktestInvariant.

(** ** The ledger of a simulation *)

Lemma bankroll_after_snoc (b : Q) (rows : list BetRow.t) (r : BetRow.t) :
  bankroll_after b (rows ++ [r]) = BetRow.bankroll r.
Proof.
  unfold bankroll_after. rewrite map_app. cbn [map]. apply last_last.
Qed.

Lemma last_cons_default {A} (l : list A) (a d : A) :
  last (a :: l) d = last l a.
Proof.
  revert a d. induction l as [|x l IH]; intros a d; [reflexivity|].
  change (last (a :: x :: l) d) with (last (x :: l) d).
  now rewrite (IH x d), (IH x a).
Qed.

Lemma bets_chain_snoc (min_edge b : Q) (rows : list BetRow.t) (r : BetRow.t) :
  bets_chain min_edge b rows ->
  row_settled min_edge (bankroll_after b rows) r ->
  bets_chain min_edge b (rows ++ [r]).
Proof.
  revert b. induction rows as [|x rest IH]; intros b Hc Hr; cbn.
  - split; [exact Hr | exact I].
  - destruct Hc as [Hx Hrest]. split; [exact Hx|].
    apply IH; [exact Hrest|].
    unfold bankroll_after in *. cbn [map] in Hr.
    rewrite last_cons_default in Hr. exact Hr.
Qed.

Lemma py_sum_snoc (l : list Q) (x : Q) : py_sum (l ++ [x]) == py_sum l + x.
Proof.
  unfold py_sum. rewrite fold_left_app. reflexivity.
Qed.

Lemma simulate_ledger (st : Store) (bankroll : Q) (games : list Game.t)
      (min_edge_percent kelly_fraction : Q)
      (final : Q) (rows : list BetRow.t) :
  simulate_strategy_soft_vs_sharp st bankroll games min_edge_percent
                                  kelly_fraction
  = (final, Ok rows) ->
  bets_chain min_edge_percent bankroll rows
  /\ final = bankroll_after bankroll rows
  /\ final == bankroll + py_sum (map BetRow.pnl rows).
Proof.
  intro H. unfold simulate_strategy_soft_vs_sharp in H.
  set (I := fun b rs => bets_chain min_edge_percent bankroll rs
                        /\ b = bankroll_after bankroll rs
                        /\ b == bankroll + py_sum (map BetRow.pnl rs)).
  assert (Hstep : forall game selection win_code odds edge prob b rs stake,
            I b rs ->
            selection = "Home"%string \/ selection = "Away"%string ->
            min_edge_percent <= edge ->
            backtest_kelly_bet b prob odds kelly_fraction = Ok stake ->
            I (b + (if result_is game win_code then stake * (odds - 1)
                    else - stake))
              (rs ++
               [BetRow.mk (Game.home_team game ++ " vs " ++ Game.away_team game)
                  selection odds stake
                  (if result_is game win_code then "WIN" else "LOSS")%string
                  (if result_is game win_code then stake * (odds - 1)
                   else - stake)
                  (b + (if result_is game win_code then stake * (odds - 1)
                        else - stake))
                  edge])).
  { intros game selection win_code odds edge prob b rs stake
           (Hc & Hb & Hs) Hsel Hedge _.
    split; [|split].
    - apply bets_chain_snoc; [exact Hc|].
      rewrite <- Hb. unfold row_settled. cbn.
      split; [exact Hsel|]. split; [exact Hedge|].
      split; [|reflexivity].
      destruct (result_is game win_code); [left | right]; split; reflexivity.
    - rewrite bankroll_after_snoc. reflexivity.
    - rewrite map_app. cbn [map BetRow.pnl].
      rewrite (py_sum_snoc (map BetRow.pnl rs)), Hs. ring. }
  assert (H0 : I bankroll []).
  { split; [exact Logic.I|]. split; [reflexivity|].
    unfold py_sum. cbn. ring. }
  destruct (backtest_games_kept st min_edge_percent kelly_fraction I Hstep
                                games bankroll [] H0)
    as (rows' & HI & Hl).
  rewrite H in HI, Hl. cbn [fst snd] in HI, Hl.
  rewrite (Hl rows eq_refl). exact HI.
Qed.

(** X19: the rows returned by [simulate_strategy_soft_vs_sharp] form a
    ledger: each row is a home or away bet whose edge is at least
    [min_edge_percent], won with a profit of [stake * (odds - 1)] or lost
    with a loss of the stake, and records the bankroll of the previous
    row (the starting bankroll for the first) plus its own profit or
    loss; the bankroll the object ends with is the one of the last row,
    that is the starting bankroll plus the sum of the profits and
    losses. *)
Theorem backtest_ledger (st : Store) (bankroll : Q) (games : list Game.t)
        (min_edge_percent kelly_fraction : Q)
        (final : Q) (rows : list BetRow.t) :
  simulate_strategy_soft_vs_sharp st bankroll games min_edge_percent
                                  kelly_fraction
  = (final, Ok rows) ->
  bets_chain min_edge_percent bankroll rows
  /\ final = bankroll_after bankroll rows
  /\ final == bankroll + py_sum (map BetRow.pnl rows).
Proof.
  exact (simulate_ledger st bankroll games min_edge_percent kelly_fraction
                         final rows).
Qed.

Lemma backtest_ledger_witness :
  bets_chain 5 1000 sample_backtest_rows
  /\ sample_backtest_final = bankroll_after 1000 sample_backtest_rows
  /\ sample_backtest_final ==
     1000 + py_sum (map BetRow.pnl sample_backtest_rows).
Proof.
  apply (backtest_ledger store_backtest 1000 [sample_settled_game] 5
           (25 # 100) sample_backtest_final sample_backtest_rows).
  vm_compute. reflexivity.
Defined.

(** X20: from a positive bankroll the simulation never sizes a stake
    below 0 or above 5 percent of the bankroll at that moment, so the
    bankroll stays positive after every bet; the bankroll the object is
    left with is positive even when the simulation raises. *)
Theorem backtest_bankroll_stays_positive (st : Store) (bankroll : Q)
        (games : list Game.t) (min_edge_percent kelly_fraction : Q)
        (final : Q) (r : res (list BetRow.t)) :
  0 < bankroll ->
  simulate_strategy_soft_vs_sharp st bankroll games min_edge_percent
                                  kelly_fraction
  = (final, r) ->
  0 < final
  /\ forall rows, r = Ok rows -> Forall row_staked rows.
Proof.
  intros Hpos H. unfold simulate_strategy_soft_vs_sharp in H.
  set (I := fun (b : Q) (rs : list BetRow.t) => 0 < b /\ Forall row_staked rs).
  assert (Hstep : forall game selection win_code odds edge prob b rs stake,
            I b rs ->
            selection = "Home"%string \/ selection = "Away"%string ->
            min_edge_percent <= edge ->
            backtest_kelly_bet b prob odds kelly_fraction = Ok stake ->
            I (b + (if result_is game win_code then stake * (odds - 1)
                    else - stake))
              (rs ++
               [BetRow.mk (Game.home_team game ++ " vs " ++ Game.away_team game)
                  selection odds stake
                  (if result_is game win_code then "WIN" else "LOSS")%string
                  (if result_is game win_code then stake * (odds - 1)
                   else - stake)
                  (b + (if result_is game win_code then stake * (odds - 1)
                        else - stake))
                  edge])).
  { intros game selection win_code odds edge prob b rs stake
           (Hb & Hrs) _ _ Hk.
    rewrite backtest_kelly_bet_agrees in Hk.
    pose proof (kelly_in_range _ _ _ _ _ (Qlt_le_weak _ _ Hb) Hk) as [Hs0 Hs1].
    unfold MAX_BET_PERCENT in Hs1.
    assert (Hwin : 0 <= stake * (odds - 1)).
    { destruct (Qlt_le_dec 1 odds) as [Hgain | Hno].
      - apply Qmult_le_0_compat; lra.
      - rewrite (kelly_no_gain _ _ _ _ Hno) in Hk. injection Hk as <-.
        rewrite Qmult_0_l. apply Qle_refl. }
    set (w := stake * (odds - 1)) in *.
    assert (Hnew : 0 < b + (if result_is game win_code then w else - stake)).
    { destruct (result_is game win_code); lra. }
    split; [exact Hnew|].
    apply Forall_app. split; [exact Hrs|]. constructor; [|constructor].
    unfold row_staked. cbn.
    split; [exact Hs0|]. split; [|exact Hnew].
    destruct (result_is game win_code); lra. }
  assert (H0 : I bankroll []) by (split; [exact Hpos | constructor]).
  destruct (backtest_games_kept st min_edge_percent kelly_fraction I Hstep
                                games bankroll [] H0)
    as (rows' & (Hfinal & Hrows) & Hl).
  rewrite H in Hfinal, Hl. cbn [fst snd] in Hfinal, Hl.
  split; [exact Hfinal|].
  intros rows ->. rewrite (Hl rows eq_refl). exact Hrows.
Qed.

Lemma backtest_bankroll_stays_positive_witness :
  0 < sample_backtest_final
  /\ forall rows, Ok sample_backtest_rows = Ok rows -> Forall row_staked rows.
Proof.
  apply (backtest_bankroll_stays_positive store_backtest 1000
           [sample_settled_game] 5 (25 # 100)).
  - reflexivity.
  - vm_compute. reflexivity.
Defined.

(** ** The backtest report *)

Lemma filter_length_le {A} (f : A -> bool) (l : list A) :
  (List.length (filter f l) <= List.length l)%nat.
Proof.
  induction l as [|a l IH]; simpl; [lia|]. destruct (f a); simpl; lia.
Qed.

Lemma len_positive {A} (l : list A) : l <> [] -> 0 < len l.
Proof.
  intro H. destruct l as [|a l]; [congruence|].
  unfold len, Qlt. simpl. lia.
Qed.

Lemma share_in_unit (k n : nat) :
  (k <= n)%nat -> (0 < n)%nat ->
  0 <= inject_Z (Z.of_nat k) / inject_Z (Z.of_nat n) * 100 <= 100.
Proof.
  intros Hk Hn.
  assert (Hn' : 0 < inject_Z (Z.of_nat n)) by (unfold Qlt; simpl; lia).
  assert (Hk0 : 0 <= inject_Z (Z.of_nat k)) by (unfold Qle; simpl; lia).
  assert (Hkn : inject_Z (Z.of_nat k) <= inject_Z (Z.of_nat n))
    by (rewrite <- Zle_Qle; lia).
  assert (H0 : 0 <= inject_Z (Z.of_nat k) / inject_Z (Z.of_nat n)).
  { apply Qle_shift_div_l; [exact Hn'|]. rewrite Qmult_0_l. exact Hk0. }
  assert (H1 : inject_Z (Z.of_nat k) / inject_Z (Z.of_nat n) <= 1).
  { apply Qle_shift_div_r; [exact Hn'|]. rewrite Qmult_1_l. exact Hkn. }
  lra.
Qed.

Lemma generate_backtest_report_some (bankroll : Q) (rows : list BetRow.t) :
  rows <> [] ->
  exists report,
    generate_backtest_report bankroll rows = Ok (Some report)
    /\ total_bets report = List.length rows
    /\ total_pnl report = py_sum (map BetRow.pnl rows)
    /\ final_bankroll report = bankroll
    /\ 0 <= win_rate report <= 100
    /\ (py_sum (map BetRow.stake rows) <= 0 -> roi report = 0).
Proof.
  intro Hne. pose proof (len_positive rows Hne) as Hlen.
  destruct rows as [|r0 rest]; [congruence|].
  unfold generate_backtest_report.
  rewrite py_div_ok by lra. cbn [bind].
  set (rows := r0 :: rest) in *.
  assert (Hwr : 0 <= inject_Z (Z.of_nat
                  (List.length
                     (filter (fun r => String.eqb (BetRow.result r) "WIN") rows)))
                / len rows * 100 <= 100).
  { apply share_in_unit; [apply filter_length_le | subst rows; simpl; lia]. }
  destruct (Qltb 0 (py_sum (map BetRow.stake rows))) eqn:Es.
  - apply Qltb_true in Es. rewrite py_div_ok by lra. cbn [bind].
    eexists. split; [reflexivity|].
    cbn [total_bets total_pnl final_bankroll win_rate roi].
    split; [reflexivity|]. split; [reflexivity|]. split; [reflexivity|].
    split; [exact Hwr|]. intro H. exfalso. lra.
  - cbn [bind]. eexists. split; [reflexivity|].
    cbn [total_bets total_pnl final_bankroll win_rate roi].
    split; [reflexivity|]. split; [reflexivity|]. split; [reflexivity|].
    split; [exact Hwr | reflexivity].
Qed.

(** X21: [generate_backtest_report] never raises.  On an empty frame it
    returns nothing; otherwise it returns a report whose [total_bets] is
    the number of rows, whose [final_bankroll] is the bankroll of the
    object, whose [win_rate] is between 0 and 100 and whose [roi] is 0
    when the total staked is not positive. *)
Theorem backtest_report_summary (bankroll : Q) (rows : list BetRow.t) :
  match rows with
  | [] => generate_backtest_report bankroll rows = Ok None
  | _ :: _ =>
      exists report,
        generate_backtest_report bankroll rows = Ok (Some report)
        /\ total_bets report = List.length rows
        /\ final_bankroll report = bankroll
        /\ 0 <= win_rate report <= 100
        /\ (py_sum (map BetRow.stake rows) <= 0 -> roi report = 0)
  end.
Proof.
  destruct rows as [|r0 rest]; [reflexivity|].
  destruct (generate_backtest_report_some bankroll (r0 :: rest)
                                          ltac:(discriminate))
    as (report & E & Hn & _ & Hb & Hw & Hroi).
  exists report. split; [exact E|]. split; [exact Hn|].
  split; [exact Hb|]. split; [exact Hw | exact Hroi].
Qed.

(** ** Historical games *)

Lemma in_insert_asc (x y : Game.t) (l : list Game.t) :
  In y (insert_asc x l) <-> y = x \/ In y l.
Proof.
  induction l as [|z l IH]; simpl.
  - intuition.
  - destruct (Game.commence_time z <? Game.commence_time x)%Z;
      simpl; [rewrite IH|]; intuition.
Qed.

Lemma in_order_by_commence_time (y : Game.t) (l : list Game.t) :
  In y (order_by_commence_time l) <-> In y l.
Proof.
  induction l as [|x l IH]; simpl; [tauto|].
  rewrite in_insert_asc, IH. intuition.
Qed.

Lemma insert_asc_sorted (x : Game.t) (l : list Game.t) :
  StronglySorted earlier_first l -> StronglySorted earlier_first (insert_asc x l).
Proof.
  intro Hs. induction Hs as [|y l Hl IH Hy]; simpl.
  - constructor; constructor.
  - destruct (Game.commence_time y <? Game.commence_time x)%Z eqn:E.
    + apply Z.ltb_lt in E. constructor; [exact IH|].
      rewrite Forall_forall. intros z Hz. apply in_insert_asc in Hz.
      destruct Hz as [-> | Hz].
      * unfold earlier_first. lia.
      * rewrite Forall_forall in Hy. apply (Hy z Hz).
    + apply Z.ltb_ge in E. constructor; [constructor; assumption|].
      constructor; [exact E|].
      rewrite Forall_forall in Hy |- *. intros z Hz.
      specialize (Hy z Hz). unfold earlier_first in *. lia.
Qed.

Lemma order_by_commence_time_sorted (l : list Game.t) :
  StronglySorted earlier_first (order_by_commence_time l).
Proof.
  induction l as [|x l IH]; simpl;
    [constructor | apply insert_asc_sorted; exact IH].
Qed.

(** X22: [get_historical_games] returns, earliest first, exactly the
    stored games of the requested league that have a result and whose
    start time is within the bounds that were given. *)
Theorem historical_games_selected (st : Store) (sport : string)
        (start_date end_date : option Z) :
  StronglySorted earlier_first
                 (get_historical_games st sport start_date end_date)
  /\ forall g,
       In g (get_historical_games st sport start_date end_date) <->
       In g (games st)
       /\ Game.league g = sport
       /\ Game.result g <> None
       /\ (forall d, start_date = Some d -> (d <= Game.commence_time g)%Z)
       /\ (forall d, end_date = Some d -> (Game.commence_time g <= d)%Z).
Proof.
  unfold get_historical_games. split.
  - apply order_by_commence_time_sorted.
  - intro g. rewrite in_order_by_commence_time.
    assert (Hres : match Game.result g with Some _ => true | None => false end
                   = true <-> Game.result g <> None).
    { destruct (Game.result g); split; congruence. }
    assert (Hsome : forall (x : Z) (P : Z -> Prop),
              (forall d, Some x = Some d -> P d) <-> P x).
    { intros x P. split; [intro H; apply H; reflexivity|].
      intros H d Hd. injection Hd as <-. exact H. }
    assert (Hnone : forall P : Z -> Prop,
              (forall d, @None Z = Some d -> P d) <-> True).
    { intro P. split; [trivial | intros _ d Hd; discriminate]. }
    destruct start_date as [s|], end_date as [e|];
      rewrite !filter_In, ?Z.leb_le, andb_true_iff, String.eqb_eq, Hres,
              ?Hsome, ?Hnone;
      tauto.
Qed.

(* ================================================================== *)
(** * The health checks *)

Lemma age_within (d : Z) :
  total_seconds d / 60 <= 120 <-> (d <= two_hours)%Z.
Proof.
  unfold total_seconds, two_hours, Qle, Qdiv, Qmult, Qinv. simpl. lia.
Qed.

Lemma order_by_desc_time_sorted (l : list OddsSnapshot.t) :
  StronglySorted newer_first (order_by_desc_time l).
Proof.
  induction l as [|x l IH]; simpl;
    [constructor | apply insert_desc_sorted; exact IH].
Qed.

Lemma data_freshness_spec (st : Store) (now : Z) :
  check_data_freshness st now = true <->
  exists s, In s (odds_snapshots st) /\ fresh_at now s.
Proof.
  unfold check_data_freshness.
  pose proof (order_by_desc_time_sorted (odds_snapshots st)) as Hs.
  pose proof (fun y => in_order_by_desc_time y (odds_snapshots st)) as Hin.
  destruct (order_by_desc_time (odds_snapshots st)) as [|h t].
  - split; [discriminate|]. intros (s & Hs' & _).
    apply Hin in Hs'. destruct Hs'.
  - inversion Hs as [|? ? _ Hh]; subst. cbv zeta.
    destruct (Qltb 120 _) eqn:E.
    + apply Qltb_true in E. split; [discriminate|].
      intros (s & Hs' & Hf). exfalso.
      assert (Hage : (now - OddsSnapshot.snapshot_time h <= two_hours)%Z).
      { apply Hin in Hs'. destruct Hs' as [<- | Ht]; [exact Hf|].
        rewrite Forall_forall in Hh. specialize (Hh s Ht).
        unfold newer_first in Hh. unfold fresh_at in Hf. lia. }
      apply age_within in Hage. lra.
    + apply Qltb_false in E. split; [|reflexivity]. intros _.
      exists h. split; [apply Hin; left; reflexivity|].
      apply age_within. exact E.
Qed.

Lemma game_count_spec (st : Store) (now : Z) :
  check_game_count st now = true <->
  exists g, In g (games st) /\ (now < Game.commence_time g)%Z.
Proof.
  unfold check_game_count. cbv zeta. rewrite Nat.ltb_lt. split.
  - intro H.
    destruct (filter (fun g => (now <? Game.commence_time g)%Z) (games st))
      as [|g l] eqn:E; [simpl in H; lia|].
    assert (Hin : In g (filter (fun g => (now <? Game.commence_time g)%Z)
                               (games st)))
      by (rewrite E; left; reflexivity).
    apply filter_In in Hin. destruct Hin as [Hin Hlt].
    exists g. split; [exact Hin | now apply Z.ltb_lt].
  - intros (g & Hin & Hlt).
    assert (H : In g (filter (fun g => (now <? Game.commence_time g)%Z)
                             (games st)))
      by (apply filter_In; split; [|apply Z.ltb_lt]; assumption).
    destruct (filter _ (games st)); [destruct H | simpl; lia].
Qed.

Lemma bookmaker_coverage_spec (st : Store) :
  check_bookmaker_coverage st = true <->
  exists a b c,
    covers st a /\ covers st b /\ covers st c
    /\ a <> b /\ a <> c /\ b <> c.
Proof.
  unfold check_bookmaker_coverage, covers, distinct. cbv zeta.
  set (l := map OddsSnapshot.bookmaker (odds_snapshots st)).
  rewrite Nat.leb_le. split.
  - intro H. pose proof (NoDup_nodup string_dec l) as Hnd.
    assert (Hin : forall x, In x (nodup string_dec l) -> In x l)
      by (intros x Hx; exact (proj1 (nodup_In string_dec l x) Hx)).
    destruct (nodup string_dec l) as [|a [|b [|c r]]]; simpl in H; try lia.
    exists a, b, c.
    inversion Hnd as [|? ? Ha Hnd']; subst.
    inversion Hnd' as [|? ? Hb _]; subst.
    split; [apply Hin; simpl; tauto|].
    split; [apply Hin; simpl; tauto|].
    split; [apply Hin; simpl; tauto|].
    split; [intros ->; apply Ha; left; reflexivity|].
    split; [intros ->; apply Ha; right; left; reflexivity|].
    intros ->. apply Hb. left. reflexivity.
  - intros (a & b & c & Ha & Hb & Hc & Hab & Hac & Hbc).
    change 3%nat with (List.length [a; b; c]).
    apply NoDup_incl_length.
    + constructor; [simpl; intuition congruence|].
      constructor; [simpl; intuition congruence|].
      constructor; [simpl; tauto | constructor].
    + intros x [<- | [<- | [<- | []]]]; apply nodup_In; assumption.
Qed.

(** X23: [run_all_checks] passes exactly when some stored snapshot was
    taken at most two hours before the first reading of the clock (the
    newest snapshot decides, and a snapshot dated after the reading counts
    as fresh), some stored game starts after the second reading, and the
    stored snapshots come from at least three different bookmakers. *)
Theorem run_all_checks_iff (st : Store) (now_freshness now_games : Z) :
  run_all_checks st now_freshness now_games = true <->
  (exists s, In s (odds_snapshots st) /\ fresh_at now_freshness s)
  /\ (exists g, In g (games st) /\ (now_games < Game.commence_time g)%Z)
  /\ (exists a b c,
         covers st a /\ covers st b /\ covers st c
         /\ a <> b /\ a <> c /\ b <> c).
Proof.
  unfold run_all_checks. cbn [forallb snd].
  rewrite andb_true_r, !andb_true_iff.
  rewrite data_freshness_spec, game_count_spec, bookmaker_coverage_spec.
  reflexivity.
Qed.

(** X24: after a call of [ingest_odds] that wrote at least one snapshot,
    the freshness check passes at any moment that is at most two hours
    after every reading of the clock taken during the call. *)
Theorem ingest_makes_data_fresh (parse_commence_time : string -> option Z)
        (utcnow : Z -> Z) (unique_snapshots : bool) (sport : string)
        (events : list Feed.Event) (st : Store) (now : Z) :
  (forall k, (now - utcnow k <= two_hours)%Z) ->
  odds_snapshots
    (fst (ingest_odds parse_commence_time utcnow unique_snapshots sport
                      events st))
  <> odds_snapshots st ->
  check_data_freshness
    (fst (ingest_odds parse_commence_time utcnow unique_snapshots sport
                      events st)) now = true.
Proof.
  intros Hclock Hnew.
  destruct (ingest_rows_written parse_commence_time utcnow unique_snapshots
                                sport events st) as (rows & E & Hrows).
  apply data_freshness_spec.
  destruct rows as [|r rows]; [rewrite app_nil_r in E; contradiction|].
  exists r. split; [rewrite E; apply in_or_app; right; left; reflexivity|].
  inversion Hrows as [|? ? (_ & _ & Ht & _) _]; subst.
  unfold fresh_at. rewrite Ht. apply Hclock.
Qed.

Lemma ingest_makes_data_fresh_witness :
  check_data_freshness
    (fst (ingest_odds sample_parse sample_clock true "basketball_nba"
                      feed_repeat_then_new store_with_snapshot)) 100 = true.
Proof.
  apply (ingest_makes_data_fresh sample_parse sample_clock true
           "basketball_nba" feed_repeat_then_new store_with_snapshot 100).
  - intro k. vm_compute. discriminate.
  - intro H. apply (f_equal (@List.length OddsSnapshot.t)) in H.
    vm_compute in H. discriminate.
Defined.

(* ================================================================== *)
(** * The bet tracker *)

Lemma settle_fresh_id (f : BetResult.t -> BetResult.t) (bet_id : Z)
      (l : list BetResult.t) :
  ~ In bet_id (map BetResult.id l) ->
  find (fun b => (BetResult.id b =? bet_id)%Z) l = None
  /\ map (fun b => if (BetResult.id b =? bet_id)%Z then f b else b) l = l.
Proof.
  induction l as [|a l IH]; intro H; simpl; [auto|].
  simpl in H. destruct (Z.eqb_spec (BetResult.id a) bet_id) as [E|E]; [tauto|].
  destruct IH as [IH1 IH2]; [tauto|]. rewrite IH2. auto.
Qed.

Lemma settle_known_id (f : BetResult.t -> BetResult.t) (bet : BetResult.t)
      (l1 l2 : list BetResult.t) :
  ~ In (BetResult.id bet) (map BetResult.id l1) ->
  ~ In (BetResult.id bet) (map BetResult.id l2) ->
  find (fun b => (BetResult.id b =? BetResult.id bet)%Z) (l1 ++ bet :: l2)
  = Some bet
  /\ map (fun b => if (BetResult.id b =? BetResult.id bet)%Z then f b else b)
         (l1 ++ bet :: l2)
     = l1 ++ f bet :: l2.
Proof.
  intros H1 H2. split.
  - induction l1 as [|a l1 IH]; simpl.
    + rewrite Z.eqb_refl. reflexivity.
    + simpl in H1.
      destruct (Z.eqb_spec (BetResult.id a) (BetResult.id bet)); [tauto|].
      apply IH. tauto.
  - rewrite map_app. cbn [map]. rewrite Z.eqb_refl.
    rewrite (proj2 (settle_fresh_id f _ l1 H1)),
            (proj2 (settle_fresh_id f _ l2 H2)).
    reflexivity.
Qed.

Lemma nodup_split_ids (l1 l2 : list BetResult.t) (bet : BetResult.t) :
  NoDup (map BetResult.id (l1 ++ bet :: l2)) ->
  ~ In (BetResult.id bet) (map BetResult.id l1)
  /\ ~ In (BetResult.id bet) (map BetResult.id l2).
Proof.
  rewrite map_app. cbn [map]. intro H. apply NoDup_remove_2 in H.
  split; intro Hin; apply H; apply in_or_app; auto.
Qed.

Lemma settle_bet_known (l1 l2 : list BetResult.t) (bet : BetResult.t)
      (now : Z) (result : string) (closing_odds : option Q) :
  ~ In (BetResult.id bet) (map BetResult.id l1) ->
  ~ In (BetResult.id bet) (map BetResult.id l2) ->
  (truthy closing_odds = true -> ~ BetResult.odds_at_bet bet == 0) ->
  settle_bet (l1 ++ bet :: l2) now (BetResult.id bet) result closing_odds
  = (l1 ++ write_settlement result
             (settled_pnl result (BetResult.odds_at_bet bet)
                          (BetResult.stake bet))
             (closing_value closing_odds (BetResult.odds_at_bet bet))
             now bet :: l2,
     Ok (Some (write_settlement result
                 (settled_pnl result (BetResult.odds_at_bet bet)
                              (BetResult.stake bet))
                 (closing_value closing_odds (BetResult.odds_at_bet bet))
                 now bet))).
Proof.
  intros H1 H2 Hz. unfold settle_bet.
  rewrite (proj1 (settle_known_id (fun b => b) bet l1 l2 H1 H2)).
  fold (settled_pnl result (BetResult.odds_at_bet bet) (BetResult.stake bet)).
  destruct closing_odds as [c|]; cbn [closing_value truthy] in *.
  - destruct (Qeq_bool c 0) eqn:Ec; cbn [negb] in *.
    + rewrite (proj2 (settle_known_id _ bet l1 l2 H1 H2)). reflexivity.
    + rewrite (py_div_ok _ _ (Hz eq_refl)). cbn [bind].
      rewrite (proj2 (settle_known_id _ bet l1 l2 H1 H2)). reflexivity.
  - rewrite (proj2 (settle_known_id _ bet l1 l2 H1 H2)). reflexivity.
Qed.

(** X25: in a table with unique keys, settling a stored bet replaces that
    row in place and no other: the settled row keeps the identity, the
    stake and the odds of the bet, carries the given result, the profit
    [stake * (odds - 1)] on WIN, the loss of the stake on LOSS and 0 on
    anything else, the closing line value [(closing / odds - 1) * 100]
    when a non-zero closing price is given and none otherwise, and the
    time of the call. *)
Theorem settle_bet_settles (bet_results : list BetResult.t)
        (bet : BetResult.t) (now : Z) (result : string)
        (closing_odds : option Q) :
  NoDup (map BetResult.id bet_results) ->
  In bet bet_results ->
  (truthy closing_odds = true -> ~ BetResult.odds_at_bet bet == 0) ->
  exists l1 l2 bet',
    bet_results = l1 ++ bet :: l2
    /\ settle_bet bet_results now (BetResult.id bet) result closing_odds
       = (l1 ++ bet' :: l2, Ok (Some bet'))
    /\ same_bet bet' bet
    /\ BetResult.result bet' = Some result
    /\ BetResult.pnl bet'
       = Some (settled_pnl result (BetResult.odds_at_bet bet)
                           (BetResult.stake bet))
    /\ BetResult.closing_line_value bet'
       = closing_value closing_odds (BetResult.odds_at_bet bet)
    /\ BetResult.settled_at bet' = Some now.
Proof.
  intros Hnd Hin Hz.
  destruct (in_split _ _ Hin) as (l1 & l2 & ->).
  destruct (nodup_split_ids _ _ _ Hnd) as [H1 H2].
  exists l1, l2. eexists. split; [reflexivity|].
  split; [apply settle_bet_known; assumption|].
  unfold same_bet. cbn. repeat split; reflexivity.
Qed.

Lemma settle_bet_settles_witness :
  exists l1 l2 bet',
    sample_bets = l1 ++ sample_bet_1 :: l2
    /\ settle_bet sample_bets 300 (BetResult.id sample_bet_1) "WIN"
                  (Some (19 # 10))
       = (l1 ++ bet' :: l2, Ok (Some bet'))
    /\ same_bet bet' sample_bet_1
    /\ BetResult.result bet' = Some "WIN"%string
    /\ BetResult.pnl bet'
       = Some (settled_pnl "WIN" (BetResult.odds_at_bet sample_bet_1)
                           (BetResult.stake sample_bet_1))
    /\ BetResult.closing_line_value bet'
       = closing_value (Some (19 # 10)) (BetResult.odds_at_bet sample_bet_1)
    /\ BetResult.settled_at bet' = Some 300%Z.
Proof.
  apply (settle_bet_settles sample_bets sample_bet_1 300 "WIN"
           (Some (19 # 10))).
  - vm_compute. repeat constructor; simpl; intuition discriminate.
  - left. reflexivity.
  - intros _ H. vm_compute in H. discriminate.
Defined.

(** X26: a stored bet whose odds are 0 cannot be settled with a closing
    price: the division for the closing line value raises
    [ZeroDivisionError] before anything is assigned, and the table is as
    it was. *)
Theorem settle_bet_zero_odds_raises (bet_results : list BetResult.t)
        (bet : BetResult.t) (now : Z) (result : string)
        (closing_odds : option Q) :
  NoDup (map BetResult.id bet_results) ->
  In bet bet_results ->
  BetResult.odds_at_bet bet == 0 ->
  truthy closing_odds = true ->
  settle_bet bet_results now (BetResult.id bet) result closing_odds
  = (bet_results, Raise ZeroDivisionError).
Proof.
  intros Hnd Hin Hz Ht.
  destruct (in_split _ _ Hin) as (l1 & l2 & ->).
  destruct (nodup_split_ids _ _ _ Hnd) as [H1 H2].
  unfold settle_bet.
  rewrite (proj1 (settle_known_id (fun b => b) bet l1 l2 H1 H2)).
  destruct closing_odds as [c|]; [|discriminate].
  rewrite Ht, (py_div_zero _ _ Hz). reflexivity.
Qed.

Lemma settle_bet_zero_odds_raises_witness :
  settle_bet sample_bets 300 (BetResult.id sample_bet_zero_odds) "WIN"
             (Some (19 # 10))
  = (sample_bets, Raise ZeroDivisionError).
Proof.
  apply (settle_bet_zero_odds_raises sample_bets sample_bet_zero_odds 300
           "WIN" (Some (19 # 10))).
  - vm_compute. repeat constructor; simpl; intuition discriminate.
  - right. right. left. reflexivity.
  - reflexivity.
  - reflexivity.
Defined.

(** X27: [settle_bet] answers with nothing and leaves the table as it was
    exactly when no stored bet has the given key. *)
Theorem settle_bet_unknown_id (bet_results : list BetResult.t) (now : Z)
        (bet_id : Z) (result : string) (closing_odds : option Q) :
  settle_bet bet_results now bet_id result closing_odds
  = (bet_results, Ok None)
  <-> ~ In bet_id (map BetResult.id bet_results).
Proof.
  split.
  - intros H Hin. unfold settle_bet in H.
    destruct (find (fun b => (BetResult.id b =? bet_id)%Z) bet_results)
      as [bet|] eqn:Ef.
    + destruct (match closing_odds with
                | Some c => _
                | None => _
                end) in H; discriminate.
    + apply in_map_iff in Hin. destruct Hin as (b & Eb & Hb).
      pose proof (find_none _ _ Ef b Hb) as Hn. cbn in Hn.
      apply Z.eqb_neq in Hn. contradiction.
  - intro H. unfold settle_bet.
    rewrite (proj1 (settle_fresh_id (fun b => b) bet_id bet_results H)).
    reflexivity.
Qed.

(** X28: a bet that was just recorded can be settled by the key it was
    given, whatever keys the table held: the call appends nothing, leaves
    the earlier rows as they were and turns the last row into the settled
    bet, with the profit or loss computed from the recorded stake and
    odds. *)
Theorem record_then_settle (bet_results : list BetResult.t) (now now' : Z)
        (value_bet_id : Z) (bookmaker selection : string) (odds stake : Q)
        (result : string) (closing_odds : option Q) :
  (truthy closing_odds = true -> ~ odds == 0) ->
  settle_bet
    (fst (record_bet bet_results now value_bet_id bookmaker selection
                     odds stake))
    now'
    (BetResult.id
       (snd (record_bet bet_results now value_bet_id bookmaker selection
                        odds stake)))
    result closing_odds
  = (bet_results ++
       [write_settlement result (settled_pnl result odds stake)
          (closing_value closing_odds odds) now'
          (snd (record_bet bet_results now value_bet_id bookmaker selection
                           odds stake))],
     Ok (Some
           (write_settlement result (settled_pnl result odds stake)
              (closing_value closing_odds odds) now'
              (snd (record_bet bet_results now value_bet_id bookmaker
                               selection odds stake))))).
Proof.
  intro Hz. unfold record_bet. cbn [fst snd].
  set (bet := BetResult.mk _ _ _ _ _ _ _ _ _ _ _).
  apply (settle_bet_known bet_results [] bet now' result closing_odds).
  - subst bet. cbn [BetResult.id]. apply next_id_fresh.
  - intros [].
  - exact Hz.
Qed.

Lemma record_then_settle_witness :
  settle_bet
    (fst (record_bet sample_bets 400 13 "betmgm" "Home" (9 # 5) 40))
    500
    (BetResult.id
       (snd (record_bet sample_bets 400 13 "betmgm" "Home" (9 # 5) 40)))
    "LOSS" None
  = (sample_bets ++
       [write_settlement "LOSS" (settled_pnl "LOSS" (9 # 5) 40)
          (closing_value None (9 # 5)) 500
          (snd (record_bet sample_bets 400 13 "betmgm" "Home" (9 # 5) 40))],
     Ok (Some
           (write_settlement "LOSS" (settled_pnl "LOSS" (9 # 5) 40)
              (closing_value None (9 # 5)) 500
              (snd (record_bet sample_bets 400 13 "betmgm" "Home"
                               (9 # 5) 40))))).
Proof.
  apply (record_then_settle sample_bets 400 500 13 "betmgm" "Home" (9 # 5) 40
           "LOSS" None).
  discriminate.
Defined.

(** ** The performance report *)

Lemma isna_present (l : list (option Q)) :
  forallb isna l = false -> present l <> [].
Proof.
  induction l as [|[q|] l IH]; simpl; intro H;
    [discriminate H | discriminate | exact (IH H)].
Qed.

Lemma filter_disjoint_length {A} (f g : A -> bool) (l : list A) :
  (forall x, f x = true -> g x = false) ->
  (List.length (filter f l) + List.length (filter g l) <= List.length l)%nat.
Proof.
  intro H. induction l as [|a l IH]; simpl; [lia|].
  destruct (f a) eqn:Ef; [rewrite (H a Ef) | destruct (g a)]; simpl; lia.
Qed.

Lemma result_eq_exclusive (b : BetResult.t) :
  result_eq "WIN" b = true -> result_eq "LOSS" b = false.
Proof.
  unfold result_eq. destruct (BetResult.result b) as [s|]; [|discriminate].
  intro H. apply String.eqb_eq in H. subst s. reflexivity.
Qed.

Lemma performance_report_some (bet_results : list BetResult.t) :
  settled_rows bet_results <> [] ->
  exists r,
    get_performance_report bet_results = Ok (Some r)
    /\ Performance.total_bets r = List.length (settled_rows bet_results)
    /\ Performance.wins r
       = List.length (filter (result_eq "WIN") (settled_rows bet_results))
    /\ Performance.losses r
       = List.length (filter (result_eq "LOSS") (settled_rows bet_results))
    /\ 0 <= Performance.win_rate r <= 100
    /\ Performance.total_staked r
       = py_sum (map BetResult.stake (settled_rows bet_results))
    /\ Performance.total_pnl r
       = py_sum (present (map BetResult.pnl (settled_rows bet_results)))
    /\ (Performance.total_staked r <= 0 -> Performance.roi r = 0).
Proof.
  intro Hne. unfold get_performance_report.
  destruct bet_results as [|b0 rest]; [exfalso; apply Hne; reflexivity|].
  cbv zeta. fold (settled_rows (b0 :: rest)).
  destruct (settled_rows (b0 :: rest)) as [|d0 dr]; [congruence|].
  set (df := d0 :: dr) in *.
  assert (Hlen : (0 <? List.length df)%nat = true) by reflexivity.
  rewrite Hlen, (py_div_ok _ _ (len_nonzero df Hne)). cbn [bind].
  assert (Hwr : 0 <= inject_Z (Z.of_nat
                       (List.length (filter (result_eq "WIN") df)))
                / len df * 100 <= 100).
  { apply share_in_unit; [apply filter_length_le | subst df; simpl; lia]. }
  assert (Hroi : exists roi,
             (if Qltb 0 (py_sum (map BetResult.stake df))
              then (r <- py_div (py_sum (present (map BetResult.pnl df)))
                                (py_sum (map BetResult.stake df)) ;;
                    Ok (r * 100))
              else Ok 0) = Ok roi
             /\ (py_sum (map BetResult.stake df) <= 0 -> roi = 0)).
  { destruct (Qltb 0 (py_sum (map BetResult.stake df))) eqn:Es.
    - apply Qltb_true in Es. rewrite py_div_ok by lra. cbn [bind].
      eexists. split; [reflexivity|]. intro H. exfalso. lra.
    - eexists. split; reflexivity. }
  destruct Hroi as (roi & -> & Hroi). cbn [bind].
  assert (Hclv : exists avg,
             (if negb (forallb isna (map BetResult.closing_line_value df))
              then py_div
                     (py_sum (present (map BetResult.closing_line_value df)))
                     (len (present (map BetResult.closing_line_value df)))
              else Ok 0) = Ok avg).
  { destruct (forallb isna (map BetResult.closing_line_value df)) eqn:Ec;
      cbn [negb]; [eexists; reflexivity|].
    rewrite (py_div_ok _ _ (len_nonzero _ (isna_present _ Ec))).
    eexists. reflexivity. }
  destruct Hclv as (avg & ->). cbn [bind].
  eexists. split; [reflexivity|].
  cbn [Performance.total_bets Performance.wins Performance.losses
       Performance.win_rate Performance.total_staked Performance.total_pnl
       Performance.roi].
  split; [reflexivity|]. split; [reflexivity|]. split; [reflexivity|].
  split; [exact Hwr|]. split; [reflexivity|]. split; [reflexivity|].
  exact Hroi.
Qed.

(** X29: [get_performance_report] never raises.  It answers with nothing
    when no stored bet has a result; otherwise its report counts the bets
    that have one, its wins and losses together are no more than that
    count, its win rate is between 0 and 100, and its ROI is 0 when the
    total staked is not positive. *)
Theorem performance_report_summary (bet_results : list BetResult.t) :
  match settled_rows bet_results with
  | [] => get_performance_report bet_results = Ok None
  | _ :: _ =>
      exists r,
        get_performance_report bet_results = Ok (Some r)
        /\ Performance.total_bets r = List.length (settled_rows bet_results)
        /\ (Performance.wins r + Performance.losses r
            <= Performance.total_bets r)%nat
        /\ 0 <= Performance.win_rate r <= 100
        /\ (Performance.total_staked r <= 0 -> Performance.roi r = 0)
  end.
Proof.
  destruct (settled_rows bet_results) as [|d0 dr] eqn:E.
  - unfold get_performance_report.
    destruct bet_results as [|b0 rest]; [reflexivity|].
    cbv zeta. fold (settled_rows (b0 :: rest)). rewrite E. reflexivity.
  - assert (Hne : settled_rows bet_results <> [])
      by (rewrite E; discriminate).
    destruct (performance_report_some bet_results Hne)
      as (r & Er & Hn & Hw & Hl & Hwr & _ & _ & Hroi).
    exists r. rewrite <- E.
    split; [exact Er|]. split; [exact Hn|].
    split; [|split; [exact Hwr | exact Hroi]].
    rewrite Hw, Hl, Hn. apply filter_disjoint_length.
    exact result_eq_exclusive.
Qed.

Lemma settled_rows_app (l1 l2 : list BetResult.t) :
  settled_rows (l1 ++ l2) = settled_rows l1 ++ settled_rows l2.
Proof. unfold settled_rows. apply filter_app. Qed.

Lemma present_app (l1 l2 : list (option Q)) :
  present (l1 ++ l2) = present l1 ++ present l2.
Proof. unfold present. apply flat_map_app. Qed.

Lemma py_sum_app (l1 l2 : list Q) :
  py_sum (l1 ++ l2) == py_sum l1 + py_sum l2.
Proof.
  induction l1 as [|a l1 IH]; cbn [app].
  - change (py_sum []) with 0. ring.
  - rewrite !py_sum_cons, IH. ring.
Qed.

(** X30: in a table with unique keys, settling a bet that had no result
    with a non-empty result adds that bet to the performance report: the
    report of the new table exists, counts one bet more than the table
    had settled, and its totals staked and won are the totals over the
    bets settled before plus the stake and the profit or loss of this
    one. *)
Theorem settle_bet_updates_report (bet_results : list BetResult.t)
        (bet : BetResult.t) (now : Z) (result : string)
        (closing_odds : option Q) :
  NoDup (map BetResult.id bet_results) ->
  In bet bet_results ->
  truthy_str (BetResult.result bet) = false ->
  result <> ""%string ->
  (truthy closing_odds = true -> ~ BetResult.odds_at_bet bet == 0) ->
  exists r,
    get_performance_report
      (fst (settle_bet bet_results now (BetResult.id bet) result
                       closing_odds))
    = Ok (Some r)
    /\ Performance.total_bets r = S (List.length (settled_rows bet_results))
    /\ Performance.total_staked r
       == py_sum (map BetResult.stake (settled_rows bet_results))
          + BetResult.stake bet
    /\ Performance.total_pnl r
       == py_sum (present (map BetResult.pnl (settled_rows bet_results)))
          + settled_pnl result (BetResult.odds_at_bet bet)
                        (BetResult.stake bet).
Proof.
  intros Hnd Hin Hun Hres Hz.
  destruct (in_split _ _ Hin) as (l1 & l2 & ->).
  destruct (nodup_split_ids _ _ _ Hnd) as [H1 H2].
  rewrite (settle_bet_known l1 l2 bet now result closing_odds H1 H2 Hz).
  cbn [fst].
  set (p := settled_pnl result (BetResult.odds_at_bet bet)
                        (BetResult.stake bet)).
  set (bet' := write_settlement result p _ now bet).
  assert (Hs' : settled_rows (l1 ++ bet' :: l2)
                = settled_rows l1 ++ bet' :: settled_rows l2).
  { rewrite settled_rows_app. f_equal. unfold settled_rows. cbn [filter].
    subst bet'. cbn [write_settlement BetResult.result truthy_str].
    destruct (String.eqb_spec result ""); [contradiction | reflexivity]. }
  assert (Hs : settled_rows (l1 ++ bet :: l2)
               = settled_rows l1 ++ settled_rows l2).
  { rewrite settled_rows_app. f_equal. unfold settled_rows. cbn [filter].
    rewrite Hun. reflexivity. }
  destruct (performance_report_some (l1 ++ bet' :: l2))
    as (r & Er & Hn & _ & _ & _ & Hst & Hp & _).
  { rewrite Hs'. intro H. symmetry in H. exact (app_cons_not_nil _ _ _ H). }
  exists r. split; [exact Er|].
  rewrite Hn, Hst, Hp, Hs', Hs.
  split; [rewrite !length_app; simpl; lia|].
  rewrite !map_app, !present_app. cbn [map].
  change (present (BetResult.pnl bet' :: map BetResult.pnl (settled_rows l2)))
    with (p :: present (map BetResult.pnl (settled_rows l2))).
  change (BetResult.stake bet') with (BetResult.stake bet).
  rewrite !py_sum_app, !py_sum_cons. split; ring.
Qed.

Lemma settle_bet_updates_report_witness :
  exists r,
    get_performance_report
      (fst (settle_bet sample_bets 300 (BetResult.id sample_bet_1) "WIN" None))
    = Ok (Some r)
    /\ Performance.total_bets r = S (List.length (settled_rows sample_bets))
    /\ Performance.total_staked r
       == py_sum (map BetResult.stake (settled_rows sample_bets))
          + BetResult.stake sample_bet_1
    /\ Performance.total_pnl r
       == py_sum (present (map BetResult.pnl (settled_rows sample_bets)))
          + settled_pnl "WIN" (BetResult.odds_at_bet sample_bet_1)
                        (BetResult.stake sample_bet_1).
Proof.
  apply (settle_bet_updates_report sample_bets sample_bet_1 300 "WIN" None).
  - vm_compute. repeat constructor; simpl; intuition discriminate.
  - left. reflexivity.
  - reflexivity.
  - discriminate.
  - discriminate.
Defined.
